(** * form_converter: the SurveyCTO to Kobo XLSForm pipeline

    A shallow embedding of the ten table transformations of
    [form_converter.py] together with the two utilities they share
    ([is_empty], [normalize_name]), and the properties of the design
    document that concern them.

    Data model.
    - Text is a [string] holding the UTF-8 bytes of a Python [str].
    - A cell is what pandas hands to the code: the float NaN, [None], a
      text or a number (numbers are represented by integers).
    - A DataFrame is its ordered list of column names and its ordered list
      of rows; a row carries its index label and a dictionary from column
      name to cell.  Cells are dynamically typed, as in a column of dtype
      [object].
    - A stage that indexes a column which may be absent returns a [result],
      with the [KeyError] pandas raises; the other stages return a table.

    The stages change the frame they are given and return it; the callers
    hand each stage a copy, so a stage is a function from tables to
    tables here. *)

From Stdlib Require Import Ascii String.
From stdpp Require Import gmap strings list fin_maps pretty sorting.

Local Open Scope string_scope.
Local Open Scope Z_scope.
Local Open Scope list_scope.

(** ** Python text primitives *)

Module Py.

(** The characters with the given byte codes. *)
Definition code (l : list nat) : list ascii := ascii_of_nat <$> l.

(** The characters for which [str.isspace] holds, in UTF-8:
    TAB, LF, VT, FF, CR, FS, GS, RS, US, SPACE, then U+0085, U+00A0,
    U+1680, U+2000..U+200A, U+2028, U+2029, U+202F, U+205F, U+3000. *)
Definition whitespace : list (list ascii) :=
  [ code [9%nat]; code [10%nat]; code [11%nat]; code [12%nat];
    code [13%nat]; code [28%nat]; code [29%nat]; code [30%nat];
    code [31%nat]; code [32%nat];
    code [194; 133]%nat; code [194; 160]%nat; code [225; 154; 128]%nat;
    code [226; 128; 128]%nat; code [226; 128; 129]%nat;
    code [226; 128; 130]%nat; code [226; 128; 131]%nat;
    code [226; 128; 132]%nat; code [226; 128; 133]%nat;
    code [226; 128; 134]%nat; code [226; 128; 135]%nat;
    code [226; 128; 136]%nat; code [226; 128; 137]%nat;
    code [226; 128; 138]%nat; code [226; 128; 168]%nat;
    code [226; 128; 169]%nat; code [226; 128; 175]%nat;
    code [226; 129; 159]%nat; code [227; 128; 128]%nat ].

(** [drop_prefix w l] is [Some l'] when [l = w ++ l']. *)
Fixpoint drop_prefix (w l : list ascii) : option (list ascii) :=
  match w, l with
  | [], _ => Some l
  | a :: w', b :: l' => if Ascii.eqb a b then drop_prefix w' l' else None
  | _ :: _, [] => None
  end.

(** Removes one leading character of the set [chars], if there is one. *)
Definition drop_one (chars : list (list ascii)) (l : list ascii)
  : option (list ascii) :=
  foldr (λ w acc, match drop_prefix w l with
                  | Some l' => Some l'
                  | None => acc
                  end) None chars.

Fixpoint lstrip_n (chars : list (list ascii)) (n : nat) (l : list ascii)
  : list ascii :=
  match n with
  | O => l
  | S n' => match drop_one chars l with
            | Some l' => lstrip_n chars n' l'
            | None => l
            end
  end.

Definition lstrip (l : list ascii) : list ascii :=
  lstrip_n whitespace (length l) l.

Definition rstrip (l : list ascii) : list ascii :=
  reverse (lstrip_n (reverse <$> whitespace) (length l) (reverse l)).

(** [s.strip()] *)
Definition strip (s : string) : string :=
  string_of_list_ascii (rstrip (lstrip (list_ascii_of_string s))).

(** [s.startswith(p)] *)
Definition startswith (s p : string) : bool := String.prefix p s.

(** [p in s] for two texts. *)
Fixpoint contains (p s : string) : bool :=
  String.prefix p s ||
  match s with
  | EmptyString => false
  | String _ s' => contains p s'
  end.

Definition lower_ascii (c : ascii) : ascii :=
  let n := nat_of_ascii c in
  if (65 <=? n)%nat && (n <=? 90)%nat then ascii_of_nat (n + 32) else c.

(** [s.lower()].  ASCII capitals are lowered.  Two characters outside
    ASCII have a lower case with an ASCII letter in it: U+0130 gives
    [i] followed by U+0307, and U+212A (the Kelvin sign) gives [k].
    Every other character outside ASCII stays outside ASCII, and is left
    as it is here: the only caller, [normalize_name], deletes all such
    characters right afterwards. *)
Fixpoint lower (s : string) : string :=
  match s with
  | EmptyString => EmptyString
  | String a s1 =>
      match s1 with
      | EmptyString => String (lower_ascii a) EmptyString
      | String b s2 =>
          if Ascii.eqb a (ascii_of_nat 196) && Ascii.eqb b (ascii_of_nat 176)
          then "i" +:+ string_of_list_ascii (code [204; 135]%nat) +:+ lower s2
          else
            match s2 with
            | EmptyString => String (lower_ascii a) (lower s1)
            | String c s3 =>
                if Ascii.eqb a (ascii_of_nat 226)
                   && Ascii.eqb b (ascii_of_nat 132)
                   && Ascii.eqb c (ascii_of_nat 170)
                then "k" +:+ lower s3
                else String (lower_ascii a) (lower s1)
            end
      end
  end.

(** [s.replace(" ", "_")] *)
Fixpoint replace_spaces (s : string) : string :=
  match s with
  | EmptyString => EmptyString
  | String c s' =>
      String (if Ascii.eqb c " "%char then "_"%char else c) (replace_spaces s')
  end.

(** The character class [a-z0-9_]. *)
Definition name_char (c : ascii) : bool :=
  let n := nat_of_ascii c in
  ((97 <=? n)%nat && (n <=? 122)%nat)
  || ((48 <=? n)%nat && (n <=? 57)%nat)
  || (n =? 95)%nat.

(** [re.sub(r'[^a-z0-9_]', '', s)] *)
Fixpoint keep_name_chars (s : string) : string :=
  match s with
  | EmptyString => EmptyString
  | String c s' =>
      if name_char c then String c (keep_name_chars s') else keep_name_chars s'
  end.

End Py.

(** ** Cells, rows and tables *)

Inductive cell : Type :=
| CNaN
| CNone
| CStr (s : string)
| CInt (n : Z).

#[global] Instance cell_eq_dec : EqDecision cell.
Proof. solve_decision. Defined.

(** [str(value)] *)
Definition str (v : cell) : string :=
  match v with
  | CNaN => "nan"
  | CNone => "None"
  | CStr s => s
  | CInt n => pretty n
  end.

Definition is_empty (value : cell) : bool :=
  match value with
  | CNaN => true
  | CNone => true
  | CStr s => bool_decide (s = "")
  | CInt _ => false
  end.

Definition normalize_name (name : cell) : string :=
  if is_empty name then ""
  else
    let name := str name in
    let name := Py.lower name in
    let name := Py.replace_spaces name in
    Py.keep_name_chars name.

Abbreviation row := (gmap string cell).

Record table : Type := Table {
  columns : list string;
  rows : list (Z * row)
}.

#[global] Instance table_eq_dec : EqDecision table.
Proof. solve_decision. Defined.

(** [df.index] *)
Definition index (df : table) : list Z := (rows df).*1.

(** [row[col]] for a column of the frame.  Every row of a DataFrame has a
    cell in every column; pandas fills a cell that was never given with NaN. *)
Definition at_col (r : row) (col : string) : cell := default CNaN (r !! col).

(** [row.get(col)] *)
Definition get (r : row) (col : string) : cell := default CNone (r !! col).

(** [col in df.columns] *)
Definition has_column (df : table) (col : string) : bool :=
  bool_decide (col ∈ columns df).

Definition add_column (cols : list string) (col : string) : list string :=
  if bool_decide (col ∈ cols) then cols else cols ++ [col].

(** [df[col] = df.apply(f, axis=1)], and [df[col] = values] in general:
    the column is replaced in place, or added last when it is new. *)
Definition assign (col : string) (f : row → cell) (df : table) : table :=
  Table (add_column (columns df) col)
        (prod_map id (λ r, <[col := f r]> r) <$> rows df).

(** [df[col] = value] for one value. *)
Definition set_column (col : string) (v : cell) (df : table) : table :=
  assign col (λ _, v) df.

(** [df.drop(columns=cols, errors='ignore')] *)
Definition drop_columns (cols : list string) (df : table) : table :=
  Table (filter (λ c, c ∉ cols) (columns df))
        (prod_map id (λ r, foldr delete r cols) <$> rows df).

(** [for idx, row in df.iterrows(): ... df.at[idx, c] = v ...]: the body
    reads the row it visits and writes cells of that same row (row labels
    are distinct), so the loop maps its body over the rows. *)
Definition iterrows (body : row → row) (df : table) : table :=
  Table (columns df) (prod_map id body <$> rows df).

(** [df.reset_index(drop=True)] on a list of rows. *)
Definition reset_index (rs : list (Z * row)) : list (Z * row) :=
  imap (λ i ir, (Z.of_nat i, ir.2)) rs.

(** Errors raised by the code. *)
Inductive exn : Type :=
| KeyError (key : string).

Inductive result (A : Type) : Type :=
| Ok (a : A)
| Raise (e : exn).
Arguments Ok {A} a.
Arguments Raise {A} e.

(** ** The pandas functions the code calls by name *)

Module pd.

(** [pd.isna(value)]: the missing values of pandas. *)
Definition isna (v : cell) : bool :=
  match v with
  | CNaN | CNone => true
  | _ => false
  end.

(** A row completed with NaN in the columns it has no cell for. *)
Definition pad (cols : list string) (r : row) : row :=
  foldr (λ col acc, match acc !! col with
                    | Some _ => acc
                    | None => <[col := CNaN]> acc
                    end) r cols.

(** [pd.DataFrame(data)] for a list of dictionaries: the columns are the
    keys in the order they are first met, the index counts from 0. *)
Definition DataFrame (data : list (list (string * cell))) : table :=
  let cols := foldl (λ acc d, foldl add_column acc d.*1) [] data in
  Table cols (imap (λ i d, (Z.of_nat i, pad cols (list_to_map d))) data).

(** [pd.concat([a, b], ignore_index=True)] *)
Definition concat (a b : table) : table :=
  let cols := foldl add_column (columns a) (columns b) in
  Table cols (reset_index (prod_map id (pad cols) <$> (rows a ++ rows b))).

End pd.

(** ** Field names *)

Definition unique_step (st : gmap string Z * list cell) (name : cell)
  : gmap string Z * list cell :=
  let '(names, new_names) := st in
  if is_empty name then (names, new_names ++ [name])
  else
    let normalized_name := normalize_name name in
    match names !! normalized_name with
    | Some c =>
        let counter := c + 1 in
        (<[normalized_name := counter]> names,
         new_names ++ [CStr (normalized_name +:+ "_" +:+ pretty counter)])
    | None =>
        (<[normalized_name := 0]> names, new_names ++ [CStr normalized_name])
    end.

(** The list [new_names] built by the loop of [ensure_unique_names]. *)
Definition unique_names (names : list cell) : list cell :=
  (foldl unique_step (∅, []) names).2.

(** [df[col] = values] for a list with one value per row. *)
Definition set_values (col : string) (values : list cell) (df : table) : table :=
  Table (add_column (columns df) col)
        (zip_with (λ ir v, (ir.1, <[col := v]> ir.2)) (rows df) values).

(** [df[col]] as the list of its cells. *)
Definition column_values (col : string) (df : table) : list cell :=
  (λ ir, at_col ir.2 col) <$> rows df.

Definition ensure_unique_names (df : table) (name_col : string) : result table :=
  if has_column df name_col then
    Ok (set_values name_col (unique_names (column_values name_col df)) df)
  else Raise (KeyError name_col).

(** ** Language columns *)

Definition label_english_patterns : list string :=
  ["label"; "label:English"; "label::English (en)"; "label::English"].
Definition label_arabic_patterns : list string :=
  ["label:العربية"; "label::Arabic (ar)"; "label::العربية"; "label::Arabic"].
Definition hint_english_patterns : list string :=
  ["hint"; "hint:English"; "hint::English (en)"; "hint::English"].
Definition hint_arabic_patterns : list string :=
  ["hint:العربية"; "hint::Arabic (ar)"; "hint::العربية"; "hint::Arabic"].

(** The four standardized columns, in the order the code creates them. *)
Definition canonical_columns : list string :=
  ["label::English"; "label::Arabic"; "hint::English"; "hint::Arabic"].

(** [if target not in df.columns: df[target] = ''] *)
Definition create_if_missing (target : string) (df : table) : table :=
  if has_column df target then df else set_column target (CStr "") df.

(** The lambda applied to each row when the column [col] is merged into
    [target]. *)
Definition merged_cell (target col : string) (r : row) : cell :=
  if is_empty (at_col r target) && negb (is_empty (at_col r col))
  then at_col r col
  else at_col r target.

Definition merge_into (target col : string) (df : table) : table :=
  assign target (merged_cell target col) df.

(** The body of the loop [for col in columns] that maps existing columns to
    the standardized ones. *)
Definition map_column (df : table) (col : string) : table :=
  if bool_decide (col ∈ label_english_patterns)
     && negb (String.eqb col "label::English")
  then merge_into "label::English" col df
  else if bool_decide (col ∈ label_arabic_patterns)
          && negb (String.eqb col "label::Arabic")
  then merge_into "label::Arabic" col df
  else if bool_decide (col ∈ hint_english_patterns)
          && negb (String.eqb col "hint::English")
  then merge_into "hint::English" col df
  else if bool_decide (col ∈ hint_arabic_patterns)
          && negb (String.eqb col "hint::Arabic")
  then merge_into "hint::Arabic" col df
  else df.

(** The test that puts a column on [columns_to_drop]. *)
Definition to_drop (col : string) : bool :=
  if (Py.startswith col "label:" || Py.startswith col "label::")
     && negb (bool_decide (col ∈ ["label::English"; "label::Arabic"]))
  then true
  else if (Py.startswith col "hint:" || Py.startswith col "hint::")
          && negb (bool_decide (col ∈ ["hint::English"; "hint::Arabic"]))
  then true
  else false.

Definition normalize_language_columns (df : table) : table :=
  let columns0 := columns df in
  let df := create_if_missing "label::English" df in
  let df := create_if_missing "label::Arabic" df in
  let df := create_if_missing "hint::English" df in
  let df := create_if_missing "hint::Arabic" df in
  let df := foldl map_column df columns0 in
  let columns_to_drop := filter (λ col, to_drop col = true) columns0 in
  drop_columns columns_to_drop df.

(** ** Field types *)

Definition unsupported_types : list string :=
  ["deviceid"; "username"; "subscriberid"; "simserial";
   "phonenumber"; "caseid"; "text audit"; "comments"; "audit"].

Definition standard_types : list string :=
  ["text"; "integer"; "decimal"; "select_one"; "select_multiple";
   "note"; "geopoint"; "geotrace"; "geoshape"; "date"; "time";
   "dateTime"; "image"; "audio"; "video"; "file"; "barcode";
   "calculate"; "acknowledge"; "hidden"; "xml-external";
   "begin group"; "end group"; "begin repeat"; "end repeat"].

Definition is_standard_type (type_val : cell) : bool :=
  if is_empty type_val then false
  else
    let type_str := Py.strip (str type_val) in
    if bool_decide (type_str ∈ standard_types) then true
    else if Py.startswith type_str "select_one " then true
    else if Py.startswith type_str "select_multiple " then true
    else false.

(** The body of the loop of [fix_field_types] on the row [r] of [df]. *)
Definition fix_type (df : table) (r : row) : row :=
  if has_column df "type" && negb (is_empty (at_col r "type")) then
    let type_val := Py.strip (str (at_col r "type")) in
    if bool_decide (type_val ∈ unsupported_types) then
      <["type" := CStr "text"]> r
    else if Py.startswith type_val "select_one " then
      if Py.contains "sGovernorate" type_val then
        <["type" := CStr "select_one governorate"]> r
      else if Py.contains "sDistrict" type_val then
        <["type" := CStr "select_one district"]> r
      else if Py.contains "sSubdistrict" type_val then
        <["type" := CStr "select_one subdistrict"]> r
      else r
    else if negb (is_standard_type (CStr type_val)) then
      <["type" := CStr "text"]> r
    else r
  else r.

Definition fix_field_types (df : table) : table := iterrows (fix_type df) df.

(** ** Label and hint fallbacks *)

(** One of the four [if col in df.columns and is_empty(row[col])] blocks:
    the test reads the row [seen] handed out by [iterrows], the write goes to
    the frame, whose current row is [r]. *)
Definition fallback (df : table) (col prefix : string) (name : cell)
    (seen r : row) : row :=
  if has_column df col && is_empty (at_col seen col)
  then <[col := CStr (prefix +:+ str name)]> r
  else r.

Definition apply_fallbacks_row (df : table) (r : row) : row :=
  let name := at_col r "name" in
  if is_empty name then r
  else
    let r1 := fallback df "label::English" "Input for " name r r in
    let r2 := fallback df "label::Arabic" "إدخال لـ " name r r1 in
    let r3 := fallback df "hint::English" "Hint for " name r r2 in
    fallback df "hint::Arabic" "تلميح لـ " name r r3.

Definition apply_fallbacks (df : table) : table :=
  if has_column df "name" then iterrows (apply_fallbacks_row df) df else df.

(** ** Expressions and default values *)

Definition invalid_patterns : list string :=
  ["pulldata("; "duration("; "if(<"; "if(="; "if(,)"; "selected(,)";
   "(+())"; "(*1)"; "(*2)"; "${"].

Definition has_invalid_expression (value : cell) : bool :=
  if is_empty value then false
  else
    let value_str := str value in
    existsb (λ pattern, Py.contains pattern value_str) invalid_patterns.

Definition check_cols : list string :=
  ["calculation"; "required"; "relevant"; "constraint"; "choice_filter"].

(** The flag [should_convert] after the inner loop over [check_cols]. *)
Definition should_convert (df : table) (r : row) : bool :=
  existsb (λ col, has_column df col && negb (is_empty (get r col))
                  && has_invalid_expression (at_col r col)) check_cols.

Definition clean_calculation_row (df : table) (r : row) : row :=
  if should_convert df r && has_column df "type" then
    let r1 := <["type" := CStr "text"]> r in
    if has_column df "calculation" then <["calculation" := CStr ""]> r1 else r1
  else r.

Definition clean_calculation_fields (df : table) : table :=
  iterrows (clean_calculation_row df) df.

Definition clean_default_row (r : row) : row :=
  let default_val := get r "default" in
  if negb (is_empty default_val) then
    let default_str := str default_val in
    if Py.contains "pulldata(" default_str || Py.contains "${" default_str
    then <["default" := CStr ""]> r
    else r
  else r.

Definition clean_default_values (df : table) : table :=
  if has_column df "default" then iterrows clean_default_row df else df.

(** ** Groups and repeats *)

(** The four variables of the first pass. *)
Record scan : Type := Scan {
  begin_group_count : Z;
  begin_repeat_count : Z;
  missing_end_groups : list Z;
  missing_end_repeats : list Z
}.

(** [if l: l.pop()] *)
Definition pop (l : list Z) : list Z := removelast l.

Definition scan_row (st : scan) (ir : Z * row) : scan :=
  let type_val := get ir.2 "type" in
  if is_empty type_val then st
  else
    let type_str := Py.strip (str type_val) in
    if String.eqb type_str "begin group" then
      Scan (begin_group_count st + 1) (begin_repeat_count st)
           (missing_end_groups st ++ [ir.1]) (missing_end_repeats st)
    else if String.eqb type_str "end group" then
      Scan (begin_group_count st - 1) (begin_repeat_count st)
           (pop (missing_end_groups st)) (missing_end_repeats st)
    else if String.eqb type_str "begin repeat" then
      Scan (begin_group_count st) (begin_repeat_count st + 1)
           (missing_end_groups st) (missing_end_repeats st ++ [ir.1])
    else if String.eqb type_str "end repeat" then
      Scan (begin_group_count st) (begin_repeat_count st - 1)
           (missing_end_groups st) (pop (missing_end_repeats st))
    else st.

(** [{col: '' for col in df.columns}] with its type set to [marker]. *)
Definition closing_row (cols : list string) (marker : string) : row :=
  <["type" := CStr marker]> (list_to_map ((λ col, (col, CStr "")) <$> cols)).

(** One of the two loops that fill [new_rows]: a closing row per unmatched
    opening, labelled [df.index[-1] + 1 + len(new_rows)]. *)
Definition close_all (last : Z) (cols : list string) (marker : string)
    (new_rows : list (Z * row)) (missing : list Z) : list (Z * row) :=
  foldl (λ acc _, acc ++ [(last + 1 + Z.of_nat (length acc),
                            closing_row cols marker)])
        new_rows (reverse missing).

(** [df.loc[idx] = new_row]: the row labelled [idx] is overwritten, and a
    label that is not in the index adds a row at the end. *)
Definition loc_set (rs : list (Z * row)) (new : Z * row) : list (Z * row) :=
  if bool_decide (new.1 ∈ rs.*1)
  then (λ ir, if bool_decide (ir.1 = new.1) then new else ir) <$> rs
  else rs ++ [new].

Fixpoint insert_by_label (x : Z * row) (l : list (Z * row)) : list (Z * row) :=
  match l with
  | [] => [x]
  | y :: l' => if bool_decide (x.1 ≤ y.1) then x :: l
               else y :: insert_by_label x l'
  end.

(** [df.sort_index()] on the rows: ascending labels, rows of one label in
    their former order. *)
Definition sort_index (rs : list (Z * row)) : list (Z * row) :=
  foldr insert_by_label [] rs.

Definition validate_group_repeat_logic (df : table) : table :=
  if negb (has_column df "type") then df
  else
    let st := foldl scan_row (Scan 0 0 [] []) (rows df) in
    (* df.index[-1] is only evaluated when a closing row is made, and then
       the frame has a row *)
    let last := List.last (index df) 0 in
    let new_rows :=
      close_all last (columns df) "end repeat" [] (missing_end_repeats st) in
    let new_rows :=
      close_all last (columns df) "end group" new_rows (missing_end_groups st) in
    Table (columns df) (reset_index (sort_index (foldl loc_set (rows df) new_rows))).

(** ** Choice lists *)

Definition governorate_data : list (list (string * cell)) :=
  [ [("list_name", CStr "governorate"); ("name", CStr "baghdad");
     ("label::English", CStr "Baghdad"); ("label::Arabic", CStr "بغداد")];
    [("list_name", CStr "governorate"); ("name", CStr "basra");
     ("label::English", CStr "Basra"); ("label::Arabic", CStr "البصرة")];
    [("list_name", CStr "governorate"); ("name", CStr "erbil");
     ("label::English", CStr "Erbil"); ("label::Arabic", CStr "أربيل")] ].

Definition district_data : list (list (string * cell)) :=
  [ [("list_name", CStr "district"); ("name", CStr "district1");
     ("label::English", CStr "District 1"); ("label::Arabic", CStr "المنطقة 1");
     ("governorate", CStr "baghdad")];
    [("list_name", CStr "district"); ("name", CStr "district2");
     ("label::English", CStr "District 2"); ("label::Arabic", CStr "المنطقة 2");
     ("governorate", CStr "baghdad")];
    [("list_name", CStr "district"); ("name", CStr "district3");
     ("label::English", CStr "District 3"); ("label::Arabic", CStr "المنطقة 3");
     ("governorate", CStr "basra")] ].

Definition subdistrict_data : list (list (string * cell)) :=
  [ [("list_name", CStr "subdistrict"); ("name", CStr "subdistrict1");
     ("label::English", CStr "Subdistrict 1"); ("label::Arabic", CStr "الناحية 1");
     ("district", CStr "district1")];
    [("list_name", CStr "subdistrict"); ("name", CStr "subdistrict2");
     ("label::English", CStr "Subdistrict 2"); ("label::Arabic", CStr "الناحية 2");
     ("district", CStr "district1")];
    [("list_name", CStr "subdistrict"); ("name", CStr "subdistrict3");
     ("label::English", CStr "Subdistrict 3"); ("label::Arabic", CStr "الناحية 3");
     ("district", CStr "district2")] ].

Definition create_standard_location_choices : table :=
  let all_data := governorate_data ++ district_data ++ subdistrict_data in
  pd.DataFrame all_data.

Definition reserved_lists : list string :=
  ["governorate"; "district"; "subdistrict"].

(** [value in values] as [Series.isin] tests it. *)
Definition isin (values : list string) (v : cell) : bool :=
  match v with
  | CStr s => bool_decide (s ∈ values)
  | _ => false
  end.

Definition fix_cascading_selects (choices_df : option table) : result table :=
  match choices_df with
  | None => Ok create_standard_location_choices
  | Some choices_df =>
      if bool_decide (length (rows choices_df) = 0%nat) then
        Ok create_standard_location_choices
      else
        let standard_locations := create_standard_location_choices in
        if has_column choices_df "list_name" then
          let kept :=
            filter (λ ir, isin reserved_lists (at_col ir.2 "list_name") = false)
                   (rows choices_df) in
          Ok (pd.concat (Table (columns choices_df) kept) standard_locations)
        else Raise (KeyError "list_name")
  end.

(** ** Settings *)

(** [df[col].iloc[0]] of a frame with at least one row. *)
Definition iloc0 (col : string) (df : table) : cell :=
  match rows df with
  | ir :: _ => at_col ir.2 col
  | [] => CNaN
  end.

Definition fix_settings_sheet (settings_df : option table) (form_name : string)
  : table :=
  match settings_df with
  | Some df =>
      if bool_decide (length (rows df) = 0%nat) then
        pd.DataFrame [[("form_title", CStr form_name);
                    ("form_id", CStr (normalize_name (CStr form_name)));
                    ("default_language", CStr "English")]]
      else
        let df :=
          if negb (has_column df "form_title") || is_empty (iloc0 "form_title" df)
          then set_column "form_title" (CStr form_name) df else df in
        let df :=
          if negb (has_column df "form_id") || is_empty (iloc0 "form_id" df)
          then set_column "form_id" (CStr (normalize_name (CStr form_name))) df
          else df in
        set_column "default_language" (CStr "English") df
  | None =>
      pd.DataFrame [[("form_title", CStr form_name);
                  ("form_id", CStr (normalize_name (CStr form_name)));
                  ("default_language", CStr "English")]]
  end.

(** ** Redundant columns *)

(** A column in which every cell is missing. *)
Definition all_na (df : table) (col : string) : bool :=
  forallb (λ ir, pd.isna (at_col ir.2 col)) (rows df).

(** [df.dropna(axis=1, how='all')] *)
Definition dropna_columns (df : table) : table :=
  drop_columns (filter (λ col, all_na df col = true) (columns df)) df.

Definition unused_columns : list string :=
  ["style"; "readonly"; "publishable"; "autoplay"].

Definition remove_redundant_columns (df : table) : table :=
  let df := dropna_columns df in
  drop_columns (filter (λ col, has_column df col = true) unused_columns) df.

(** Python's [str.isspace] read on the characters of a text: the text is a
    sequence of whitespace characters.  ([str.isspace] also asks that
    the text is not empty.) *)
Inductive all_whitespace : list ascii → Prop :=
| all_whitespace_nil : all_whitespace []
| all_whitespace_cons w l :
    w ∈ Py.whitespace → all_whitespace l → all_whitespace (w ++ l).

(** ** Normalized names *)

(** A text of characters in [a-z0-9_] only: lowercase, with no space. *)
Definition name_text (s : string) : Prop :=
  Forall (λ c, Py.name_char c = true) (list_ascii_of_string s).

(** A name cell as the Field Name Normalizer should leave it: blank, or a
    text of characters in [a-z0-9_]. *)
Definition normalized_cell (c : cell) : Prop :=
  is_empty c = true ∨ ∃ s, c = CStr s ∧ name_text s.

(** ** Frames as pandas builds them *)

(** Every row of a DataFrame has a cell in each column of the frame, and in
    no other. *)
Definition well_formed (df : table) : Prop :=
  Forall (λ ir : Z * row, dom ir.2 = list_to_set (columns df)) (rows df).

(** ** Sample tables *)

(** A survey with the one column [col] holding the given cells. *)
Definition one_column (col : string) (cells : list cell) : table :=
  Table [col] (imap (λ i v, (Z.of_nat i, {[col := v]})) cells).

(** A choices sheet that names its list column [list name], as XLSForm
    also allows. *)
Definition choices_without_list_name : table :=
  Table ["list name"; "name"; "label"]
        [(0, {["list name" := CStr "yesno"; "name" := CStr "yes";
               "label" := CStr "Yes"]})].

(** A survey whose [appearance] column holds empty texts only. *)
Definition survey_with_blank_text_column : table :=
  Table ["type"; "name"; "appearance"]
        [(0, {["type" := CStr "text"; "name" := CStr "q1";
               "appearance" := CStr ""]});
         (1, {["type" := CStr "integer"; "name" := CStr "q2";
               "appearance" := CStr ""]})].

(** A survey with a plain [label] column. *)
Definition survey_with_plain_label : table :=
  Table ["type"; "name"; "label"]
        [(0, {["type" := CStr "text"; "name" := CStr "q1";
               "label" := CStr "Question 1"]})].

(** ** The vocabulary of types, as the design document words it *)

(** A text is in the allowed vocabulary when it is one of [standard_types]
    exactly, or starts with [select_one ] or [select_multiple ]. *)
Definition in_vocabulary (s : string) : bool :=
  bool_decide (s ∈ standard_types)
  || Py.startswith s "select_one "
  || Py.startswith s "select_multiple ".

(** ** The fallback templates, as the design document lists them *)

(** The four standardized columns, each with the text put before the field
    name in its fallback. *)
Definition fallback_templates : list (string * string) :=
  [("label::English", "Input for "); ("label::Arabic", "إدخال لـ ");
   ("hint::English", "Hint for "); ("hint::Arabic", "تلميح لـ ")].

(** What the Label/Hint Fallback Generator owes a row [ir], of its result
    [ir']: a row with a blank name is left as it is; in a row with a name,
    each of the four columns is not blank, holding its former cell when that
    was not blank and the template with the name otherwise, and the cells of
    all other columns are the former ones. *)
Definition fallbacks_applied (ir ir' : Z * row) : Prop :=
  ir'.1 = ir.1 ∧
  if is_empty (at_col ir.2 "name") then ir'.2 = ir.2
  else
    Forall (λ t : string * string,
              is_empty (at_col ir'.2 t.1) = false
              ∧ at_col ir'.2 t.1
                = if is_empty (at_col ir.2 t.1)
                  then CStr (t.2 +:+ str (at_col ir.2 "name"))
                  else at_col ir.2 t.1)
           fallback_templates
    ∧ ∀ col, col ∉ canonical_columns → ir'.2 !! col = ir.2 !! col.

(** A survey with the four standardized columns: a field with no label and
    no hint, a field that has its English label, and a row with no name. *)
Definition survey_with_language_columns : table :=
  Table ["type"; "name"; "label::English"; "label::Arabic";
         "hint::English"; "hint::Arabic"]
        [(0, {["type" := CStr "integer"; "name" := CStr "age";
               "label::English" := CStr ""; "label::Arabic" := CStr "";
               "hint::English" := CNaN; "hint::Arabic" := CNaN]});
         (1, {["type" := CStr "text"; "name" := CStr "town";
               "label::English" := CStr "Town"; "label::Arabic" := CStr "";
               "hint::English" := CNaN; "hint::Arabic" := CNaN]});
         (2, {["type" := CStr "end group"; "name" := CNaN;
               "label::English" := CStr ""; "label::Arabic" := CStr "";
               "hint::English" := CNaN; "hint::Arabic" := CNaN]})].

(** ** The loop of the Language Column Normalizer, row by row *)

(** The standardized column into which the loop body merges [col]: the
    conditions of its [if]/[elif] chain, in order. *)
Definition target_of (col : string) : option string :=
  if bool_decide (col ∈ label_english_patterns)
     && negb (String.eqb col "label::English")
  then Some "label::English"
  else if bool_decide (col ∈ label_arabic_patterns)
          && negb (String.eqb col "label::Arabic")
  then Some "label::Arabic"
  else if bool_decide (col ∈ hint_english_patterns)
          && negb (String.eqb col "hint::English")
  then Some "hint::English"
  else if bool_decide (col ∈ hint_arabic_patterns)
          && negb (String.eqb col "hint::Arabic")
  then Some "hint::Arabic"
  else None.

(** What one turn of the loop does to a row. *)
Definition map_row (r : row) (col : string) : row :=
  match target_of col with
  | Some target => <[target := merged_cell target col r]> r
  | None => r
  end.

(** ** The reserved choice lists *)

(** The row belongs to one of the three reserved lists. *)
Definition reserved (r : row) : bool :=
  isin reserved_lists (at_col r "list_name").

(** The rows of the list [name]. *)
Definition list_rows (name : string) (df : table) : list row :=
  filter (λ r, at_col r "list_name" = CStr name) (rows df).*2.

(** What the Cascading Select Fixer owes its input [df], of its result
    [out]: the rows of the reserved lists are the rows of the seed, and the
    other rows are those of [df], in order.  Both are completed with NaN in
    the columns that only the other part has, as [pd.concat] does. *)
Definition cascading_fixed (df out : table) : Prop :=
  filter (λ r, reserved r = true) (rows out).*2
  = pd.pad (columns out) <$> (rows create_standard_location_choices).*2
  ∧ filter (λ r, reserved r = false) (rows out).*2
    = pd.pad (columns out) <$> filter (λ r, reserved r = false) (rows df).*2.

(** ** The seed, row by row *)

(** The columns of the seed: the keys of its dictionaries, in the order in
    which they are first met. *)
Definition seed_columns : list string :=
  ["list_name"; "name"; "label::English"; "label::Arabic";
   "governorate"; "district"].

(** The nine rows of the seed, cell by cell in these columns: three
    governorates, three districts with their governorate, three
    subdistricts with their district.  A row has no value in a column for
    which its dictionary has no key. *)
Definition standard_location_cells : list (list cell) :=
  [ [CStr "governorate"; CStr "baghdad"; CStr "Baghdad"; CStr "بغداد";
      CNaN; CNaN];
    [CStr "governorate"; CStr "basra"; CStr "Basra"; CStr "البصرة";
      CNaN; CNaN];
    [CStr "governorate"; CStr "erbil"; CStr "Erbil"; CStr "أربيل";
      CNaN; CNaN];
    [CStr "district"; CStr "district1"; CStr "District 1"; CStr "المنطقة 1";
      CStr "baghdad"; CNaN];
    [CStr "district"; CStr "district2"; CStr "District 2"; CStr "المنطقة 2";
      CStr "baghdad"; CNaN];
    [CStr "district"; CStr "district3"; CStr "District 3"; CStr "المنطقة 3";
      CStr "basra"; CNaN];
    [CStr "subdistrict"; CStr "subdistrict1"; CStr "Subdistrict 1";
      CStr "الناحية 1"; CNaN; CStr "district1"];
    [CStr "subdistrict"; CStr "subdistrict2"; CStr "Subdistrict 2";
      CStr "الناحية 2"; CNaN; CStr "district1"];
    [CStr "subdistrict"; CStr "subdistrict3"; CStr "Subdistrict 3";
      CStr "الناحية 3"; CNaN; CStr "district2"] ].

(** The rows of the three reserved lists of [out] are the nine rows of the
    seed, in order and cell by cell. *)
Definition seed_set (out : table) : Prop :=
  (λ r, at_col r <$> seed_columns)
    <$> filter (λ r, reserved r = true) (rows out).*2
  = standard_location_cells.

(** The three levels of [out]: three governorates, three districts each
    under a governorate of [out], three subdistricts each under a district
    of [out]. *)
Definition seed_hierarchy (out : table) : Prop :=
  let names := λ list, (λ r, at_col r "name") <$> list_rows list out in
  length (list_rows "governorate" out) = 3%nat
  ∧ length (list_rows "district" out) = 3%nat
  ∧ length (list_rows "subdistrict" out) = 3%nat
  ∧ Forall (λ r, at_col r "governorate" ∈ names "governorate")
           (list_rows "district" out)
  ∧ Forall (λ r, at_col r "district" ∈ names "district")
           (list_rows "subdistrict" out).

(** A choices sheet with a yes/no list and a governorate of its own. *)
Definition choices_with_governorate : table :=
  Table ["list_name"; "name"; "label"]
        [(0, {["list_name" := CStr "yesno"; "name" := CStr "yes";
               "label" := CStr "Yes"]});
         (1, {["list_name" := CStr "governorate"; "name" := CStr "mosul";
               "label" := CStr "Mosul"]});
         (2, {["list_name" := CStr "yesno"; "name" := CStr "no";
               "label" := CStr "No"]})].

(** ** Group and repeat markers of a survey *)

(** The row is typed [marker]: its type cell is not blank and reads
    [marker] once stripped, which is how the first pass reads it. *)
Definition typed (marker : string) (ir : Z * row) : bool :=
  negb (is_empty (get ir.2 "type"))
  && String.eqb (Py.strip (str (get ir.2 "type"))) marker.

(** The number of rows typed [marker]. *)
Definition count_typed (marker : string) (rs : list (Z * row)) : nat :=
  length (filter (λ ir, typed marker ir = true) rs).

(** Every closing marker finds an opening marker of its kind still open:
    in every initial part of the rows there are at most as many rows typed
    [closing] as rows typed [opening]. *)
Definition closes_after_opening (opening closing : string)
    (rs : list (Z * row)) : Prop :=
  ∀ n, (count_typed closing (take n rs) ≤ count_typed opening (take n rs))%nat.

(** The row labels of the frame go up, as they do in a sheet read by
    [pd.read_excel], also after its empty rows were dropped. *)
Definition increasing_index (df : table) : Prop :=
  StronglySorted Z.lt (index df).

(** What the Group/Repeat Balance Validator returns when it closes one
    repeat: the columns and the rows of [df] with one more row after them,
    which holds [end repeat] as its type and the empty text in every other
    column, under the row labels 0, 1, 2, ... *)
Definition end_repeat_appended (df out : table) : Prop :=
  columns out = columns df
  ∧ (rows out).*2 = (rows df).*2 ++ [closing_row (columns df) "end repeat"]
  ∧ length (rows out) = S (length (rows df))
  ∧ index out = Z.of_nat <$> seq 0 (S (length (rows df)))
  ∧ at_col (closing_row (columns df) "end repeat") "type" = CStr "end repeat"
  ∧ ∀ col, col ∈ columns df → col ≠ "type" →
           closing_row (columns df) "end repeat" !! col = Some (CStr "").

(** A survey of markers only, with the labels 0, 1, 2, ... *)
Definition survey_of_types (types : list string) : table :=
  Table ["type"; "name"]
        (imap (λ i t, (Z.of_nat i, {["type" := CStr t; "name" := CNaN]})) types).

(** Two repeats opened after the only [end repeat]. *)
Definition survey_closing_first : table :=
  survey_of_types ["end repeat"; "begin repeat"; "begin repeat";
                   "begin group"; "end group"].

(** A repeat left open inside a closed repeat and a closed group. *)
Definition survey_one_repeat_open : table :=
  survey_of_types ["begin group"; "begin repeat"; "begin repeat";
                   "end repeat"; "end group"].

(** The row holds a cell for [target], and that cell is blank only if the
    cell of the alias [col] is blank too: nothing is left to merge. *)
Definition merged (target col : string) (r : row) : Prop :=
  ∃ v, r !! target = Some v
       ∧ (is_empty v = true → is_empty (at_col r col) = true).

(** ** The Settings Fixer on a sheet that has a row *)

(** [if col not in df.columns or is_empty(df[col].iloc[0]): df[col] = v] *)
Definition ensure_field (col : string) (v : cell) (df : table) : table :=
  if negb (has_column df col) || is_empty (iloc0 col df)
  then set_column col v df
  else df.

(** The second branch of [fix_settings_sheet]. *)
Definition fix_settings_rows (form_name : string) (df : table) : table :=
  set_column "default_language" (CStr "English")
    (ensure_field "form_id" (CStr (normalize_name (CStr form_name)))
       (ensure_field "form_title" (CStr form_name) df)).

(** ** Navigation between the steps *)

Definition STEPS : list string :=
  ["Upload File"; "Load Core Sheets"; "Normalize Language Columns";
   "Fix Field Types"; "Apply Label Fallbacks"; "Clean Calculation Fields";
   "Remove Invalid Defaults"; "Normalize Field Names";
   "Validate Group & Repeat Logic"; "Fix Cascading Selects";
   "Check Settings Sheet"; "Remove Redundant Columns"; "Export File"].

(** The navigation functions, on [st.session_state.current_step]. *)
Definition go_next (current_step : Z) : Z :=
  if bool_decide (current_step < Z.of_nat (length STEPS) - 1)
  then current_step + 1
  else current_step.

Definition go_back (current_step : Z) : Z :=
  if bool_decide (current_step > 0) then current_step - 1 else current_step.

(** The buttons that move between steps: [Next] and [Back] call [go_next]
    and [go_back], [Start Over] sets the step to 0. *)
Inductive button : Type := Next | Back | StartOver.

Definition press (current_step : Z) (b : button) : Z :=
  match b with
  | Next => go_next current_step
  | Back => go_back current_step
  | StartOver => 0
  end.

(** [main]: the step function that the current step shows, if any. *)
Definition main (current_step : Z) : option string :=
  if bool_decide (current_step = 0) then Some "step_upload_file"
  else if bool_decide (current_step = 1) then Some "step_load_core_sheets"
  else if bool_decide (current_step = 2) then Some "step_normalize_language_columns"
  else if bool_decide (current_step = 3) then Some "step_fix_field_types"
  else if bool_decide (current_step = 4) then Some "step_apply_label_fallbacks"
  else if bool_decide (current_step = 5) then Some "step_clean_calculation_fields"
  else if bool_decide (current_step = 6) then Some "step_remove_invalid_defaults"
  else if bool_decide (current_step = 7) then Some "step_normalize_field_names"
  else if bool_decide (current_step = 8) then Some "step_validate_group_repeat_logic"
  else if bool_decide (current_step = 9) then Some "step_fix_cascading_selects"
  else if bool_decide (current_step = 10) then Some "step_check_settings_sheet"
  else if bool_decide (current_step = 11) then Some "step_remove_redundant_columns"
  else if bool_decide (current_step = 12) then Some "step_export_file"
  else None.

(** ** The names of the Field Name Normalizer in closed form *)

(** The number of cells of [names] that are not blank and normalize to
    [base]. *)
Definition occurrences (base : string) (names : list cell) : nat :=
  length (filter (λ n, is_empty n = false ∧ normalize_name n = base) names).

(** The name written for a cell that comes after the cells [earlier]. *)
Definition unique_name (earlier : list cell) (name : cell) : cell :=
  if is_empty name then name
  else
    let base := normalize_name name in
    match occurrences base earlier with
    | O => CStr base
    | S k => CStr (base +:+ "_" +:+ pretty (Z.of_nat (S k)))
    end.

(** ** The types the Field Type Fixer keeps *)

(** A type text, stripped, that passes the tests of the Field Type Fixer:
    a standard type, a [select_multiple] with a list, or a [select_one] with
    a list that is none of the three SurveyCTO location lists. *)
Definition kept_type (t : string) : Prop :=
  t ∈ standard_types
  ∨ Py.startswith t "select_multiple " = true
  ∨ (Py.startswith t "select_one " = true
     ∧ Py.contains "sGovernorate" t = false
     ∧ Py.contains "sDistrict" t = false
     ∧ Py.contains "sSubdistrict" t = false).

(** The type cell of the row is blank or holds a kept type. *)
Definition kept_row (r : row) : Prop :=
  is_empty (at_col r "type") = true
  ∨ kept_type (Py.strip (str (at_col r "type"))).

(** A survey of types that the Field Type Fixer keeps. *)
Definition survey_with_kept_types : table :=
  Table ["type"; "name"]
        [(0, {["type" := CStr "begin group"; "name" := CStr "g"]});
         (1, {["type" := CStr " select_one yesno"; "name" := CStr "q1"]});
         (2, {["type" := CStr "select_multiple sDistrict "; "name" := CStr "q2"]});
         (3, {["type" := CNaN; "name" := CStr "q3"]});
         (4, {["type" := CStr "end group"; "name" := CNaN]})].

(** ** Sample surveys for the two cleaners *)

(** A survey with an invalid calculation, an invalid relevance condition
    and a sound calculation. *)
Definition survey_with_expressions : table :=
  Table ["type"; "name"; "calculation"; "relevant"; "default"]
        [(0, {["type" := CStr "calculate"; "name" := CStr "c1";
               "calculation" := CStr "pulldata('hh', 'size', 'id', ${id})";
               "relevant" := CNaN; "default" := CNaN]});
         (1, {["type" := CStr "integer"; "name" := CStr "q1";
               "calculation" := CNaN; "relevant" := CStr "${c1} > 0";
               "default" := CStr "${c1}"]});
         (2, {["type" := CStr "calculate"; "name" := CStr "c2";
               "calculation" := CStr "1 + 1"; "relevant" := CNaN;
               "default" := CInt 3]})].

(** ** A settings sheet with a title *)

Definition settings_with_title : table :=
  Table ["form_title"; "version"]
        [(0, {["form_title" := CStr "Household Survey";
               "version" := CInt 3]})].

(** ** Markers left open *)

(** The markers of one kind that are open after the rows [rs], when [d] of
    them were open before: an opening marker opens one more, a closing
    marker closes one if one is open. *)
Definition open_from (opening closing : string) (d : nat)
    (rs : list (Z * row)) : nat :=
  foldl (λ d ir, if typed opening ir then S d
                 else if typed closing ir then pred d
                 else d) d rs.

Definition open_after (opening closing : string) (rs : list (Z * row)) : nat :=
  open_from opening closing 0 rs.

(** What the Group/Repeat Balance Validator returns: the columns and the
    rows of [df], then one [end repeat] row for every repeat left open, then
    one [end group] row for every group left open, under the row labels
    0, 1, 2, ... *)
Definition closings_appended (df out : table) : Prop :=
  columns out = columns df
  ∧ (rows out).*2
    = (rows df).*2
      ++ replicate (open_after "begin repeat" "end repeat" (rows df))
                   (closing_row (columns df) "end repeat")
      ++ replicate (open_after "begin group" "end group" (rows df))
                   (closing_row (columns df) "end group")
  ∧ index out = Z.of_nat <$> seq 0 (length (rows out)).

(** A group left open inside a repeat left open. *)
Definition survey_nested_open : table :=
  survey_of_types ["begin repeat"; "begin group"; "text"].

(** ** The conversion of the survey sheet *)

(** What the steps from [step_normalize_language_columns] to
    [step_remove_redundant_columns] make of the survey sheet, each step
    handing its result to the next, when no edited sheet is uploaded on the
    way. *)
Definition final_survey_df (survey_df : table) : result table :=
  let normalized_survey_df := normalize_language_columns survey_df in
  let fixed_survey_df := fix_field_types normalized_survey_df in
  let fallback_survey_df := apply_fallbacks fixed_survey_df in
  let calculation_survey_df := clean_calculation_fields fallback_survey_df in
  let defaults_survey_df := clean_default_values calculation_survey_df in
  match ensure_unique_names defaults_survey_df "name" with
  | Ok names_survey_df =>
      let groups_survey_df := validate_group_repeat_logic names_survey_df in
      Ok (remove_redundant_columns groups_survey_df)
  | Raise e => Raise e
  end.

(** The type of the row is blank or, once stripped, in the vocabulary. *)
Definition type_converted (r : row) : Prop :=
  is_empty (at_col r "type") = true
  ∨ in_vocabulary (Py.strip (str (at_col r "type"))) = true.

(** A row with a name has a label and a hint in both languages. *)
Definition labels_filled (r : row) : Prop :=
  is_empty (at_col r "name") = false →
  Forall (λ col, is_empty (at_col r col) = false) canonical_columns.

(** A row of a converted survey. *)
Definition converted_row (r : row) : Prop :=
  type_converted r ∧ normalized_cell (at_col r "name") ∧ labels_filled r.

(** ** The sheets prepared for the editor *)

(** [df.fillna(value)] *)
Definition fillna (value : cell) (df : table) : table :=
  Table (columns df)
        (prod_map id (λ r : row, (λ c, if pd.isna c then value else c) <$> r)
           <$> rows df).

(** [df[col] = df[col].astype(str)] *)
Definition astype_str (df : table) (col : string) : table :=
  assign col (λ r, CStr (str (at_col r col))) df.

(** The function [safe_df_for_editor] of [step_load_core_sheets]. *)
Definition safe_df_for_editor (df : option table) : option table :=
  match df with
  | None => None
  | Some df =>
      let df := fillna (CStr "") df in
      Some (foldl astype_str df (columns df))
  end.

(** The text that stands for a cell in the editor: the empty text for a
    missing value, and [str] of the value otherwise. *)
Definition editor_text (c : cell) : cell :=
  CStr (if pd.isna c then "" else str c).

(** A survey with missing cells, a number and an unused column. *)
Definition survey_with_missing_cells : table :=
  Table ["type"; "name"; "appearance"; "readonly"]
        [(0, {["type" := CStr "integer"; "name" := CStr "age";
               "appearance" := CNaN; "readonly" := CNaN]});
         (1, {["type" := CStr "text"; "name" := CInt 7;
               "appearance" := CNaN; "readonly" := CStr "yes"]})].

(** ** The cells of the standardized columns *)

(** The cell of the row in the standardized column [target] when the loop
    of the Language Column Normalizer starts: its own cell when the sheet has
    the column, the empty text of the new column otherwise. *)
Definition initial_cell (df : table) (target : string) (r : row) : cell :=
  if has_column df target then at_col r target else CStr "".

(** The cells of the row in the columns that are merged into [target], in
    the order of the columns. *)
Definition alias_cells (target : string) (cols : list string) (r : row)
  : list cell :=
  at_col r <$> filter (λ col, target_of col = Some target) cols.

(** The first cell that is not blank. *)
Definition first_filled (cells : list cell) : option cell :=
  head (filter (λ c, is_empty c = false) cells).

(** The cell of the standardized column after the merge: the cell the row
    had if that is not blank, and else the first cell among the aliases that
    is not blank, if there is one. *)
Definition standardized_cell (df : table) (target : string) (r : row) : cell :=
  let own := initial_cell df target r in
  if is_empty own
  then default own (first_filled (alias_cells target (columns df) r))
  else own.

(** The row after the four [if target not in df.columns] blocks. *)
Definition created_row (df : table) (r : row) : row :=
  foldl (λ r target, if has_column df target then r
                     else <[target := CStr ""]> r)
        r canonical_columns.

(** A survey with two aliases of the English label. *)
Definition survey_with_two_aliases : table :=
  Table ["name"; "label:English"; "label"; "label::English"]
        [(0, {["name" := CStr "q1"; "label:English" := CStr "first";
               "label" := CStr "second"; "label::English" := CNaN]});
         (1, {["name" := CStr "q2"; "label:English" := CStr "";
               "label" := CStr "second"; "label::English" := CNaN]});
         (2, {["name" := CStr "q3"; "label:English" := CStr "first";
               "label" := CStr "second"; "label::English" := CStr "own"]})].

(** ** The conversion of the choices sheet *)

(** What [step_normalize_language_columns], [step_fix_cascading_selects]
    and [step_remove_redundant_columns] make of the choices sheet, when no
    edited sheet is uploaded on the way. *)
Definition final_choices_df (choices_df : table) : result table :=
  let normalized_choices_df := normalize_language_columns choices_df in
  match fix_cascading_selects (Some normalized_choices_df) with
  | Ok cascading_choices_df => Ok (remove_redundant_columns cascading_choices_df)
  | Raise e => Raise e
  end.

(** * Properties *)

(** ** Stripping *)

Section lstrip.

Variable chars : list (list ascii).

Lemma drop_prefix_Some w l l' : Py.drop_prefix w l = Some l' ↔ l = w ++ l'.
Proof.
  revert l. induction w as [|a w IH]; intros l; simpl.
  - split; [by intros [= ->] | by intros ->].
  - destruct l as [|b l]; [done|].
    destruct (Ascii.eqb_spec a b) as [->|Hne].
    + rewrite IH. split; [by intros -> | by intros [= ->]].
    + split; [done | intros [= -> _]; done].
Qed.

Lemma drop_one_Some l l' :
  Py.drop_one chars l = Some l' → ∃ w, w ∈ chars ∧ l = w ++ l'.
Proof.
  induction chars as [|w ws IH]; simpl; [done|].
  destruct (Py.drop_prefix w l) as [l0|] eqn:E.
  - intros [= <-]. exists w. split; [left | by apply drop_prefix_Some].
  - intros H. destruct (IH H) as (w' & ? & ?). exists w'. split; [by right | done].
Qed.

Lemma drop_one_None l w :
  Py.drop_one chars l = None → w ∈ chars → Py.drop_prefix w l = None.
Proof.
  induction chars as [|w0 ws IH]; simpl; [by intros _ ?%elem_of_nil|].
  destruct (Py.drop_prefix w0 l) eqn:E; [done|].
  intros H [->|Hin]%elem_of_cons; [done | by apply IH].
Qed.

Lemma lstrip_n_suffix n l : ∃ pre, l = pre ++ Py.lstrip_n chars n l.
Proof.
  revert l. induction n as [|n IH]; intros l; simpl; [by exists []|].
  destruct (Py.drop_one chars l) as [l'|] eqn:E; [|by exists []].
  apply drop_one_Some in E as (w & _ & ->).
  destruct (IH l') as [pre Hpre]. exists (w ++ pre).
  by rewrite <- app_assoc, <- Hpre.
Qed.

Lemma lstrip_n_fixed n l :
  Py.drop_one chars l = None → Py.lstrip_n chars n l = l.
Proof. intros H. destruct n; simpl; [done | by rewrite H]. Qed.

(** No character of the set is the empty text. *)
Hypothesis chars_nonempty : Forall (λ w, w ≠ []) chars.

Lemma drop_one_nil : Py.drop_one chars [] = None.
Proof.
  pose proof chars_nonempty as H. revert H. generalize chars.
  induction 1 as [|w ws Hw _ IH]; simpl; [done|].
  by destruct w.
Qed.

(** With one step for each character of the text, nothing is left to strip. *)
Lemma lstrip_n_done n l :
  (length l ≤ n)%nat → Py.drop_one chars (Py.lstrip_n chars n l) = None.
Proof.
  revert l. induction n as [|n IH]; intros l Hlen; simpl.
  - destruct l; [by apply drop_one_nil | simpl in Hlen; lia].
  - destruct (Py.drop_one chars l) as [l'|] eqn:E; [|done].
    apply IH. apply drop_one_Some in E as (w & Hw & ->).
    pose proof chars_nonempty as Hne.
    rewrite Forall_forall in Hne. specialize (Hne w Hw).
    rewrite length_app in Hlen. destruct w; [done | simpl in Hlen; lia].
Qed.

End lstrip.

Lemma whitespace_nonempty : Forall (λ w, w ≠ []) Py.whitespace.
Proof. unfold Py.whitespace. repeat constructor; done. Qed.

Lemma whitespace_reverse_nonempty :
  Forall (λ w, w ≠ []) (reverse <$> Py.whitespace).
Proof. unfold Py.whitespace. repeat constructor; done. Qed.

Lemma lstrip_rstrip_fixed l :
  let y := Py.rstrip (Py.lstrip l) in Py.lstrip y = y ∧ Py.rstrip y = y.
Proof.
  set (x := Py.lstrip l). unfold Py.rstrip.
  set (z := Py.lstrip_n (reverse <$> Py.whitespace) (length x) (reverse x)).
  assert (Hx : Py.drop_one Py.whitespace x = None)
    by (apply lstrip_n_done; [apply whitespace_nonempty | done]).
  assert (Hz : Py.drop_one (reverse <$> Py.whitespace) z = None).
  { apply lstrip_n_done; [apply whitespace_reverse_nonempty|].
    by rewrite length_reverse. }
  destruct (lstrip_n_suffix (reverse <$> Py.whitespace) (length x) (reverse x))
    as [pre Hpre]. fold z in Hpre.
  assert (Hxy : x = reverse z ++ reverse pre).
  { rewrite <- reverse_app, <- Hpre. by rewrite reverse_involutive. }
  simpl. split.
  - unfold Py.lstrip. apply lstrip_n_fixed.
    destruct (Py.drop_one Py.whitespace (reverse z)) as [y'|] eqn:E; [|done].
    apply drop_one_Some in E as (w & Hw & Hy).
    assert (Py.drop_prefix w x = Some (y' ++ reverse pre)) as Hp.
    { apply drop_prefix_Some. rewrite Hxy, Hy. by rewrite app_assoc. }
    by rewrite (drop_one_None _ _ _ Hx Hw) in Hp.
  - rewrite reverse_involutive. by rewrite lstrip_n_fixed.
Qed.

Lemma strip_idemp s : Py.strip (Py.strip s) = Py.strip s.
Proof.
  unfold Py.strip. rewrite list_ascii_of_string_of_list_ascii.
  destruct (lstrip_rstrip_fixed (list_ascii_of_string s)) as [-> ->]. done.
Qed.

Lemma drop_one_whitespace w l :
  w ∈ Py.whitespace → Py.drop_one Py.whitespace (w ++ l) = Some l.
Proof.
  unfold Py.whitespace. intros H.
  repeat (apply elem_of_cons in H as [->|H]; [reflexivity|]).
  by apply elem_of_nil in H.
Qed.

Lemma lstrip_n_all_whitespace l n :
  all_whitespace l → (length l ≤ n)%nat → Py.lstrip_n Py.whitespace n l = [].
Proof.
  intros H. revert n. induction H as [|w l Hw _ IH]; intros n Hn.
  - by destruct n.
  - assert (w ≠ []) as Hne.
    { pose proof whitespace_nonempty as Hall. rewrite Forall_forall in Hall. auto. }
    rewrite length_app in Hn.
    destruct n as [|n]; [destruct w; [done | simpl in Hn; lia]|].
    cbn [Py.lstrip_n]. rewrite drop_one_whitespace by done. apply IH.
    destruct w; [done | simpl in Hn; lia].
Qed.

Lemma strip_all_whitespace s :
  all_whitespace (list_ascii_of_string s) → Py.strip s = "".
Proof.
  intros H. unfold Py.strip, Py.lstrip.
  by rewrite lstrip_n_all_whitespace.
Qed.

(** ** Cells of a row *)

Lemma at_col_insert (r : row) col v : at_col (<[col := v]> r) col = v.
Proof. unfold at_col. by rewrite lookup_insert_eq. Qed.

Lemma at_col_insert_ne (r : row) col col' v :
  col ≠ col' → at_col (<[col := v]> r) col' = at_col r col'.
Proof. intros. unfold at_col. by rewrite lookup_insert_ne. Qed.

Lemma at_col_Some (r : row) col v : r !! col = Some v → at_col r col = v.
Proof. intros H. unfold at_col. by rewrite H. Qed.

Lemma get_insert (r : row) col v : get (<[col := v]> r) col = v.
Proof. unfold get. by rewrite lookup_insert_eq. Qed.

Lemma get_insert_ne (r : row) col col' v :
  col ≠ col' → get (<[col := v]> r) col' = get r col'.
Proof. intros. unfold get. by rewrite lookup_insert_ne. Qed.

Lemma has_column_true df col : col ∈ columns df → has_column df col = true.
Proof. intros. unfold has_column. by apply bool_decide_eq_true. Qed.

Lemma rows_iterrows body df :
  rows (iterrows body df) = prod_map id body <$> rows df.
Proof. done. Qed.

(** ** Columns and rows of the frame operations *)

Lemma add_column_elem cols col : col ∈ cols → add_column cols col = cols.
Proof. intros. unfold add_column. by rewrite bool_decide_eq_true_2. Qed.

Lemma elem_of_add_column cols col c :
  c ∈ add_column cols col ↔ c ∈ cols ∨ c = col.
Proof.
  unfold add_column. case_bool_decide.
  - split; [by left | intros [?| ->]; done].
  - rewrite elem_of_app, list_elem_of_singleton. done.
Qed.

Lemma filter_all_true {A} (P : A → Prop) `{∀ x, Decision (P x)} (l : list A) :
  Forall P l → filter P l = l.
Proof.
  induction 1 as [|x l Hx _ IH]; [done|].
  by rewrite filter_cons_True, IH.
Qed.

Lemma filter_all_false {A} (P : A → Prop) `{∀ x, Decision (P x)} (l : list A) :
  Forall (λ x, ¬ P x) l → filter P l = [].
Proof.
  induction 1 as [|x l Hx _ IH]; [done|].
  by rewrite filter_cons_False, IH.
Qed.

Lemma prod_map_id_fmap {A} (l : list (Z * A)) (f : A → A) :
  (∀ ir, ir ∈ l → f ir.2 = ir.2) → prod_map id f <$> l = l.
Proof.
  intros H. induction l as [|[i r] l IH]; [done|].
  cbn. rewrite IH.
  - f_equal. unfold prod_map. cbn. f_equal. apply (H (i, r)). left.
  - intros ir Hin. apply H. by right.
Qed.

Lemma snd_prod_map_fmap {A} (f : A → A) (l : list (Z * A)) :
  (prod_map id f <$> l).*2 = f <$> l.*2.
Proof. rewrite <- !list_fmap_compose. apply list_fmap_ext. by intros _ [i r] _. Qed.

Lemma fst_prod_map_fmap {A} (f : A → A) (l : list (Z * A)) :
  (prod_map id f <$> l).*1 = l.*1.
Proof. rewrite <- !list_fmap_compose. apply list_fmap_ext. by intros _ [i r] _. Qed.

Lemma drop_columns_nil df : drop_columns [] df = df.
Proof.
  destruct df as [cols rs]. unfold drop_columns. cbn. f_equal.
  - apply filter_all_true, Forall_true. intros c. apply not_elem_of_nil.
  - by apply prod_map_id_fmap.
Qed.

Lemma lookup_foldr_delete (r : row) cols col :
  col ∉ cols → foldr delete r cols !! col = r !! col.
Proof.
  induction cols as [|c cols IH]; [done|].
  intros [Hne Hnotin]%not_elem_of_cons. cbn.
  rewrite lookup_delete_ne by done. by apply IH.
Qed.

Lemma at_col_foldr_delete (r : row) cols col :
  col ∉ cols → at_col (foldr delete r cols) col = at_col r col.
Proof. intros. unfold at_col. by rewrite lookup_foldr_delete. Qed.


(** ** Field Name Normalizer *)

(** The example of the design document: [Age], [Age], [age!]. *)
Lemma unique_names_example :
  unique_names [CStr "Age"; CStr "Age"; CStr "age!"]
  = [CStr "age"; CStr "age_1"; CStr "age_2"].
Proof. vm_compute. reflexivity. Qed.

(** The characters of the names that the Field Name Normalizer writes: every
    name of the output that is not blank is a text of characters in
    [a-z0-9_], whatever the input. *)

Lemma name_text_app s1 s2 : name_text s1 → name_text s2 → name_text (s1 +:+ s2).
Proof.
  unfold name_text. intros H1 H2. induction s1 as [|c s1 IH]; [done|].
  cbn in *. apply Forall_cons in H1 as [? ?].
  apply Forall_cons. split; [done | by apply IH].
Qed.

Lemma name_text_keep s : name_text (Py.keep_name_chars s).
Proof.
  unfold name_text. induction s as [|c s IH]; cbn; [constructor|].
  destruct (Py.name_char c) eqn:E; [|done]. cbn. by constructor.
Qed.

Lemma name_text_normalize_name c : name_text (normalize_name c).
Proof.
  unfold normalize_name. destruct (is_empty c); [constructor|].
  apply name_text_keep.
Qed.

Lemma name_text_pretty_N_go x s : name_text s → name_text (pretty_N_go x s).
Proof.
  revert s. induction (N.lt_wf_0 x) as [x _ IH]. intros s Hs.
  destruct (decide (x = 0)%N) as [->|Hx]; [by rewrite pretty_N_go_0|].
  rewrite pretty_N_go_step by lia. apply IH.
  - apply N.div_lt; lia.
  - unfold name_text. cbn. apply Forall_cons. split; [|done].
    unfold pretty_N_char. by repeat case_match.
Qed.

Lemma name_text_pretty (n : Z) : 0 ≤ n → name_text (pretty n).
Proof.
  intros Hn. destruct n as [|p|p]; [by repeat constructor| |lia].
  unfold pretty, pretty_Z, pretty, pretty_positive, pretty, pretty_N.
  case_decide; [by repeat constructor|].
  apply name_text_pretty_N_go. constructor.
Qed.

Lemma unique_step_normalized names out name :
  map_Forall (λ _ c, 0 ≤ c) names → Forall normalized_cell out →
  map_Forall (λ _ c, 0 ≤ c) (unique_step (names, out) name).1
  ∧ Forall normalized_cell (unique_step (names, out) name).2.
Proof.
  intros Hnames Hout. unfold unique_step.
  destruct (is_empty name) eqn:He; cbn [fst snd].
  - split; [done|]. apply Forall_app. split; [done|].
    apply Forall_singleton. by left.
  - destruct (names !! normalize_name name) as [c|] eqn:Hc; cbn [fst snd].
    + pose proof (Hnames _ _ Hc) as Hpos. cbn beta in Hpos. split.
      * apply map_Forall_insert_2; [cbn beta; lia | done].
      * apply Forall_app. split; [done|]. apply Forall_singleton.
        right. eexists. split; [done|].
        apply name_text_app; [apply name_text_normalize_name|].
        apply (name_text_app "_"); [by repeat constructor|].
        apply name_text_pretty. lia.
    + split.
      * apply map_Forall_insert_2; [done | done].
      * apply Forall_app. split; [done|]. apply Forall_singleton.
        right. eexists. split; [done|]. apply name_text_normalize_name.
Qed.

Lemma unique_names_normalized names : Forall normalized_cell (unique_names names).
Proof.
  unfold unique_names.
  assert (∀ st, map_Forall (λ _ c, 0 ≤ c) st.1 → Forall normalized_cell st.2 →
                Forall normalized_cell (foldl unique_step st names).2) as H.
  { induction names as [|name names IH]; intros [ns out] H1 H2; [done|].
    cbn [foldl]. destruct (unique_step_normalized ns out name H1 H2).
    destruct (unique_step (ns, out) name) as [ns' out']. by apply IH. }
  apply H; [apply map_Forall_empty | constructor].
Qed.

(** C1, on the code: the names [a], [a], [a_1] come out as [a], [a_1],
    [a_1].  The suffixed name made for the second [a] is not recorded in
    the dictionary of used names, so the third name, which normalizes to
    that same text, is taken as new: no name of the output is blank, two of
    them are equal, and the names of the output are not pairwise distinct. *)
Theorem ensure_unique_names_duplicate :
  ∃ out,
    ensure_unique_names (one_column "name" [CStr "a"; CStr "a"; CStr "a_1"]) "name"
    = Ok out
    ∧ column_values "name" out = [CStr "a"; CStr "a_1"; CStr "a_1"]
    ∧ Forall (λ c, is_empty c = false) (column_values "name" out)
    ∧ ¬ NoDup (column_values "name" out).
Proof.
  eexists. split; [reflexivity|].
  assert (column_values "name"
            (set_values "name"
               (unique_names
                  (column_values "name"
                     (one_column "name" [CStr "a"; CStr "a"; CStr "a_1"])))
               (one_column "name" [CStr "a"; CStr "a"; CStr "a_1"]))
          = [CStr "a"; CStr "a_1"; CStr "a_1"]) as -> by (vm_compute; reflexivity).
  split; [done|]. split; [by repeat constructor|].
  intros H. apply NoDup_cons in H as [_ H]. apply NoDup_cons in H as [H _].
  apply H. left.
Qed.

(** ** Totality *)

(** C2, on the code: a choices sheet with a row and no [list_name] column
    makes the Cascading Select Fixer raise [KeyError]. *)
Theorem fix_cascading_selects_raises :
  fix_cascading_selects (Some choices_without_list_name)
  = Raise (KeyError "list_name").
Proof. reflexivity. Qed.

(** The Field Name Normalizer raises in the same way on a survey with no
    [name] column. *)
Lemma ensure_unique_names_raises :
  ensure_unique_names (one_column "type" [CStr "text"]) "name"
  = Raise (KeyError "name").
Proof. reflexivity. Qed.

(** ** Field Type Fixer *)

Lemma is_standard_type_stripped s :
  is_standard_type (CStr (Py.strip s)) = true → in_vocabulary (Py.strip s) = true.
Proof.
  unfold is_standard_type, in_vocabulary.
  destruct (is_empty _); [done|]. cbn [str]. rewrite strip_idemp.
  case_bool_decide; [done|]. cbn [orb].
  destruct (Py.startswith (Py.strip s) "select_one "); [done|].
  by destruct (Py.startswith (Py.strip s) "select_multiple ").
Qed.

Lemma fix_type_vocabulary df r :
  "type" ∈ columns df →
  let c := at_col (fix_type df r) "type" in
  is_empty c = true ∨ in_vocabulary (Py.strip (str c)) = true.
Proof.
  intros Hcol. unfold fix_type. rewrite (has_column_true _ _ Hcol). cbn [andb].
  destruct (is_empty (at_col r "type")) eqn:He; cbn [negb]; [by left|].
  right. set (tv := Py.strip (str (at_col r "type"))).
  case_bool_decide; [by rewrite at_col_insert|].
  destruct (Py.startswith tv "select_one ") eqn:Hsel.
  - repeat (match goal with |- context [if ?b then _ else _] => destruct b end;
            [by rewrite at_col_insert|]).
    fold tv. unfold in_vocabulary. rewrite Hsel. by rewrite orb_true_r.
  - destruct (is_standard_type (CStr tv)) eqn:Hstd; cbn [negb].
    + fold tv. by apply is_standard_type_stripped.
    + by rewrite at_col_insert.
Qed.

(** C5, the claim as stated fails: a type cell with a space before
    [integer] is left as it is, and that cell is neither blank, nor one of
    the standard types exactly, nor a text with one of the two prefixes. *)
Lemma fix_field_types_keeps_padded_type :
  fix_field_types (one_column "type" [CStr " integer"])
  = one_column "type" [CStr " integer"]
  ∧ is_empty (CStr " integer") = false
  ∧ in_vocabulary " integer" = false.
Proof. vm_compute. done. Qed.

(** C5, amended: in a survey with a type column, after the Field Type Fixer
    every type cell is blank, or its text with the surrounding whitespace
    stripped is in the allowed vocabulary (one of the standard types exactly,
    or a text starting with [select_one ] or [select_multiple ]).  A cell
    [deviceid] becomes [text], and a cell [select_one sGovernorateList]
    becomes [select_one governorate]. *)
Theorem fix_field_types_vocabulary df :
  "type" ∈ columns df →
  Forall (λ ir : Z * row,
            is_empty (at_col ir.2 "type") = true
            ∨ in_vocabulary (Py.strip (str (at_col ir.2 "type"))) = true)
         (rows (fix_field_types df))
  ∧ (∀ r, at_col r "type" = CStr "deviceid" →
          fix_type df r = <["type" := CStr "text"]> r)
  ∧ (∀ r, at_col r "type" = CStr "select_one sGovernorateList" →
          fix_type df r = <["type" := CStr "select_one governorate"]> r).
Proof.
  intros Hcol. split; [|split].
  - unfold fix_field_types. rewrite rows_iterrows.
    apply Forall_fmap, Forall_true. intros [i r]. by apply fix_type_vocabulary.
  - intros r Hr. unfold fix_type.
    by rewrite (has_column_true _ _ Hcol), Hr.
  - intros r Hr. unfold fix_type.
    by rewrite (has_column_true _ _ Hcol), Hr.
Qed.

Lemma fix_field_types_vocabulary_witness :
  let df := one_column "type" [CStr "deviceid"; CStr " select_one sGovernorateList";
                               CStr "geopoint "; CNaN; CInt 7] in
  Forall (λ ir : Z * row,
            is_empty (at_col ir.2 "type") = true
            ∨ in_vocabulary (Py.strip (str (at_col ir.2 "type"))) = true)
         (rows (fix_field_types df)).
Proof.
  intros df.
  refine (proj1 (fix_field_types_vocabulary df _)).
  vm_compute. left.
Defined.

(** C10: a type cell holding a text that is not empty and consists of
    whitespace only is not blank for [is_empty], strips to the empty text,
    which is not a standard type, and is rewritten to [text]. *)
Theorem fix_field_types_whitespace_type df k i r s :
  "type" ∈ columns df →
  rows df !! k = Some (i, r) →
  r !! "type" = Some (CStr s) →
  s ≠ "" →
  all_whitespace (list_ascii_of_string s) →
  is_empty (CStr s) = false
  ∧ Py.strip s = ""
  ∧ is_standard_type (CStr (Py.strip s)) = false
  ∧ rows (fix_field_types df) !! k = Some (i, <["type" := CStr "text"]> r).
Proof.
  intros Hcol Hk Hr Hs Hws.
  assert (is_empty (CStr s) = false) as He by (by apply bool_decide_eq_false).
  assert (Py.strip s = "") as Hstrip by (by apply strip_all_whitespace).
  split; [done|]. split; [done|]. split; [by rewrite Hstrip|].
  unfold fix_field_types. rewrite rows_iterrows, list_lookup_fmap, Hk.
  cbn. f_equal. f_equal. unfold fix_type.
  rewrite (has_column_true _ _ Hcol), (at_col_Some _ _ _ Hr).
  rewrite He. cbn [str]. rewrite Hstrip. reflexivity.
Qed.

Lemma fix_field_types_whitespace_type_witness :
  rows (fix_field_types (one_column "type" [CStr "integer"; CStr "  "])) !! 1%nat
  = Some (1, <["type" := CStr "text"]> {["type" := CStr "  "]}).
Proof.
  refine (proj2 (proj2 (proj2
    (fix_field_types_whitespace_type
       (one_column "type" [CStr "integer"; CStr "  "]) 1%nat 1
       {["type" := CStr "  "]} "  " _ _ _ _ _)))).
  - vm_compute. left.
  - reflexivity.
  - reflexivity.
  - discriminate.
  - apply (all_whitespace_cons (Py.code [32%nat])); [vm_compute; set_solver|].
    apply (all_whitespace_cons (Py.code [32%nat])); [vm_compute; set_solver|].
    apply all_whitespace_nil.
Defined.

(** ** Label/Hint Fallback Generator *)

Lemma well_formed_lookup_None df (ir : Z * row) col :
  well_formed df → ir ∈ rows df → col ∉ columns df → ir.2 !! col = None.
Proof.
  unfold well_formed. rewrite Forall_forall. intros Hwf Hin Hcol.
  apply not_elem_of_dom. rewrite (Hwf _ Hin). by rewrite elem_of_list_to_set.
Qed.

Lemma Forall2_diag_fmap {A} (P : A → A → Prop) (f : A → A) (l : list A) :
  (∀ x, x ∈ l → P x (f x)) → Forall2 P l (f <$> l).
Proof.
  intros H. apply Forall2_fmap_r, Forall_Forall2_diag, Forall_forall. done.
Qed.

Lemma fallback_text_not_empty (prefix s : string) :
  prefix ≠ "" → is_empty (CStr (prefix +:+ s)) = false.
Proof. intros H. apply bool_decide_eq_false. by destruct prefix. Qed.

Lemma apply_fallbacks_row_applied df i r :
  "name" ∈ columns df →
  Forall (λ col, col ∈ columns df) canonical_columns →
  fallbacks_applied (i, r) (i, apply_fallbacks_row df r).
Proof.
  intros Hname Hcols. split; [done|]. cbn [fst snd].
  unfold apply_fallbacks_row.
  destruct (is_empty (at_col r "name")) eqn:He; [done|].
  unfold canonical_columns in Hcols.
  repeat (apply Forall_cons in Hcols as [?%has_column_true Hcols]).
  unfold fallback. repeat match goal with H : has_column _ _ = true |- _ =>
                            rewrite H; clear H end.
  cbn [andb]. split.
  - apply Forall_forall. intros [col prefix] Hin. cbn [fst snd].
    unfold fallback_templates in Hin.
    repeat (apply elem_of_cons in Hin as [[= -> ->]|Hin]);
      [..|by apply elem_of_nil in Hin];
      destruct (is_empty (at_col r "label::English")) eqn:E1,
               (is_empty (at_col r "label::Arabic")) eqn:E2,
               (is_empty (at_col r "hint::English")) eqn:E3,
               (is_empty (at_col r "hint::Arabic")) eqn:E4;
      repeat (first [ rewrite at_col_insert | rewrite at_col_insert_ne by done ]);
      rewrite ?E1, ?E2, ?E3, ?E4;
      (split; [first [by apply fallback_text_not_empty | done] | done]).
  - intros col Hcol. unfold canonical_columns in Hcol.
    repeat match goal with |- context [if ?b then _ else _] => destruct b end;
      repeat (rewrite lookup_insert_ne by set_solver); done.
Qed.

(** C9: in a survey that has the four standardized columns, the Label/Hint
    Fallback Generator leaves a row with a blank name as it is, and gives a
    row with a name a value in each of the four columns: a blank cell gets
    the template of its column with the field name ([Input for] and the name
    for the English label), a cell that was not blank keeps its value. *)
Theorem apply_fallbacks_fills df :
  well_formed df →
  Forall (λ col, col ∈ columns df) canonical_columns →
  columns (apply_fallbacks df) = columns df
  ∧ Forall2 fallbacks_applied (rows df) (rows (apply_fallbacks df)).
Proof.
  intros Hwf Hcols. unfold apply_fallbacks, has_column. case_bool_decide as Hname.
  - split; [done|]. rewrite rows_iterrows. apply Forall2_diag_fmap.
    intros [i r] _. by apply apply_fallbacks_row_applied.
  - split; [done|]. apply Forall_Forall2_diag, Forall_forall. intros ir Hin.
    split; [done|]. unfold at_col.
    by rewrite (well_formed_lookup_None df ir "name").
Qed.

Lemma apply_fallbacks_fills_witness :
  columns (apply_fallbacks survey_with_language_columns)
  = columns survey_with_language_columns
  ∧ Forall2 fallbacks_applied (rows survey_with_language_columns)
            (rows (apply_fallbacks survey_with_language_columns)).
Proof.
  apply apply_fallbacks_fills.
  - repeat constructor.
  - unfold canonical_columns. repeat constructor; vm_compute; set_solver.
Defined.

(** The example of the design document: the field [age] with no English
    label gets [Input for age]. *)
Lemma apply_fallbacks_example :
  (λ ir : Z * row, at_col ir.2 "label::English")
    <$> rows (apply_fallbacks survey_with_language_columns)
  = [CStr "Input for age"; CStr "Town"; CStr ""].
Proof. vm_compute. reflexivity. Qed.

(** ** Redundant Column Pruner *)

Lemma all_na_Forall df col :
  all_na df col = true
  ↔ Forall (λ ir : Z * row, pd.isna (at_col ir.2 col) = true) (rows df).
Proof.
  unfold all_na. rewrite forallb_forall, Forall_forall.
  split; intros H ir Hin; apply H; by apply list_elem_of_In.
Qed.

Lemma rows_drop_columns cols df :
  rows (drop_columns cols df)
  = prod_map id (λ r : row, foldr delete r cols) <$> rows df.
Proof. done. Qed.

Lemma all_na_drop_columns cols df col :
  col ∉ cols → all_na (drop_columns cols df) col = all_na df col.
Proof.
  intros Hcol. unfold all_na. rewrite rows_drop_columns.
  induction (rows df) as [|[i r] l IH]; [done|].
  cbn. rewrite IH. by rewrite at_col_foldr_delete.
Qed.

Lemma columns_drop_columns cols df :
  columns (drop_columns cols df) = filter (λ c, c ∉ cols) (columns df).
Proof. done. Qed.

Lemma elem_of_columns_dropna df col :
  col ∈ columns (dropna_columns df) ↔ col ∈ columns df ∧ all_na df col = false.
Proof.
  unfold dropna_columns. rewrite columns_drop_columns.
  rewrite list_elem_of_filter, list_elem_of_filter.
  destruct (all_na df col); [|by intuition].
  split; [intros [H ?]; destruct H; done | by intros [_ ?]].
Qed.

Lemma elem_of_columns_remove_redundant df col :
  col ∈ columns (remove_redundant_columns df)
  ↔ col ∈ columns df ∧ all_na df col = false ∧ col ∉ unused_columns.
Proof.
  unfold remove_redundant_columns. rewrite columns_drop_columns.
  rewrite list_elem_of_filter, list_elem_of_filter, elem_of_columns_dropna.
  unfold has_column. rewrite bool_decide_eq_true, elem_of_columns_dropna.
  tauto.
Qed.

Lemma rows_remove_redundant df :
  rows (remove_redundant_columns df)
  = prod_map id
      (λ r : row,
         foldr delete
           (foldr delete r (filter (λ col, all_na df col = true) (columns df)))
           (filter (λ col, has_column (dropna_columns df) col = true)
                   unused_columns))
    <$> rows df.
Proof.
  unfold remove_redundant_columns. cbv zeta. rewrite rows_drop_columns.
  change (rows (dropna_columns df))
    with (rows (drop_columns (filter (λ col, all_na df col = true) (columns df)) df)).
  rewrite rows_drop_columns, <- list_fmap_compose.
  apply list_fmap_ext. by intros _ [i r] _.
Qed.

(** C3, on the code: in this survey every cell of the column [appearance]
    is the empty text, which [is_empty] counts as blank, and the column is
    still there after the Redundant Column Pruner: [dropna] looks at missing
    values only. *)
Lemma remove_redundant_columns_keeps_blank_text :
  Forall (λ ir : Z * row, is_empty (at_col ir.2 "appearance") = true)
         (rows survey_with_blank_text_column)
  ∧ "appearance" ∈ columns (remove_redundant_columns survey_with_blank_text_column).
Proof.
  split.
  - repeat constructor.
  - vm_compute. set_solver.
Qed.

(** What the Redundant Column Pruner drops, on the code: every column whose
    cells are missing (NaN or null) in every row, an empty text counting as a
    value, and the columns [style], [readonly], [publishable], [autoplay]
    whatever they hold; no other column is removed, and the cells of the
    columns that stay are unchanged. *)
Theorem remove_redundant_columns_drops df :
  (∀ col,
     col ∈ columns (remove_redundant_columns df)
     ↔ col ∈ columns df
       ∧ ¬ Forall (λ ir : Z * row, pd.isna (at_col ir.2 col) = true) (rows df)
       ∧ col ∉ unused_columns)
  ∧ Forall2 (λ ir ir' : Z * row,
               ir'.1 = ir.1
               ∧ ∀ col, col ∈ columns (remove_redundant_columns df) →
                        ir'.2 !! col = ir.2 !! col)
            (rows df) (rows (remove_redundant_columns df)).
Proof.
  split.
  - intros col. rewrite elem_of_columns_remove_redundant, <- all_na_Forall.
    destruct (all_na df col); intuition congruence.
  - rewrite rows_remove_redundant.
    apply Forall2_fmap_r, Forall_Forall2_diag, Forall_forall.
    intros [i r] _. split; [done|]. intros col Hcol.
    unfold prod_map. cbn [fst snd].
    apply elem_of_columns_remove_redundant in Hcol as (Hin & Hna & Hun).
    rewrite !lookup_foldr_delete; [done| |].
    + rewrite list_elem_of_filter, Hna. by intros [? _].
    + rewrite list_elem_of_filter. by intros [_ ?].
Qed.

(** ** Language Column Normalizer *)

Lemma columns_create_if_missing target df :
  columns (create_if_missing target df) = add_column (columns df) target.
Proof.
  unfold create_if_missing, has_column. case_bool_decide; [|done].
  by rewrite add_column_elem.
Qed.

Lemma columns_created df :
  columns (create_if_missing "hint::Arabic"
             (create_if_missing "hint::English"
                (create_if_missing "label::Arabic"
                   (create_if_missing "label::English" df))))
  = foldl add_column (columns df) canonical_columns.
Proof. by rewrite !columns_create_if_missing. Qed.

Lemma elem_of_foldl_add_column cols new c :
  c ∈ foldl add_column cols new ↔ c ∈ cols ∨ c ∈ new.
Proof.
  revert cols. induction new as [|n new IH]; intros cols; cbn.
  - rewrite elem_of_nil. tauto.
  - rewrite IH, elem_of_add_column, elem_of_cons. tauto.
Qed.

Lemma map_column_rows df col :
  Forall (λ c, c ∈ columns df) canonical_columns →
  map_column df col
  = Table (columns df) (prod_map id (λ r, map_row r col) <$> rows df).
Proof.
  intros Hcols. unfold canonical_columns in Hcols.
  repeat (apply Forall_cons in Hcols as [? Hcols]).
  unfold map_column, map_row, target_of, merge_into, assign.
  repeat (match goal with |- context [if ?b then _ else _] => destruct b end;
          [by rewrite add_column_elem|]).
  destruct df as [cols rs]. cbn. f_equal. symmetry. by apply prod_map_id_fmap.
Qed.

Lemma foldl_map_column df cols :
  Forall (λ c, c ∈ columns df) canonical_columns →
  foldl map_column df cols
  = Table (columns df) (prod_map id (λ r, foldl map_row r cols) <$> rows df).
Proof.
  revert df. induction cols as [|col cols IH]; intros df Hcols; cbn [foldl].
  - destruct df as [cs rs]. cbn. f_equal. symmetry. by apply prod_map_id_fmap.
  - rewrite (map_column_rows df col Hcols), IH by done.
    cbn. f_equal. rewrite <- list_fmap_compose. apply list_fmap_ext.
    by intros _ [i r] _.
Qed.

Lemma normalize_language_columns_unfold df :
  let created :=
    create_if_missing "hint::Arabic"
      (create_if_missing "hint::English"
         (create_if_missing "label::Arabic"
            (create_if_missing "label::English" df))) in
  normalize_language_columns df
  = drop_columns (filter (λ col, to_drop col = true) (columns df))
      (Table (columns created)
             (prod_map id (λ r, foldl map_row r (columns df)) <$> rows created)).
Proof.
  intros created. unfold normalize_language_columns. cbv zeta. fold created.
  rewrite foldl_map_column; [done|].
  unfold created. rewrite columns_created. apply Forall_forall. intros c Hc.
  apply elem_of_foldl_add_column. by right.
Qed.

Lemma prefix_app_l p q s :
  String.prefix (p +:+ q) s = true → String.prefix p s = true.
Proof.
  revert s. induction p as [|a p IH]; intros [|b s]; try done.
  change (String a p +:+ q) with (String a (p +:+ q)). cbn.
  destruct (ascii_dec a b); [apply IH | done].
Qed.

Lemma to_drop_true col :
  to_drop col = true
  ↔ (Py.startswith col "label:" = true ∨ Py.startswith col "hint:" = true)
    ∧ col ∉ canonical_columns.
Proof.
  assert (Py.startswith col "label::" = true → Py.startswith col "label:" = true)
    as Hl by apply (prefix_app_l "label:" ":").
  assert (Py.startswith col "hint::" = true → Py.startswith col "hint:" = true)
    as Hh by apply (prefix_app_l "hint:" ":").
  assert (col ∈ canonical_columns →
          Py.startswith col "label:" = true →
          col ∈ ["label::English"; "label::Arabic"]) as Hcl.
  { unfold canonical_columns. intros Hc. 
    repeat (apply elem_of_cons in Hc as [->|Hc]); try done; set_solver. }
  assert (col ∈ canonical_columns →
          Py.startswith col "hint:" = true →
          col ∈ ["hint::English"; "hint::Arabic"]) as Hch.
  { unfold canonical_columns. intros Hc.
    repeat (apply elem_of_cons in Hc as [->|Hc]); try done; set_solver. }
  assert (col ∈ ["label::English"; "label::Arabic"] → col ∈ canonical_columns)
    as Hlc by (unfold canonical_columns; rewrite !elem_of_cons; tauto).
  assert (col ∈ ["hint::English"; "hint::Arabic"] → col ∈ canonical_columns)
    as Hhc by (unfold canonical_columns; rewrite !elem_of_cons; tauto).
  unfold to_drop.
  destruct (Py.startswith col "label:") eqn:E1,
           (Py.startswith col "label::") eqn:E2,
           (Py.startswith col "hint:") eqn:E3,
           (Py.startswith col "hint::") eqn:E4;
    cbn [orb andb]; repeat case_bool_decide; cbn [negb];
    intuition congruence.
Qed.

Lemma to_drop_canonical col : col ∈ canonical_columns → to_drop col = false.
Proof.
  intros H. destruct (to_drop col) eqn:E; [|done].
  apply to_drop_true in E as [_ ?]. done.
Qed.

Lemma elem_of_columns_normalize df col :
  col ∈ columns (normalize_language_columns df)
  ↔ (col ∈ columns df ∨ col ∈ canonical_columns) ∧ to_drop col = false.
Proof.
  rewrite normalize_language_columns_unfold. cbv zeta.
  rewrite columns_drop_columns. cbn [columns].
  rewrite columns_created, list_elem_of_filter, list_elem_of_filter.
  rewrite elem_of_foldl_add_column.
  pose proof (to_drop_canonical col). destruct (to_drop col); intuition congruence.
Qed.

(** C4, the claim as stated fails: [label] is one of the recognized aliases
    of the English label, and a survey that has a column of that name still
    has it after the Language Column Normalizer. *)
Lemma normalize_language_columns_keeps_plain_label :
  "label" ∈ label_english_patterns
  ∧ "label" ∈ columns (normalize_language_columns survey_with_plain_label).
Proof. split; [vm_compute; set_solver|]. vm_compute. set_solver. Qed.

(** C4, amended: the table returned by the Language Column Normalizer has
    the four standardized columns; a column of it whose name starts with
    [label:] or [hint:] is one of these four; and every column of the input
    whose name starts with neither, the plain [label] and [hint] among them,
    is still there. *)
Theorem normalize_language_columns_columns df :
  Forall (λ col, col ∈ columns (normalize_language_columns df)) canonical_columns
  ∧ Forall (λ col, Py.startswith col "label:" = true
                   ∨ Py.startswith col "hint:" = true →
                   col ∈ canonical_columns)
           (columns (normalize_language_columns df))
  ∧ Forall (λ col, Py.startswith col "label:" = false →
                   Py.startswith col "hint:" = false →
                   col ∈ columns (normalize_language_columns df))
           (columns df).
Proof.
  split; [|split]; apply Forall_forall; intros col Hcol.
  - apply elem_of_columns_normalize. split; [by right|].
    by apply to_drop_canonical.
  - apply elem_of_columns_normalize in Hcol as [_ Hdrop]. intros Hpre.
    destruct (decide (col ∈ canonical_columns)) as [|Hn]; [done|].
    assert (to_drop col = true) by (by apply to_drop_true). congruence.
  - intros Hl Hh. apply elem_of_columns_normalize. split; [by left|].
    destruct (to_drop col) eqn:E; [|done].
    apply to_drop_true in E as [[?|?] _]; congruence.
Qed.

(** ** Cascading Select Fixer *)

Lemma filter_fmap {A B} (P : B → Prop) (Q : A → Prop)
    `{∀ x, Decision (P x)} `{∀ x, Decision (Q x)} (f : A → B) (l : list A) :
  (∀ x, P (f x) ↔ Q x) → filter P (f <$> l) = f <$> filter Q l.
Proof.
  intros HPQ. induction l as [|x l IH]; [done|]. cbn [fmap list_fmap].
  destruct (decide (Q x)) as [Hq|Hq].
  - rewrite (filter_cons_True Q) by done.
    rewrite filter_cons_True by (by apply HPQ). cbn. by rewrite IH.
  - rewrite (filter_cons_False Q) by done.
    rewrite filter_cons_False by (by rewrite HPQ). done.
Qed.

Lemma reset_index_rows (rs : list (Z * row)) : (reset_index rs).*2 = rs.*2.
Proof. unfold reset_index. rewrite fmap_imap. apply imap_const. Qed.

Lemma length_reset_index (rs : list (Z * row)) :
  length (reset_index rs) = length rs.
Proof. apply length_imap. Qed.

(** Completing a row with NaN changes the cell of no column: a column
    with no cell reads as NaN already. *)
Lemma at_col_pad cols (r : row) col : at_col (pd.pad cols r) col = at_col r col.
Proof.
  unfold pd.pad. induction cols as [|c cols IH]; [done|]. cbn [foldr].
  destruct (foldr _ r cols !! c) eqn:E; [done|].
  destruct (decide (c = col)) as [->|Hne].
  - rewrite at_col_insert, <- IH. unfold at_col. by rewrite E.
  - by rewrite at_col_insert_ne.
Qed.

Lemma reserved_pad cols r : reserved (pd.pad cols r) = reserved r.
Proof. unfold reserved. by rewrite at_col_pad. Qed.

(** The seed: three rows in each of the three reserved lists, each
    district under one of the governorates, each subdistrict under one of
    the districts. *)
Lemma create_standard_location_choices_hierarchy :
  let seed := create_standard_location_choices in
  let names := λ list, (λ r, at_col r "name") <$> list_rows list seed in
  length (rows seed) = 9%nat
  ∧ Forall (λ ir : Z * row, reserved ir.2 = true) (rows seed)
  ∧ length (list_rows "governorate" seed) = 3%nat
  ∧ length (list_rows "district" seed) = 3%nat
  ∧ length (list_rows "subdistrict" seed) = 3%nat
  ∧ Forall (λ r, at_col r "governorate" ∈ names "governorate")
           (list_rows "district" seed)
  ∧ Forall (λ r, at_col r "district" ∈ names "district")
           (list_rows "subdistrict" seed).
Proof.
  cbv zeta.
  repeat split; try reflexivity;
    (eapply bool_decide_unpack; vm_compute; exact I).
Qed.

Lemma seed_columns_seed :
  columns create_standard_location_choices = seed_columns.
Proof. vm_compute. reflexivity. Qed.

Lemma standard_location_cells_seed :
  (λ r, at_col r <$> seed_columns) <$> (rows create_standard_location_choices).*2
  = standard_location_cells.
Proof. vm_compute. reflexivity. Qed.

(** A table whose rows of the reserved lists are the rows of the seed, up
    to a change that leaves the cells of the seed's columns alone, holds the
    nine rows and the three levels. *)
Lemma seed_rows_transfer (f : row → row) out :
  (∀ r col, col ∈ seed_columns → at_col (f r) col = at_col r col) →
  filter (λ r, reserved r = true) (rows out).*2
  = f <$> (rows create_standard_location_choices).*2 →
  seed_set out ∧ seed_hierarchy out.
Proof.
  intros Hf Hres.
  pose proof create_standard_location_choices_hierarchy as Hh.
  pose proof standard_location_cells_seed as Hcells.
  cbv zeta in Hh. destruct Hh as (_ & _ & Hg & Hd & Hs & Hpg & Hpd).
  set (seed := create_standard_location_choices) in *. clearbody seed.
  assert (∀ col, col ∈ ["list_name"; "name"; "governorate"; "district"] →
                 col ∈ seed_columns) as Hin.
  { intros col H. unfold seed_columns. rewrite !elem_of_cons in *. tauto. }
  assert (∀ name, name ∈ reserved_lists →
                  list_rows name out = f <$> list_rows name seed) as Hrows.
  { intros name Hname. unfold list_rows.
    rewrite <- (filter_fmap (λ r, at_col r "list_name" = CStr name) _ f).
    2: { intros r. rewrite Hf; [done|]. apply Hin. repeat constructor. }
    rewrite <- Hres, list_filter_filter. apply list_filter_iff.
    intros r. split; [|tauto]. intros H. split; [done|].
    unfold reserved. rewrite H. by apply bool_decide_eq_true_2. }
  assert (∀ l : list row,
            (λ r, at_col r "name") <$> (f <$> l) = (λ r, at_col r "name") <$> l)
    as Hnames.
  { intros l. rewrite <- list_fmap_compose. apply list_fmap_ext.
    intros _ r _. unfold compose. apply Hf, Hin. repeat constructor. }
  split.
  - unfold seed_set. rewrite Hres, <- list_fmap_compose, <- Hcells.
    apply list_fmap_ext. intros _ r _. unfold compose.
    apply list_fmap_ext. intros _ col Hc%list_elem_of_lookup_2. by apply Hf.
  - unfold seed_hierarchy. cbv zeta.
    rewrite !Hrows by (unfold reserved_lists; repeat constructor).
    rewrite !length_fmap, !Hnames. repeat split; try done.
    + apply Forall_fmap. eapply Forall_impl; [exact Hpg|].
      intros r Hr. unfold compose. rewrite Hf; [done|].
      apply Hin. repeat constructor.
    + apply Forall_fmap. eapply Forall_impl; [exact Hpd|].
      intros r Hr. unfold compose. rewrite Hf; [done|].
      apply Hin. repeat constructor.
Qed.

(** C7: on a choices table with a row and a [list_name] column the
    Cascading Select Fixer returns a table in which the rows of the lists
    [governorate], [district] and [subdistrict] are the nine rows of the
    seed, cell by cell: three governorates, three districts each under one of
    the governorates, three subdistricts each under one of the districts; and
    the rows of every other list are those of the input, the same rows in the
    same order. *)
Theorem fix_cascading_selects_seeds df :
  rows df ≠ [] →
  "list_name" ∈ columns df →
  ∃ out, fix_cascading_selects (Some df) = Ok out
         ∧ cascading_fixed df out
         ∧ seed_set out
         ∧ seed_hierarchy out.
Proof.
  intros Hrows Hcol. unfold fix_cascading_selects.
  rewrite bool_decide_eq_false_2 by (by destruct (rows df)).
  rewrite (has_column_true _ _ Hcol). eexists. split; [done|].
  set (kept := filter _ (rows df)).
  assert (cascading_fixed df
            (pd.concat (Table (columns df) kept)
               create_standard_location_choices)) as Hfix.
  { assert (kept.*2 = filter (λ r, reserved r = false) (rows df).*2) as Hkept.
    { unfold kept. symmetry. by apply filter_fmap. }
    unfold cascading_fixed, pd.concat. cbn [rows columns].
    set (cols := foldl add_column _ _).
    rewrite reset_index_rows, snd_prod_map_fmap, fmap_app, Hkept.
    destruct create_standard_location_choices_hierarchy as (_ & Hseed & _).
    split.
    - rewrite (filter_fmap _ (λ r, reserved r = true))
        by (intros r; by rewrite reserved_pad).
      f_equal. rewrite filter_app, list_filter_filter.
      rewrite filter_all_false
        by (apply Forall_true; intros r [? ?]; congruence).
      apply filter_all_true, Forall_fmap. done.
    - rewrite (filter_fmap _ (λ r, reserved r = false))
        by (intros r; by rewrite reserved_pad).
      f_equal. rewrite filter_app, list_filter_filter.
      rewrite (filter_all_false _ (rows create_standard_location_choices).*2).
      + rewrite app_nil_r. apply list_filter_iff. tauto.
      + apply Forall_fmap. eapply Forall_impl; [exact Hseed|].
        intros ir H. cbn in *. congruence. }
  split; [exact Hfix|]. destruct Hfix as [Hres _].
  eapply seed_rows_transfer; [|exact Hres].
  intros r col _. apply at_col_pad.
Qed.

Lemma fix_cascading_selects_seeds_witness :
  ∃ out, fix_cascading_selects (Some choices_with_governorate) = Ok out
         ∧ cascading_fixed choices_with_governorate out
         ∧ seed_set out
         ∧ seed_hierarchy out.
Proof.
  apply fix_cascading_selects_seeds.
  - discriminate.
  - vm_compute. left.
Defined.

(** On the sample sheet: the two rows of the yes/no list stay, the
    governorate of the sheet goes, and the nine rows of the seed follow. *)
Lemma fix_cascading_selects_example :
  (λ r, (at_col r "list_name", at_col r "name"))
    <$> match fix_cascading_selects (Some choices_with_governorate) with
        | Ok out => (rows out).*2
        | Raise _ => []
        end
  = [(CStr "yesno", CStr "yes"); (CStr "yesno", CStr "no");
     (CStr "governorate", CStr "baghdad"); (CStr "governorate", CStr "basra");
     (CStr "governorate", CStr "erbil");
     (CStr "district", CStr "district1"); (CStr "district", CStr "district2");
     (CStr "district", CStr "district3");
     (CStr "subdistrict", CStr "subdistrict1");
     (CStr "subdistrict", CStr "subdistrict2");
     (CStr "subdistrict", CStr "subdistrict3")].
Proof. vm_compute. reflexivity. Qed.

(** ** Group/Repeat Balance Validator *)

Lemma scan_row_typed st x :
  scan_row st x
  = if typed "begin group" x then
      Scan (begin_group_count st + 1) (begin_repeat_count st)
           (missing_end_groups st ++ [x.1]) (missing_end_repeats st)
    else if typed "end group" x then
      Scan (begin_group_count st - 1) (begin_repeat_count st)
           (pop (missing_end_groups st)) (missing_end_repeats st)
    else if typed "begin repeat" x then
      Scan (begin_group_count st) (begin_repeat_count st + 1)
           (missing_end_groups st) (missing_end_repeats st ++ [x.1])
    else if typed "end repeat" x then
      Scan (begin_group_count st) (begin_repeat_count st - 1)
           (missing_end_groups st) (pop (missing_end_repeats st))
    else st.
Proof. unfold scan_row, typed. by destruct (is_empty (get x.2 "type")). Qed.

Lemma typed_exclusive m1 m2 x :
  typed m1 x = true → typed m2 x = true → m1 = m2.
Proof.
  unfold typed. intros [_ H1]%andb_prop [_ H2]%andb_prop.
  apply String.eqb_eq in H1, H2. congruence.
Qed.

Lemma count_typed_snoc m rs x :
  count_typed m (rs ++ [x])
  = (count_typed m rs + if typed m x then 1 else 0)%nat.
Proof.
  unfold count_typed. rewrite filter_app, length_app. f_equal.
  destruct (typed m x) eqn:E.
  - by rewrite filter_cons_True.
  - rewrite filter_cons_False; [done|]. by rewrite E.
Qed.

Lemma length_pop l : length (pop l) = pred (length l).
Proof.
  unfold pop. rewrite removelast_firstn_len, length_take. lia.
Qed.

Lemma closes_after_opening_snoc opening closing rs x :
  closes_after_opening opening closing (rs ++ [x]) →
  closes_after_opening opening closing rs
  ∧ (count_typed closing (rs ++ [x]) ≤ count_typed opening (rs ++ [x]))%nat.
Proof.
  intros H. split.
  - intros n. specialize (H (n `min` length rs)%nat).
    rewrite take_app_le in H by lia.
    destruct (decide (n ≤ length rs)%nat).
    + by rewrite Nat.min_l in H by lia.
    + rewrite Nat.min_r, !take_ge in H by lia. by rewrite !take_ge by lia.
  - specialize (H (length (rs ++ [x]))). by rewrite take_ge in H by lia.
Qed.

(** With every closing marker after an opening one, what stays on a stack
    is what was opened and not closed. *)
Lemma scan_balance rs :
  closes_after_opening "begin repeat" "end repeat" rs →
  closes_after_opening "begin group" "end group" rs →
  let st := foldl scan_row (Scan 0 0 [] []) rs in
  (length (missing_end_repeats st) + count_typed "end repeat" rs
   = count_typed "begin repeat" rs)%nat
  ∧ (length (missing_end_groups st) + count_typed "end group" rs
     = count_typed "begin group" rs)%nat.
Proof.
  induction rs as [|x rs IH] using rev_ind; [done|].
  intros [Hr Hr']%closes_after_opening_snoc [Hg Hg']%closes_after_opening_snoc.
  destruct (IH Hr Hg) as [IHr IHg]. cbv zeta. rewrite foldl_snoc.
  set (st := foldl scan_row (Scan 0 0 [] []) rs) in *.
  rewrite !count_typed_snoc in *. rewrite scan_row_typed.
  destruct (typed "begin group" x) eqn:E1, (typed "end group" x) eqn:E2,
           (typed "begin repeat" x) eqn:E3, (typed "end repeat" x) eqn:E4;
    try (by pose proof (typed_exclusive _ _ _ E1 E2));
    try (by pose proof (typed_exclusive _ _ _ E1 E3));
    try (by pose proof (typed_exclusive _ _ _ E1 E4));
    try (by pose proof (typed_exclusive _ _ _ E2 E3));
    try (by pose proof (typed_exclusive _ _ _ E2 E4));
    try (by pose proof (typed_exclusive _ _ _ E3 E4));
    cbn [missing_end_repeats missing_end_groups];
    rewrite ?length_app, ?length_pop; cbn [length]; lia.
Qed.

Lemma elem_of_increasing_le_last (l : list Z) x :
  StronglySorted Z.lt l → x ∈ l → x ≤ List.last l 0.
Proof.
  induction l as [|y l IH] using rev_ind; [by intros _ ?%elem_of_nil|].
  intros Hs Hx. rewrite last_last.
  apply elem_of_app in Hx as [Hx|Hx%list_elem_of_singleton]; [|lia].
  assert (x < y); [|lia].
  eapply (StronglySorted_app_1_elem_of _ l [y]); [done..|left].
Qed.

Lemma loc_set_fresh rs new : new.1 ∉ rs.*1 → loc_set rs new = rs ++ [new].
Proof. intros H. unfold loc_set. by rewrite bool_decide_eq_false_2. Qed.

Lemma sort_index_sorted rs :
  StronglySorted (λ a b : Z * row, a.1 ≤ b.1) rs → sort_index rs = rs.
Proof.
  induction 1 as [|x rs _ IH Hx]; [done|].
  unfold sort_index in *. cbn [foldr]. rewrite IH.
  destruct Hx as [|y rs Hxy _]; [done|]. cbn.
  by rewrite bool_decide_eq_true_2.
Qed.

Lemma increasing_labels_sorted (rs : list (Z * row)) :
  StronglySorted Z.lt rs.*1 → StronglySorted (λ a b : Z * row, a.1 ≤ b.1) rs.
Proof.
  induction rs as [|a l IH]; [constructor|].
  cbn. intros [Hs Hall]%StronglySorted_inv.
  constructor; [by apply IH|].
  rewrite Forall_forall in Hall. apply Forall_forall. intros b Hb.
  assert (a.1 < b.1); [|lia]. apply Hall. by apply list_elem_of_fmap_2.
Qed.

Lemma reset_index_labels (rs : list (Z * row)) :
  (reset_index rs).*1 = Z.of_nat <$> seq 0 (length rs).
Proof.
  apply list_eq. intros i. unfold reset_index.
  rewrite !list_lookup_fmap, list_lookup_imap.
  destruct (rs !! i) as [ir|] eqn:E; cbn.
  - apply lookup_lt_Some in E. by rewrite lookup_seq_lt.
  - apply lookup_ge_None in E. by rewrite lookup_seq_ge.
Qed.

Lemma closing_row_type cols marker :
  at_col (closing_row cols marker) "type" = CStr marker.
Proof. apply at_col_insert. Qed.

Lemma closing_row_other cols marker col :
  col ∈ cols → col ≠ "type" → closing_row cols marker !! col = Some (CStr "").
Proof.
  intros Hin Hne. unfold closing_row. rewrite lookup_insert_ne by done.
  induction cols as [|c cols IH]; [by apply elem_of_nil in Hin|].
  cbn. destruct (decide (c = col)) as [->|Hc].
  - by rewrite lookup_insert_eq.
  - rewrite lookup_insert_ne by done. apply IH.
    by apply elem_of_cons in Hin as [?|?].
Qed.

(** C8, the claim as stated fails: this survey has two rows typed
    [begin repeat] and one row each typed [end repeat], [begin group] and
    [end group], and the validator gives it two more rows, both typed
    [end repeat].  Its [end repeat] row comes first and finds no repeat
    open. *)
Lemma validate_group_repeat_logic_closing_first :
  let rs := rows survey_closing_first in
  count_typed "begin repeat" rs = 2%nat
  ∧ count_typed "end repeat" rs = 1%nat
  ∧ count_typed "begin group" rs = 1%nat
  ∧ count_typed "end group" rs = 1%nat
  ∧ length rs = 5%nat
  ∧ (λ ir : Z * row, at_col ir.2 "type")
      <$> rows (validate_group_repeat_logic survey_closing_first)
    = [CStr "end repeat"; CStr "begin repeat"; CStr "begin repeat";
       CStr "begin group"; CStr "end group"; CStr "end repeat";
       CStr "end repeat"].
Proof. vm_compute. done. Qed.

(** C8, amended: take a survey with a type column and row labels that go
    up, with exactly two rows typed [begin repeat] and exactly one row each
    typed [end repeat], [begin group] and [end group], in which the
    [end repeat] row comes after a [begin repeat] row and the [end group] row
    after the [begin group] row.  The validator adds one row after its rows,
    typed [end repeat] and with the empty text in every other column; the
    row count goes up by one; the former rows keep their content and
    their order. *)
Theorem validate_group_repeat_logic_closes_repeat df :
  "type" ∈ columns df →
  increasing_index df →
  count_typed "begin repeat" (rows df) = 2%nat →
  count_typed "end repeat" (rows df) = 1%nat →
  count_typed "begin group" (rows df) = 1%nat →
  count_typed "end group" (rows df) = 1%nat →
  closes_after_opening "begin repeat" "end repeat" (rows df) →
  closes_after_opening "begin group" "end group" (rows df) →
  end_repeat_appended df (validate_group_repeat_logic df).
Proof.
  intros Hcol Hidx Hbr Her Hbg Heg Hr Hg.
  destruct (scan_balance (rows df) Hr Hg) as [Hmr Hmg].
  unfold validate_group_repeat_logic.
  rewrite (has_column_true _ _ Hcol). cbn [negb]. cbv zeta.
  set (st := foldl scan_row (Scan 0 0 [] []) (rows df)) in *.
  destruct (missing_end_repeats st) as [|z [|? ?]]; cbn [length] in Hmr; try lia.
  destruct (missing_end_groups st) as [|? ?]; cbn [length] in Hmg; try lia.
  change (close_all _ _ "end group" _ [])
    with (close_all (List.last (index df) 0) (columns df) "end repeat" [] [z]).
  change (close_all _ _ "end repeat" [] [z])
    with [(List.last (index df) 0 + 1 + 0, closing_row (columns df) "end repeat")].
  cbn [foldl].
  set (new := (List.last (index df) 0 + 1 + 0, closing_row (columns df) "end repeat")).
  assert (∀ x, x ∈ index df → x < new.1) as Hlt.
  { intros x Hx. apply elem_of_increasing_le_last in Hx; [|done]. cbn. lia. }
  rewrite loc_set_fresh by (intros Hin; apply Hlt in Hin; lia).
  rewrite sort_index_sorted.
  - unfold end_repeat_appended. cbn [columns rows]. unfold index. cbn [rows].
    rewrite reset_index_rows, reset_index_labels, length_reset_index.
    rewrite fmap_app, length_app, Nat.add_1_r.
    repeat split; try done.
    + apply closing_row_type.
    + intros col. apply closing_row_other.
  - apply StronglySorted_app_2.
    + intros a b Ha Hb%list_elem_of_singleton. subst b.
      assert (a.1 < new.1); [|lia]. apply Hlt. by apply list_elem_of_fmap_2.
    + by apply increasing_labels_sorted.
    + repeat constructor.
Qed.

Lemma validate_group_repeat_logic_closes_repeat_witness :
  end_repeat_appended survey_one_repeat_open
    (validate_group_repeat_logic survey_one_repeat_open).
Proof.
  apply validate_group_repeat_logic_closes_repeat.
  - vm_compute. left.
  - unfold increasing_index. vm_compute. repeat constructor.
  - reflexivity.
  - reflexivity.
  - reflexivity.
  - reflexivity.
  - intros n. do 6 (destruct n as [|n]; [vm_compute; lia|]). vm_compute. lia.
  - intros n. do 6 (destruct n as [|n]; [vm_compute; lia|]). vm_compute. lia.
Defined.

(** ** Idempotence of the row-wise stages *)

(** Two rows built by writing cells are equal when they agree on every
    column. *)
Ltac row_eq :=
  apply map_eq; intros ?; rewrite ?lookup_insert;
  repeat case_decide; subst; try done; try congruence.

Lemma iterrows_idemp (body : table → row → row) df :
  (∀ (df' : table) r, columns df' = columns df → body df' r = body df r) →
  (∀ r, body df (body df r) = body df r) →
  iterrows (body (iterrows (body df) df)) (iterrows (body df) df)
  = iterrows (body df) df.
Proof.
  intros Hcols Hbody. unfold iterrows. cbn [rows columns]. f_equal.
  rewrite <- list_fmap_compose.
  apply list_fmap_ext. intros _ [i r] _. unfold prod_map. cbn.
  by rewrite Hcols, Hbody.
Qed.

Lemma has_column_columns df df' col :
  columns df' = columns df → has_column df' col = has_column df col.
Proof. intros H. unfold has_column. by rewrite H. Qed.

(** The texts the Field Type Fixer writes. *)
Lemma fix_type_cases df r :
  fix_type df r = r
  ∨ ∃ v, v ∈ ["text"; "select_one governorate"; "select_one district";
              "select_one subdistrict"]
         ∧ fix_type df r = <["type" := CStr v]> r.
Proof.
  unfold fix_type.
  repeat match goal with
         | |- context [if ?b then _ else _] => destruct b
         end;
    first [ by left | right; eexists; split; [|reflexivity]; set_solver ].
Qed.

Lemma fix_type_written df r v :
  v ∈ ["text"; "select_one governorate"; "select_one district";
       "select_one subdistrict"] →
  at_col r "type" = CStr v → fix_type df r = r.
Proof.
  intros Hv Hr. unfold fix_type. rewrite Hr.
  destruct (has_column df "type"); [|done].
  repeat (apply elem_of_cons in Hv as [->|Hv]); [..|by apply elem_of_nil in Hv];
    vm_compute; reflexivity.
Qed.

Lemma fix_type_idemp df r : fix_type df (fix_type df r) = fix_type df r.
Proof.
  destruct (fix_type_cases df r) as [H|(v & Hv & H)]; rewrite !H; [done|].
  apply (fix_type_written _ _ v Hv), at_col_insert.
Qed.

Lemma fix_field_types_idemp df :
  fix_field_types (fix_field_types df) = fix_field_types df.
Proof.
  unfold fix_field_types. apply (iterrows_idemp fix_type).
  - intros df' r H. unfold fix_type. by rewrite (has_column_columns _ _ _ H).
  - apply fix_type_idemp.
Qed.

(** A row the Expression Validator has converted holds what a second
    conversion would write. *)
Lemma clean_calculation_row_cases df r :
  clean_calculation_row df r = r
  ∨ clean_calculation_row df r
    = (if has_column df "calculation"
       then <["calculation" := CStr ""]> (<["type" := CStr "text"]> r)
       else <["type" := CStr "text"]> r).
Proof.
  unfold clean_calculation_row.
  destruct (should_convert df r && has_column df "type"); [by right | by left].
Qed.

Lemma clean_calculation_row_idemp df r :
  clean_calculation_row df (clean_calculation_row df r)
  = clean_calculation_row df r.
Proof.
  destruct (clean_calculation_row_cases df r) as [H|H]; rewrite !H; [done|].
  set (r' := if has_column df "calculation" then _ else _).
  destruct (clean_calculation_row_cases df r') as [H'|H']; rewrite H'; [done|].
  unfold r'. destruct (has_column df "calculation"); row_eq.
Qed.

Lemma clean_calculation_fields_idemp df :
  clean_calculation_fields (clean_calculation_fields df)
  = clean_calculation_fields df.
Proof.
  unfold clean_calculation_fields. apply (iterrows_idemp clean_calculation_row).
  - intros df' r H. unfold clean_calculation_row, should_convert, has_column.
    by rewrite H.
  - apply clean_calculation_row_idemp.
Qed.

Lemma clean_default_row_cases r :
  clean_default_row r = r ∨ clean_default_row r = <["default" := CStr ""]> r.
Proof.
  unfold clean_default_row.
  repeat match goal with |- context [if ?b then _ else _] => destruct b end;
    by eauto.
Qed.

Lemma clean_default_row_idemp r :
  clean_default_row (clean_default_row r) = clean_default_row r.
Proof.
  destruct (clean_default_row_cases r) as [H|H]; rewrite !H; [done|].
  unfold clean_default_row. by rewrite get_insert.
Qed.

Lemma clean_default_values_idemp df :
  clean_default_values (clean_default_values df) = clean_default_values df.
Proof.
  unfold clean_default_values at 2. destruct (has_column df "default") eqn:E.
  - unfold clean_default_values.
    rewrite (has_column_columns df (iterrows clean_default_row df)) by done.
    rewrite E. apply (iterrows_idemp (λ _, clean_default_row)); [done|].
    apply clean_default_row_idemp.
  - unfold clean_default_values. by rewrite E.
Qed.

Lemma remove_redundant_columns_idemp df :
  remove_redundant_columns (remove_redundant_columns df)
  = remove_redundant_columns df.
Proof.
  set (out := remove_redundant_columns df).
  assert (Forall (λ col, ¬ all_na out col = true) (columns out)) as Hna.
  { apply Forall_forall. intros col Hcol.
    apply elem_of_columns_remove_redundant in Hcol as (Hin & Hna & Hun).
    unfold out, remove_redundant_columns. cbv zeta.
    rewrite all_na_drop_columns
      by (rewrite list_elem_of_filter; by intros [_ ?]).
    unfold dropna_columns. rewrite all_na_drop_columns, Hna; [done|].
    rewrite list_elem_of_filter, Hna. by intros [? _]. }
  assert (dropna_columns out = out) as Hdrop.
  { unfold dropna_columns. rewrite filter_all_false by done.
    apply drop_columns_nil. }
  unfold remove_redundant_columns at 1. cbv zeta. rewrite Hdrop.
  rewrite filter_all_false; [apply drop_columns_nil|].
  apply Forall_forall. intros col Hcol. unfold has_column.
  rewrite bool_decide_eq_true. unfold out.
  rewrite elem_of_columns_remove_redundant. by intros (_ & _ & ?).
Qed.

(** ** Idempotence of the Settings Fixer *)

Lemma rows_set_column col v df :
  rows (set_column col v df) = prod_map id (λ r : row, <[col := v]> r) <$> rows df.
Proof. done. Qed.

Lemma columns_set_column col v df :
  columns (set_column col v df) = add_column (columns df) col.
Proof. done. Qed.

Lemma add_column_idemp cols col :
  add_column (add_column cols col) col = add_column cols col.
Proof. apply add_column_elem, elem_of_add_column. by right. Qed.

Lemma set_column_idemp col v df :
  set_column col v (set_column col v df) = set_column col v df.
Proof.
  unfold set_column, assign. cbn [columns rows]. rewrite add_column_idemp.
  f_equal. rewrite <- list_fmap_compose. apply list_fmap_ext.
  intros _ [i r] _. unfold prod_map. cbn. by rewrite insert_insert_eq.
Qed.

Lemma has_column_set_column_ne c col v df :
  c ≠ col → has_column (set_column c v df) col = has_column df col.
Proof.
  intros Hne. unfold has_column. rewrite columns_set_column.
  apply bool_decide_ext. rewrite elem_of_add_column. intuition congruence.
Qed.

Lemma iloc0_set_column_ne c col v df :
  c ≠ col → iloc0 col (set_column c v df) = iloc0 col df.
Proof.
  intros Hne. unfold iloc0. rewrite rows_set_column.
  destruct (rows df) as [|[i r] rs]; [done|]. cbn. by apply at_col_insert_ne.
Qed.

Lemma iloc0_set_column c v df :
  rows df ≠ [] → iloc0 c (set_column c v df) = v.
Proof.
  intros Hne. unfold iloc0. rewrite rows_set_column.
  destruct (rows df) as [|[i r] rs]; [done|]. cbn. apply at_col_insert.
Qed.

Lemma rows_ensure_field_nonempty col v df :
  rows df ≠ [] → rows (ensure_field col v df) ≠ [].
Proof.
  unfold ensure_field. destruct (_ || _); [|done].
  rewrite rows_set_column. by destruct (rows df).
Qed.

(** A sheet in which the field [col] needs no repair any more. *)
Lemma ensure_field_idemp col v df :
  rows df ≠ [] →
  ensure_field col v (ensure_field col v df) = ensure_field col v df.
Proof.
  intros Hne. unfold ensure_field.
  destruct (negb (has_column df col) || is_empty (iloc0 col df)) eqn:E.
  - destruct (negb (has_column (set_column col v df) col)
              || is_empty (iloc0 col (set_column col v df))); [|done].
    apply set_column_idemp.
  - by rewrite E.
Qed.

Lemma set_column_settled_elem col v df :
  set_column col v df = df →
  col ∈ columns df ∧ ∀ ir : Z * row, ir ∈ rows df → <[col := v]> ir.2 = ir.2.
Proof.
  intros H. split.
  - rewrite <- H at 1. rewrite columns_set_column. apply elem_of_add_column.
    by right.
  - assert (rows (set_column col v df) = rows df) as Hr by (by rewrite H).
    rewrite rows_set_column in Hr. clear H.
    induction (rows df) as [|[i r] rs IH]; [by intros ? ?%elem_of_nil|].
    injection Hr as Hr1 Hr2. intros ir [->|Hin]%elem_of_cons; [done|].
    by apply IH.
Qed.

Lemma ensure_field_set_column c col v v' df :
  c ≠ col →
  ensure_field col v df = df →
  ensure_field col v (set_column c v' df) = set_column c v' df.
Proof.
  intros Hne. unfold ensure_field.
  rewrite has_column_set_column_ne, iloc0_set_column_ne by done.
  destruct (_ || _); [|done]. intros [Hcol Hrows]%set_column_settled_elem.
  unfold set_column, assign. cbn [columns rows]. f_equal.
  - apply add_column_elem, elem_of_add_column. by left.
  - rewrite <- list_fmap_compose. apply list_fmap_ext.
    intros k [i r] Hk. unfold prod_map. cbn. f_equal.
    rewrite insert_insert_ne by done. f_equal.
    apply (Hrows (i, r)). by apply list_elem_of_lookup_2 in Hk.
Qed.

Lemma ensure_field_ensure_field c col v v' df :
  c ≠ col →
  ensure_field col v df = df →
  ensure_field col v (ensure_field c v' df) = ensure_field c v' df.
Proof.
  intros Hne H. unfold ensure_field at 2 3.
  destruct (negb (has_column df c) || is_empty (iloc0 c df)); [|done].
  by apply ensure_field_set_column.
Qed.

Lemma fix_settings_rows_idemp form_name df :
  rows df ≠ [] →
  fix_settings_rows form_name (fix_settings_rows form_name df)
  = fix_settings_rows form_name df.
Proof.
  intros Hne. unfold fix_settings_rows at 1.
  set (out := fix_settings_rows form_name df).
  assert (ensure_field "form_title" (CStr form_name) out = out) as ->.
  { unfold out, fix_settings_rows.
    apply ensure_field_set_column; [done|].
    apply ensure_field_ensure_field; [done|].
    by apply ensure_field_idemp. }
  assert (ensure_field "form_id" (CStr (normalize_name (CStr form_name))) out
          = out) as ->.
  { unfold out, fix_settings_rows.
    apply ensure_field_set_column; [done|].
    apply ensure_field_idemp. by apply rows_ensure_field_nonempty. }
  apply set_column_idemp.
Qed.

Lemma fix_settings_sheet_rows form_name df :
  rows df ≠ [] →
  fix_settings_sheet (Some df) form_name = fix_settings_rows form_name df.
Proof.
  intros Hne. unfold fix_settings_sheet.
  by rewrite bool_decide_eq_false_2 by (by destruct (rows df)).
Qed.

(** Without a sheet, or with a sheet that has no row, the result is what
    the second branch makes of one row with no cell. *)
Lemma fix_settings_sheet_fresh form_name :
  pd.DataFrame [[("form_title", CStr form_name);
                 ("form_id", CStr (normalize_name (CStr form_name)));
                 ("default_language", CStr "English")]]
  = fix_settings_rows form_name (Table [] [(0, ∅)]).
Proof.
  unfold fix_settings_rows.
  generalize (CStr (normalize_name (CStr form_name))). intros c.
  generalize (CStr form_name). intros t.
  vm_compute. reflexivity.
Qed.

Lemma rows_fix_settings_rows_nonempty form_name df :
  rows df ≠ [] → rows (fix_settings_rows form_name df) ≠ [].
Proof.
  intros Hne. unfold fix_settings_rows. rewrite rows_set_column.
  pose proof (rows_ensure_field_nonempty "form_id"
                (CStr (normalize_name (CStr form_name))) _
                (rows_ensure_field_nonempty "form_title" (CStr form_name) _ Hne))
    as H.
  intros Hnil. by apply fmap_nil_inv in Hnil.
Qed.

Lemma fix_settings_sheet_idemp settings_df form_name :
  fix_settings_sheet (Some (fix_settings_sheet settings_df form_name)) form_name
  = fix_settings_sheet settings_df form_name.
Proof.
  assert (∃ df, rows df ≠ []
                ∧ fix_settings_sheet settings_df form_name
                  = fix_settings_rows form_name df) as (df & Hne & ->).
  { destruct settings_df as [df|].
    - destruct (decide (rows df = [])) as [He|Hne].
      + exists (Table [] [(0, ∅)]). split; [done|]. unfold fix_settings_sheet.
        rewrite bool_decide_eq_true_2 by (by rewrite He).
        apply fix_settings_sheet_fresh.
      + exists df. split; [done|]. by apply fix_settings_sheet_rows.
    - exists (Table [] [(0, ∅)]). split; [done|].
      apply fix_settings_sheet_fresh. }
  rewrite fix_settings_sheet_rows by (by apply rows_fix_settings_rows_nonempty).
  by apply fix_settings_rows_idemp.
Qed.

(** ** Idempotence of the Language Column Normalizer *)

Lemma foldl_fixed {A B} (f : A → B → A) (a : A) (l : list B) :
  (∀ x, x ∈ l → f a x = a) → foldl f a l = a.
Proof.
  induction l as [|x l IH]; [done|]. intros H. cbn.
  rewrite (H x) by left. apply IH. intros y Hy. apply H. by right.
Qed.

Lemma create_if_missing_has target df :
  target ∈ columns df → create_if_missing target df = df.
Proof. intros H. unfold create_if_missing. by rewrite has_column_true. Qed.

Lemma target_of_canonical col target :
  target_of col = Some target → target ∈ canonical_columns.
Proof.
  unfold target_of, canonical_columns.
  repeat match goal with |- context [if ?b then _ else _] => destruct b end;
    intros H; try discriminate H; injection H as <-;
    rewrite !elem_of_cons; tauto.
Qed.

(** A standardized column is merged into no column. *)
Lemma target_of_not_canonical col target :
  target_of col = Some target → col ∉ canonical_columns.
Proof.
  intros Ht Hc. unfold canonical_columns in Hc.
  repeat (apply elem_of_cons in Hc as [->|Hc]); try discriminate Ht.
  by apply elem_of_nil in Hc.
Qed.

Lemma map_row_merged target col r :
  merged target col r → target_of col = Some target → map_row r col = r.
Proof.
  intros (v & Hv & Himp) Ht. unfold map_row. rewrite Ht.
  apply insert_id. rewrite Hv. f_equal. unfold merged_cell.
  rewrite (at_col_Some _ _ _ Hv).
  destruct (is_empty v); [|done]. by rewrite Himp.
Qed.

Lemma merged_map_row_self target col r :
  target ≠ col → target_of col = Some target →
  merged target col (map_row r col).
Proof.
  intros Hne Ht. unfold map_row. rewrite Ht. eexists. split.
  - apply lookup_insert_eq.
  - rewrite at_col_insert_ne by done. unfold merged_cell.
    destruct (is_empty (at_col r target)) eqn:E1,
             (is_empty (at_col r col)) eqn:E2; cbn; congruence.
Qed.

Lemma merged_map_row target col r c :
  col ∉ canonical_columns → merged target col r → merged target col (map_row r c).
Proof.
  intros Hcol (v & Hv & Himp). unfold map_row.
  destruct (target_of c) as [t'|] eqn:Ht; [|by exists v].
  assert (t' ≠ col) as Hne.
  { intros ->. by apply target_of_canonical in Ht. }
  destruct (decide (t' = target)) as [->|Hne'].
  - eexists. split; [apply lookup_insert_eq|].
    rewrite at_col_insert_ne by done. unfold merged_cell.
    rewrite (at_col_Some _ _ _ Hv).
    destruct (is_empty v) eqn:E1, (is_empty (at_col r c)) eqn:E2; cbn;
      intros; first [congruence | by apply Himp].
  - exists v. rewrite lookup_insert_ne by done.
    by rewrite at_col_insert_ne by done.
Qed.

Lemma merged_foldl target col r cols :
  col ∉ canonical_columns → merged target col r →
  merged target col (foldl map_row r cols).
Proof.
  intros Hcol. revert r. induction cols as [|c cols IH]; intros r Hr; [done|].
  cbn. by apply IH, merged_map_row.
Qed.

Lemma merged_foldl_elem target col r cols :
  col ∉ canonical_columns → target_of col = Some target → col ∈ cols →
  merged target col (foldl map_row r cols).
Proof.
  intros Hcol Ht (pre & post & ->)%list_elem_of_split.
  rewrite foldl_app. cbn [foldl]. apply merged_foldl; [done|].
  apply merged_map_row_self; [|done].
  intros <-. by apply target_of_canonical in Ht.
Qed.

Lemma merged_foldr_delete target col r cols :
  target ∉ cols → col ∉ cols →
  merged target col r → merged target col (foldr delete r cols).
Proof.
  intros Ht Hc (v & Hv & Himp). exists v.
  by rewrite lookup_foldr_delete, at_col_foldr_delete.
Qed.

Lemma normalize_language_columns_idemp df :
  normalize_language_columns (normalize_language_columns df)
  = normalize_language_columns df.
Proof.
  set (out := normalize_language_columns df).
  assert (∀ col, col ∈ canonical_columns → col ∈ columns out) as Hcanon.
  { intros col Hcol. apply elem_of_columns_normalize.
    split; [by right | by apply to_drop_canonical]. }
  assert (∀ col, col ∈ columns out → to_drop col = false) as Hkeep.
  { intros col Hcol. by apply elem_of_columns_normalize in Hcol as [_ ?]. }
  rewrite (normalize_language_columns_unfold out). cbv zeta.
  rewrite (create_if_missing_has "label::English" out),
    (create_if_missing_has "label::Arabic" out),
    (create_if_missing_has "hint::English" out),
    (create_if_missing_has "hint::Arabic" out)
    by (apply Hcanon; unfold canonical_columns; rewrite !elem_of_cons; tauto).
  rewrite filter_all_false
    by (apply Forall_forall; intros col Hcol; by rewrite (Hkeep col Hcol)).
  rewrite drop_columns_nil.
  assert (∀ ir col, ir ∈ rows out → col ∈ columns out →
                    map_row ir.2 col = ir.2) as Hfix.
  { intros ir col Hir Hcol.
    destruct (target_of col) as [target|] eqn:Ht;
      [|by unfold map_row; rewrite Ht].
    pose proof (target_of_not_canonical _ _ Ht) as Hnc.
    apply map_row_merged with target; [|done].
    unfold out in Hir, Hcol.
    apply elem_of_columns_normalize in Hcol as [[Hcol|?] Hdrop]; [|done].
    rewrite normalize_language_columns_unfold in Hir. cbv zeta in Hir.
    rewrite rows_drop_columns in Hir. cbn [rows] in Hir.
    apply list_elem_of_fmap in Hir as (ir1 & -> & Hir).
    apply list_elem_of_fmap in Hir as (ir0 & -> & _).
    unfold prod_map. cbn [fst snd].
    apply merged_foldr_delete.
    - rewrite list_elem_of_filter. intros [Hd _].
      by rewrite (to_drop_canonical _ (target_of_canonical _ _ Ht)) in Hd.
    - rewrite list_elem_of_filter. intros [Hd _]. congruence.
    - by apply merged_foldl_elem. }
  destruct out as [cols1 rows1]. cbn [columns rows] in *. f_equal.
  apply prod_map_id_fmap. intros ir Hir. apply foldl_fixed.
  intros col Hcol. by apply Hfix.
Qed.

(** C6: each of the Language Column Normalizer, the Field Type Fixer, the
    Expression Validator, the Default Value Sanitizer, the Settings Fixer
    (for one form name) and the Redundant Column Pruner, applied to its own
    output, returns that output. *)
Theorem stages_idempotent :
  (∀ df, normalize_language_columns (normalize_language_columns df)
         = normalize_language_columns df)
  ∧ (∀ df, fix_field_types (fix_field_types df) = fix_field_types df)
  ∧ (∀ df, clean_calculation_fields (clean_calculation_fields df)
           = clean_calculation_fields df)
  ∧ (∀ df, clean_default_values (clean_default_values df)
           = clean_default_values df)
  ∧ (∀ settings_df form_name,
       fix_settings_sheet
         (Some (fix_settings_sheet settings_df form_name)) form_name
       = fix_settings_sheet settings_df form_name)
  ∧ (∀ df, remove_redundant_columns (remove_redundant_columns df)
           = remove_redundant_columns df).
Proof.
  repeat split.
  - apply normalize_language_columns_idemp.
  - apply fix_field_types_idemp.
  - apply clean_calculation_fields_idemp.
  - apply clean_default_values_idemp.
  - apply fix_settings_sheet_idemp.
  - apply remove_redundant_columns_idemp.
Qed.

(** * Further properties of the code *)

(** ** Navigation *)

Lemma go_next_range s :
  0 ≤ s < Z.of_nat (length STEPS) → 0 ≤ go_next s < Z.of_nat (length STEPS).
Proof. unfold go_next. case_bool_decide; lia. Qed.

Lemma go_back_range s :
  0 ≤ s < Z.of_nat (length STEPS) → 0 ≤ go_back s < Z.of_nat (length STEPS).
Proof. unfold go_back. case_bool_decide; lia. Qed.

Lemma main_is_Some s : 0 ≤ s < Z.of_nat (length STEPS) → is_Some (main s).
Proof.
  cbn. intros Hs. unfold main.
  repeat (case_bool_decide; [by eexists|]). lia.
Qed.

Lemma press_range presses s :
  0 ≤ s < Z.of_nat (length STEPS) →
  0 ≤ foldl press s presses < Z.of_nat (length STEPS).
Proof.
  revert s. induction presses as [|b presses IH]; intros s Hs; [done|].
  cbn [foldl]. apply IH. destruct b; cbn [press].
  - by apply go_next_range.
  - by apply go_back_range.
  - cbn. lia.
Qed.

(** From the first step, whatever buttons are pressed, the current step
    stays one of the thirteen steps and [main] has a step function to show
    for it.  [Next] does nothing at the last step and [Back] nothing at the
    first; anywhere else each undoes the other. *)
Theorem navigation_stays_on_steps :
  (∀ presses : list button,
     let s := foldl press 0 presses in
     0 ≤ s < Z.of_nat (length STEPS) ∧ is_Some (main s))
  ∧ go_next (Z.of_nat (length STEPS) - 1) = Z.of_nat (length STEPS) - 1
  ∧ go_back 0 = 0
  ∧ (∀ s, 0 ≤ s < Z.of_nat (length STEPS) - 1 → go_back (go_next s) = s)
  ∧ (∀ s, 0 < s < Z.of_nat (length STEPS) → go_next (go_back s) = s).
Proof.
  split; [|split; [done|split; [done|split]]].
  - intros presses. cbv zeta.
    assert (0 ≤ foldl press 0 presses < Z.of_nat (length STEPS)) as H
      by (apply press_range; cbn; lia).
    split; [done | by apply main_is_Some].
  - intros s Hs. unfold go_next, go_back.
    change (Z.of_nat (length STEPS)) with 13 in *.
    repeat case_bool_decide; lia.
  - intros s Hs. unfold go_next, go_back.
    change (Z.of_nat (length STEPS)) with 13 in *.
    repeat case_bool_decide; lia.
Qed.

(** ** Name Normalizer *)

Lemma name_char_plain a :
  Py.name_char a = true →
  Py.lower_ascii a = a
  ∧ Ascii.eqb a (ascii_of_nat 196) = false
  ∧ Ascii.eqb a (ascii_of_nat 226) = false
  ∧ Ascii.eqb a " "%char = false.
Proof.
  destruct a as [[] [] [] [] [] [] [] []]; vm_compute; intros; done.
Qed.

Lemma lower_name_text s : name_text s → Py.lower s = s.
Proof.
  unfold name_text. induction s as [|a s IH]; [done|].
  cbn [list_ascii_of_string]. intros [Ha Hs]%Forall_cons.
  destruct (name_char_plain a Ha) as (Hl & H196 & H226 & _).
  specialize (IH Hs). cbn [Py.lower].
  destruct s as [|b s]; [by rewrite Hl|].
  rewrite H196. cbn [andb].
  destruct s as [|c s]; [by rewrite Hl, IH|].
  rewrite H226. cbn [andb]. by rewrite Hl, IH.
Qed.

Lemma replace_spaces_name_text s : name_text s → Py.replace_spaces s = s.
Proof.
  unfold name_text. induction s as [|a s IH]; [done|].
  cbn. intros [Ha Hs]%Forall_cons.
  destruct (name_char_plain a Ha) as (_ & _ & _ & ->). by rewrite IH.
Qed.

Lemma keep_name_chars_name_text s : name_text s → Py.keep_name_chars s = s.
Proof.
  unfold name_text. induction s as [|a s IH]; [done|].
  cbn. intros [Ha Hs]%Forall_cons. by rewrite Ha, IH.
Qed.

Lemma normalize_name_name_text s :
  name_text s → normalize_name (CStr s) = s.
Proof.
  intros Hs. unfold normalize_name. destruct (is_empty (CStr s)) eqn:E.
  - apply bool_decide_eq_true in E. by subst.
  - cbn [str]. rewrite (lower_name_text s Hs), (replace_spaces_name_text s Hs).
    by apply keep_name_chars_name_text.
Qed.

(** The normalized form of a name is a text of characters in [a-z0-9_],
    and normalizing it again changes nothing. *)
Theorem normalize_name_idempotent name :
  name_text (normalize_name name)
  ∧ normalize_name (CStr (normalize_name name)) = normalize_name name.
Proof.
  split; [apply name_text_normalize_name|].
  apply normalize_name_name_text, name_text_normalize_name.
Qed.

(** ** Field Name Normalizer, in closed form *)

Lemma occurrences_app base l1 l2 :
  occurrences base (l1 ++ l2) = (occurrences base l1 + occurrences base l2)%nat.
Proof. unfold occurrences. by rewrite filter_app, length_app. Qed.

Lemma occurrences_singleton base x :
  occurrences base [x]
  = if decide (is_empty x = false ∧ normalize_name x = base) then 1%nat else 0%nat.
Proof.
  unfold occurrences. case_decide.
  - by rewrite filter_cons_True.
  - by rewrite filter_cons_False.
Qed.

Lemma occurrences_0 base l :
  base ∉ normalize_name <$> filter (λ n, is_empty n = false) l →
  occurrences base l = 0%nat.
Proof.
  intros H. unfold occurrences. rewrite filter_all_false; [done|].
  apply Forall_forall. intros n Hn [He Hb]. apply H.
  rewrite <- Hb. apply list_elem_of_fmap_2. by apply list_elem_of_filter.
Qed.

(** The names written for a list of cells, cell by cell. *)
Lemma unique_names_snoc_spec p x :
  imap (λ i n, unique_name (take i (p ++ [x])) n) (p ++ [x])
  = imap (λ i n, unique_name (take i p) n) p ++ [unique_name p x].
Proof.
  rewrite imap_app. f_equal.
  - apply imap_ext. intros i n Hi. apply lookup_lt_Some in Hi.
    by rewrite take_app_le by lia.
  - cbn. by rewrite Nat.add_0_r, take_app_length.
Qed.

Lemma unique_step_spec p m out x :
  (∀ b, m !! b = match occurrences b p with
                 | O => None
                 | S k => Some (Z.of_nat k)
                 end) →
  (∀ b, (unique_step (m, out) x).1 !! b
        = match occurrences b (p ++ [x]) with
          | O => None
          | S k => Some (Z.of_nat k)
          end)
  ∧ (unique_step (m, out) x).2 = out ++ [unique_name p x].
Proof.
  intros Hm. unfold unique_step, unique_name.
  destruct (is_empty x) eqn:He; cbn [fst snd].
  - split; [|done]. intros b. rewrite occurrences_app, occurrences_singleton.
    rewrite decide_False by (intros [? _]; congruence).
    by rewrite Nat.add_0_r.
  - pose proof (Hm (normalize_name x)) as Hbase.
    destruct (occurrences (normalize_name x) p) as [|k] eqn:Hocc;
      rewrite Hbase; cbn [fst snd].
    + split; [|done]. intros b. rewrite occurrences_app, occurrences_singleton.
      destruct (decide (normalize_name x = b)) as [<-|Hne].
      * rewrite lookup_insert_eq, decide_True by done. by rewrite Hocc.
      * rewrite lookup_insert_ne, decide_False by (by intros [_ ?] || done).
        by rewrite Nat.add_0_r.
    + split.
      * intros b. rewrite occurrences_app, occurrences_singleton.
        destruct (decide (normalize_name x = b)) as [<-|Hne].
        -- rewrite lookup_insert_eq, decide_True by done. rewrite Hocc.
           rewrite Nat.add_1_r. f_equal. lia.
        -- rewrite lookup_insert_ne, decide_False by (by intros [_ ?] || done).
           by rewrite Nat.add_0_r.
      * replace (Z.of_nat k + 1) with (Z.of_nat (S k)) by lia. done.
Qed.

Lemma unique_names_imap names :
  unique_names names = imap (λ i name, unique_name (take i names) name) names.
Proof.
  unfold unique_names.
  assert (∀ rest p m out,
            (∀ b, m !! b = match occurrences b p with
                           | O => None
                           | S k => Some (Z.of_nat k)
                           end) →
            out = imap (λ i n, unique_name (take i p) n) p →
            (foldl unique_step (m, out) rest).2
            = imap (λ i n, unique_name (take i (p ++ rest)) n) (p ++ rest)) as H.
  { induction rest as [|x rest IH]; intros p m out Hm Hout.
    - by rewrite app_nil_r.
    - cbn [foldl]. destruct (unique_step_spec p m out x Hm) as [Hm' Hout'].
      destruct (unique_step (m, out) x) as [m' out']. cbn [fst snd] in *.
      rewrite (IH (p ++ [x]) m' out' Hm').
      + by rewrite <- app_assoc.
      + by rewrite Hout', Hout, unique_names_snoc_spec. }
  apply (H names [] ∅ []); [|done]. intros b. apply lookup_empty.
Qed.

(** The Field Name Normalizer in closed form: it writes one name per cell;
    a blank cell is kept; a name comes out as its normalized form when no
    earlier name that is not blank has the same normalized form, and with
    [_k] added when [k] earlier names have it. *)
Theorem unique_names_closed_form names :
  length (unique_names names) = length names
  ∧ ∀ i name, names !! i = Some name →
              unique_names names !! i = Some (unique_name (take i names) name).
Proof.
  rewrite unique_names_imap. split; [apply length_imap|].
  intros i name H. by rewrite list_lookup_imap, H.
Qed.

Lemma string_app_nil_r (s : string) : s +:+ "" = s.
Proof.
  induction s as [|a s IH]; [done|].
  change (String a s +:+ "") with (String a (s +:+ "")). by rewrite IH.
Qed.

Lemma unique_name_base_suffix base k :
  CStr base ≠ CStr (base +:+ "_" +:+ pretty (Z.of_nat (S k))).
Proof.
  intros [= H]. assert (base +:+ "" = base +:+ "_" +:+ pretty (Z.of_nat (S k)))
    as H' by (by rewrite string_app_nil_r).
  by apply String.app_inj in H'.
Qed.

(** Two names with the same normalized form never come out equal. *)
Theorem unique_names_same_base_distinct names i j a b :
  (i < j)%nat →
  names !! i = Some a → names !! j = Some b →
  is_empty a = false → is_empty b = false →
  normalize_name a = normalize_name b →
  unique_names names !! i ≠ unique_names names !! j.
Proof.
  intros Hij Ha Hb Hea Heb Hab.
  rewrite unique_names_imap, !list_lookup_imap, Ha, Hb. cbn.
  intros [= H]. revert H. unfold unique_name. rewrite Hea, Heb, <- Hab.
  set (base := normalize_name a).
  assert (occurrences base (take i names) < occurrences base (take j names))%nat
    as Hocc.
  { assert (take j names
            = take i names ++ [a] ++ drop (S i) (take j names)) as ->.
    { rewrite <- (take_drop (S i) (take j names)) at 1.
      rewrite take_take, Nat.min_l, (take_S_r _ _ a) by (done || lia).
      by rewrite <- app_assoc. }
    rewrite !occurrences_app, occurrences_singleton.
    rewrite decide_True by done. lia. }
  destruct (occurrences base (take i names)) as [|k1],
           (occurrences base (take j names)) as [|k2]; try lia.
  - apply unique_name_base_suffix.
  - intros [= H]. apply String.app_inj in H. apply String.app_inj in H.
    apply (inj pretty) in H. lia.
Qed.

Lemma unique_names_same_base_distinct_witness :
  unique_names [CStr "Age"; CNaN; CStr "age!"] !! 0%nat
  ≠ unique_names [CStr "Age"; CNaN; CStr "age!"] !! 2%nat.
Proof.
  apply (unique_names_same_base_distinct _ 0 2 (CStr "Age") (CStr "age!"));
    [lia | reflexivity..].
Defined.

Lemma unique_names_fmap names :
  NoDup (normalize_name <$> filter (λ n, is_empty n = false) names) →
  unique_names names
  = (λ n, if is_empty n then n else CStr (normalize_name n)) <$> names.
Proof.
  rewrite unique_names_imap.
  induction names as [|x names IH] using rev_ind; [done|].
  rewrite filter_app, fmap_app, unique_names_snoc_spec, fmap_app.
  intros (Hnd & Hdis & _)%NoDup_app. rewrite IH by done. f_equal.
  cbn. f_equal. unfold unique_name. destruct (is_empty x) eqn:He; [done|].
  rewrite occurrences_0; [done|]. intros Hin. apply (Hdis _ Hin).
  rewrite filter_cons_True by done. cbn. left.
Qed.

Lemma normalized_names_NoDup names :
  NoDup (normalize_name <$> filter (λ n, is_empty n = false) names) →
  NoDup (normalize_name
           <$> filter (λ n, is_empty n = false)
                 ((λ n, if is_empty n then n else CStr (normalize_name n))
                    <$> names)).
Proof.
  set (f := λ n, if is_empty n then n else CStr (normalize_name n)).
  assert (∀ x, is_empty (f x) = false →
               is_empty x = false ∧ normalize_name (f x) = normalize_name x)
    as Hf.
  { intros x. unfold f. destruct (is_empty x) eqn:He; [by intros ?; congruence|].
    intros _. split; [done|].
    apply normalize_name_name_text, name_text_normalize_name. }
  induction names as [|x names IH]; [done|].
  rewrite fmap_cons. destruct (is_empty (f x)) eqn:He.
  - rewrite (filter_cons_False _ (f x)) by (by rewrite He).
    destruct (is_empty x) eqn:Hx.
    + rewrite filter_cons_False by (by rewrite Hx). apply IH.
    + rewrite filter_cons_True by done. rewrite fmap_cons.
      intros [_ H]%NoDup_cons. by apply IH.
  - destruct (Hf x He) as [Hx Hn].
    rewrite !filter_cons_True, !fmap_cons by done.
    intros [Hnin Hnd]%NoDup_cons. apply NoDup_cons. split; [|by apply IH].
    rewrite Hn. intros Hin. apply Hnin. clear -Hin Hf.
    apply list_elem_of_fmap in Hin as (y & -> & Hy).
    apply list_elem_of_filter in Hy as [Hy Hin].
    apply list_elem_of_fmap in Hin as (z & -> & Hz).
    destruct (Hf z Hy) as [Hz1 Hz2]. rewrite Hz2.
    apply list_elem_of_fmap_2. by apply list_elem_of_filter.
Qed.

(** When no two names have the same normalized form, every name comes out
    in its normalized form, with no suffix, and the Field Name Normalizer
    run on these names returns them as they are. *)
Theorem unique_names_no_collision names :
  NoDup (normalize_name <$> filter (λ n, is_empty n = false) names) →
  unique_names names
  = (λ n, if is_empty n then n else CStr (normalize_name n)) <$> names
  ∧ unique_names (unique_names names) = unique_names names.
Proof.
  intros Hnd. rewrite (unique_names_fmap names Hnd). split; [done|].
  rewrite unique_names_fmap by (by apply normalized_names_NoDup).
  rewrite <- list_fmap_compose. apply list_fmap_ext. intros _ x _. cbn.
  destruct (is_empty x) eqn:He; [by rewrite He|].
  destruct (is_empty (CStr (normalize_name x))) eqn:He'.
  - done.
  - f_equal. apply normalize_name_name_text, name_text_normalize_name.
Qed.

Lemma unique_names_no_collision_witness :
  unique_names [CStr "First Name"; CStr ""; CStr "Age"]
  = (λ n, if is_empty n then n else CStr (normalize_name n))
      <$> [CStr "First Name"; CStr ""; CStr "Age"]
  ∧ unique_names (unique_names [CStr "First Name"; CStr ""; CStr "Age"])
    = unique_names [CStr "First Name"; CStr ""; CStr "Age"].
Proof.
  apply unique_names_no_collision.
  eapply bool_decide_unpack. vm_compute. exact I.
Defined.

(** ** Field Type Fixer: the types it keeps *)

Lemma iterrows_fixed body df :
  iterrows body df = df ↔ Forall (λ ir : Z * row, body ir.2 = ir.2) (rows df).
Proof.
  destruct df as [cols rs]. unfold iterrows. cbn [columns rows]. split.
  - intros [= H]. apply Forall_forall. intros [i r] Hin.
    apply list_elem_of_lookup_1 in Hin as [k Hk].
    apply (f_equal (λ l, l !! k)) in H.
    rewrite list_lookup_fmap, Hk in H. cbn in H. by injection H.
  - intros H. f_equal. rewrite <- (list_fmap_id rs) at 2.
    apply list_fmap_ext. intros k [i r] Hk. unfold prod_map. cbn.
    rewrite Forall_forall in H. f_equal.
    apply (H (i, r)). by eapply list_elem_of_lookup_2.
Qed.

Lemma startswith_inv s p : Py.startswith s p = true → ∃ rest, s = p +:+ rest.
Proof.
  unfold Py.startswith. revert s. induction p as [|a p IH]; intros s H.
  - by exists s.
  - destruct s as [|b s]; [done|]. cbn in H.
    destruct (ascii_dec a b) as [->|]; [|done].
    destruct (IH s H) as [rest ->]. by exists rest.
Qed.

Lemma standard_not_unsupported t :
  t ∈ standard_types →
  bool_decide (t ∈ unsupported_types) = false
  ∧ Py.startswith t "select_one " = false
  ∧ is_standard_type (CStr t) = true.
Proof.
  unfold standard_types. intros H.
  repeat (apply elem_of_cons in H as [->|H]; [by vm_compute|]).
  by apply elem_of_nil in H.
Qed.

Lemma select_multiple_not_unsupported t :
  Py.startswith t "select_multiple " = true →
  bool_decide (t ∈ unsupported_types) = false
  ∧ Py.startswith t "select_one " = false.
Proof.
  intros [rest ->]%startswith_inv. split; [|by vm_compute].
  apply bool_decide_eq_false. unfold unsupported_types. intros H.
  repeat (apply elem_of_cons in H as [H|H]; [by vm_compute in H|]).
  by apply elem_of_nil in H.
Qed.

Lemma select_one_not_unsupported t :
  Py.startswith t "select_one " = true →
  bool_decide (t ∈ unsupported_types) = false.
Proof.
  intros [rest ->]%startswith_inv.
  apply bool_decide_eq_false. unfold unsupported_types. intros H.
  repeat (apply elem_of_cons in H as [H|H]; [by vm_compute in H|]).
  by apply elem_of_nil in H.
Qed.

Lemma is_standard_type_kept s :
  is_standard_type (CStr (Py.strip s)) = true →
  Py.startswith (Py.strip s) "select_one " = false →
  kept_type (Py.strip s).
Proof.
  unfold is_standard_type, kept_type.
  destruct (is_empty _); [done|]. cbn [str]. rewrite strip_idemp.
  case_bool_decide; [by left|]. intros Hstd Hsel. rewrite Hsel in Hstd.
  right. left. by destruct (Py.startswith (Py.strip s) "select_multiple ").
Qed.

Lemma kept_type_is_standard s :
  kept_type (Py.strip s) →
  Py.startswith (Py.strip s) "select_one " = false →
  is_standard_type (CStr (Py.strip s)) = true.
Proof.
  intros [H|[H|[H _]]] Hsel.
  - by apply standard_not_unsupported.
  - unfold is_standard_type. cbn [str]. rewrite strip_idemp, Hsel, H.
    destruct (is_empty _) eqn:E.
    + apply bool_decide_eq_true in E. by rewrite E in H.
    + by case_bool_decide.
  - congruence.
Qed.

Lemma fix_type_fixed df r :
  "type" ∈ columns df → fix_type df r = r ↔ kept_row r.
Proof.
  intros Hcol. unfold fix_type, kept_row.
  rewrite (has_column_true _ _ Hcol). cbn [andb].
  destruct (is_empty (at_col r "type")) eqn:He; cbn [negb]; [by intuition|].
  set (tv := Py.strip (str (at_col r "type"))).
  assert (∀ v, <["type" := CStr v]> r = r → at_col r "type" = CStr v) as Hw.
  { intros v H. rewrite <- H. apply at_col_insert. }
  split.
  - intros H. right. revert H.
    destruct (bool_decide (tv ∈ unsupported_types)) eqn:Hun.
    { intros H%Hw. unfold tv in Hun. rewrite H in Hun.
      by vm_compute in Hun. }
    destruct (Py.startswith tv "select_one ") eqn:Hsel.
    + destruct (Py.contains "sGovernorate" tv) eqn:H1.
      { intros H%Hw. unfold tv in H1. rewrite H in H1.
        by vm_compute in H1. }
      destruct (Py.contains "sDistrict" tv) eqn:H2.
      { intros H%Hw. unfold tv in H2. rewrite H in H2.
        by vm_compute in H2. }
      destruct (Py.contains "sSubdistrict" tv) eqn:H3.
      { intros H%Hw. unfold tv in H3. rewrite H in H3.
        by vm_compute in H3. }
      intros _. right. right. done.
    + destruct (is_standard_type (CStr tv)) eqn:Hstd; cbn [negb].
      * intros _. by apply is_standard_type_kept.
      * intros H%Hw. unfold tv in Hstd. rewrite H in Hstd.
        by vm_compute in Hstd.
  - intros [?|Hk]; [done|]. subst tv.
    destruct (Py.startswith _ "select_one ") eqn:Hsel.
    + rewrite (select_one_not_unsupported _ Hsel).
      destruct Hk as [Hk|[Hk|(_ & -> & -> & ->)]]; [| |done].
      * apply standard_not_unsupported in Hk as (_ & Hk & _). congruence.
      * apply select_multiple_not_unsupported in Hk as [_ Hk]. congruence.
    + rewrite (kept_type_is_standard _ Hk Hsel). cbn [negb].
      destruct Hk as [Hk|[Hk|[Hk _]]]; [| |congruence].
      * by apply standard_not_unsupported in Hk as (-> & _).
      * by apply select_multiple_not_unsupported in Hk as [-> _].
Qed.

(** In a survey with a type column, the Field Type Fixer changes nothing
    exactly when every type cell is blank or holds, once stripped, a
    standard type, a [select_multiple] with a list, or a [select_one] with a
    list whose name has none of [sGovernorate], [sDistrict] and
    [sSubdistrict] in it. *)
Theorem fix_field_types_fixed_points df :
  "type" ∈ columns df →
  fix_field_types df = df ↔ Forall (λ ir : Z * row, kept_row ir.2) (rows df).
Proof.
  intros Hcol. unfold fix_field_types. rewrite iterrows_fixed.
  apply Forall_iff. intros [i r]. by apply fix_type_fixed.
Qed.

Lemma fix_field_types_fixed_points_witness :
  fix_field_types survey_with_kept_types = survey_with_kept_types.
Proof.
  apply (fix_field_types_fixed_points survey_with_kept_types).
  - vm_compute. left.
  - apply Forall_forall. intros ir Hin.
    unfold survey_with_kept_types in Hin. cbn [rows] in Hin.
    repeat (apply elem_of_cons in Hin as [->|Hin]);
      [..|by apply elem_of_nil in Hin];
      unfold kept_row, kept_type; cbn [snd];
      first [ by (left; vm_compute)
            | right; left; vm_compute; repeat constructor; fail
            | by (right; right; left; vm_compute)
            | by (right; right; right; vm_compute) ].
Defined.

(** The Field Type Fixer keeps the columns, the row labels and every cell
    outside the type column, and a type cell it changes holds [text] or a
    [select_one] of one of the three location lists. *)
Theorem fix_field_types_frame df :
  columns (fix_field_types df) = columns df
  ∧ Forall2 (λ ir ir' : Z * row,
               ir'.1 = ir.1
               ∧ (∀ col, col ≠ "type" → ir'.2 !! col = ir.2 !! col)
               ∧ (ir'.2 = ir.2
                  ∨ ∃ v, v ∈ ["text"; "select_one governorate";
                              "select_one district"; "select_one subdistrict"]
                         ∧ ir'.2 !! "type" = Some (CStr v)))
            (rows df) (rows (fix_field_types df)).
Proof.
  split; [done|]. unfold fix_field_types. rewrite rows_iterrows.
  apply Forall2_diag_fmap. intros [i r] _. unfold prod_map. cbn [fst snd id].
  split; [done|].
  destruct (fix_type_cases df r) as [->|(v & Hv & ->)].
  - split; [done|by left].
  - split.
    + intros col Hne. by rewrite lookup_insert_ne.
    + right. exists v. split; [done|]. by rewrite lookup_insert_eq.
Qed.

(** ** Expression Validator and Default Value Sanitizer: what is left *)

Lemma has_invalid_expression_get (r : row) col :
  has_invalid_expression (at_col r col) = true → is_empty (get r col) = false.
Proof.
  unfold at_col, get, has_invalid_expression.
  destruct (r !! col) as [v|]; cbn [default id]; [|done].
  by destruct (is_empty v).
Qed.

(** The test on [row.get(col)] adds nothing to the test on [row[col]]. *)
Lemma should_convert_invalid df r :
  should_convert df r
  = existsb (λ col, has_column df col && has_invalid_expression (at_col r col))
            check_cols.
Proof.
  unfold should_convert. induction check_cols as [|col cols IH]; [done|].
  cbn [existsb]. rewrite IH. f_equal.
  destruct (has_column df col); [|done]. cbn [andb].
  destruct (has_invalid_expression (at_col r col)) eqn:E.
  - by rewrite (has_invalid_expression_get _ _ E).
  - by rewrite andb_false_r.
Qed.

Lemma has_invalid_expression_empty_text :
  has_invalid_expression (CStr "") = false.
Proof. done. Qed.

(** In a survey with a type column, after the Expression Validator: no
    calculation holds an invalid expression; a row that still holds an
    invalid expression in one of the other checked columns is typed [text];
    row labels and the cells outside the type and calculation columns are
    the former ones; and a row with no invalid expression is unchanged. *)
Theorem clean_calculation_fields_cleans df :
  "type" ∈ columns df →
  Forall2 (λ ir ir' : Z * row,
             ir'.1 = ir.1
             ∧ (∀ col, col ≠ "type" → col ≠ "calculation" →
                       ir'.2 !! col = ir.2 !! col)
             ∧ ("calculation" ∈ columns df →
                has_invalid_expression (at_col ir'.2 "calculation") = false)
             ∧ (∀ col, col ∈ check_cols → col ∈ columns df →
                       has_invalid_expression (at_col ir'.2 col) = true →
                       at_col ir'.2 "type" = CStr "text")
             ∧ ((∀ col, col ∈ check_cols → col ∈ columns df →
                        has_invalid_expression (at_col ir.2 col) = false) →
                ir' = ir))
          (rows df) (rows (clean_calculation_fields df)).
Proof.
  intros Htype. unfold clean_calculation_fields. rewrite rows_iterrows.
  apply Forall2_diag_fmap. intros [i r] _. unfold prod_map. cbn [fst snd id].
  split; [done|]. unfold clean_calculation_row.
  rewrite should_convert_invalid, (has_column_true _ _ Htype), andb_true_r.
  destruct (existsb _ check_cols) eqn:E.
  - repeat split.
    + intros col H1 H2. destruct (has_column df "calculation");
        by rewrite ?lookup_insert_ne by done.
    + intros Hcalc. rewrite (has_column_true _ _ Hcalc).
      by rewrite at_col_insert.
    + intros col _ _ _. destruct (has_column df "calculation");
        by rewrite ?at_col_insert_ne, at_col_insert by done.
    + intros Hall. apply existsb_exists in E as (col & Hin & Hc).
      apply andb_prop in Hc as [Hc Hinv]. apply bool_decide_eq_true in Hc.
      apply list_elem_of_In in Hin. by rewrite (Hall col Hin Hc) in Hinv.
  - assert (∀ col, col ∈ check_cols → col ∈ columns df →
                   has_invalid_expression (at_col r col) = false) as Hvalid.
    { intros col Hin Hc. destruct (has_invalid_expression _) eqn:Hinv; [|done].
      rewrite <- E. symmetry. apply existsb_exists. exists col.
      split; [by apply list_elem_of_In|].
      by rewrite (has_column_true _ _ Hc), Hinv. }
    repeat split; try done.
    + intros Hcalc. apply Hvalid; [|done]. unfold check_cols. left.
    + intros col Hin Hc Hinv. by rewrite (Hvalid col Hin Hc) in Hinv.
Qed.

Lemma clean_calculation_fields_cleans_witness :
  Forall2 (λ ir ir' : Z * row,
             ir'.1 = ir.1
             ∧ (∀ col, col ≠ "type" → col ≠ "calculation" →
                       ir'.2 !! col = ir.2 !! col)
             ∧ ("calculation" ∈ columns survey_with_expressions →
                has_invalid_expression (at_col ir'.2 "calculation") = false)
             ∧ (∀ col, col ∈ check_cols →
                       col ∈ columns survey_with_expressions →
                       has_invalid_expression (at_col ir'.2 col) = true →
                       at_col ir'.2 "type" = CStr "text")
             ∧ ((∀ col, col ∈ check_cols →
                        col ∈ columns survey_with_expressions →
                        has_invalid_expression (at_col ir.2 col) = false) →
                ir' = ir))
          (rows survey_with_expressions)
          (rows (clean_calculation_fields survey_with_expressions)).
Proof.
  apply clean_calculation_fields_cleans. vm_compute. left.
Defined.

(** What the Expression Validator does to the sample survey: the row with
    the invalid calculation and the row with the invalid relevance are both
    typed [text] and lose their calculation; the relevance stays. *)
Lemma clean_calculation_fields_example :
  (λ ir : Z * row, (at_col ir.2 "type", at_col ir.2 "calculation",
                    at_col ir.2 "relevant"))
    <$> rows (clean_calculation_fields survey_with_expressions)
  = [(CStr "text", CStr "", CNaN);
     (CStr "text", CStr "", CStr "${c1} > 0");
     (CStr "calculate", CStr "1 + 1", CNaN)].
Proof. vm_compute. reflexivity. Qed.

(** Without a type column the Expression Validator changes nothing, also
    when a calculation is invalid. *)
Theorem clean_calculation_fields_without_type df :
  "type" ∉ columns df → clean_calculation_fields df = df.
Proof.
  intros Htype. unfold clean_calculation_fields. apply iterrows_fixed.
  apply Forall_forall. intros ir _. unfold clean_calculation_row.
  assert (has_column df "type" = false) as ->
    by (by apply bool_decide_eq_false_2).
  by rewrite andb_false_r.
Qed.

Lemma clean_calculation_fields_without_type_witness :
  clean_calculation_fields
    (one_column "calculation" [CStr "pulldata('a', 'b')"])
  = one_column "calculation" [CStr "pulldata('a', 'b')"].
Proof.
  apply clean_calculation_fields_without_type.
  vm_compute. intros H. apply elem_of_cons in H as [H|H]; [done|].
  by apply elem_of_nil in H.
Defined.

(** In a survey with a default column, after the Default Value Sanitizer
    no default cell has [pulldata(] or a field reference in it; a default
    cell is the former one or the empty text; row labels and the cells of
    the other columns are the former ones. *)
Theorem clean_default_values_cleans df :
  "default" ∈ columns df →
  Forall2 (λ ir ir' : Z * row,
             ir'.1 = ir.1
             ∧ (∀ col, col ≠ "default" → ir'.2 !! col = ir.2 !! col)
             ∧ (ir'.2 = ir.2 ∨ at_col ir'.2 "default" = CStr "")
             ∧ Py.contains "pulldata(" (str (at_col ir'.2 "default")) = false
             ∧ Py.contains "${" (str (at_col ir'.2 "default")) = false)
          (rows df) (rows (clean_default_values df)).
Proof.
  intros Hcol. unfold clean_default_values.
  rewrite (has_column_true _ _ Hcol), rows_iterrows.
  apply Forall2_diag_fmap. intros [i r] _. unfold prod_map. cbn [fst snd id].
  split; [done|]. unfold clean_default_row, get, at_col.
  destruct (r !! "default") as [v|] eqn:Hv; cbn [default id].
  - destruct (is_empty v) eqn:He; cbn [negb].
    + rewrite Hv. cbn [default id]. repeat split; [by left|..];
        destruct v as [| |s|n]; try done;
        apply bool_decide_eq_true in He; by subst s.
    + destruct (Py.contains "pulldata(" (str v)) eqn:H1; cbn [orb].
      { rewrite lookup_insert_eq. cbn [default id]. repeat split; [|by right].
        intros col Hne. by rewrite lookup_insert_ne. }
      destruct (Py.contains "${" (str v)) eqn:H2.
      { rewrite lookup_insert_eq. cbn [default id]. repeat split; [|by right].
        intros col Hne. by rewrite lookup_insert_ne. }
      rewrite Hv. cbn [default id]. repeat split; [by left|done..].
  - cbn. rewrite Hv. cbn. repeat split; by left.
Qed.

Lemma clean_default_values_cleans_witness :
  Forall2 (λ ir ir' : Z * row,
             ir'.1 = ir.1
             ∧ (∀ col, col ≠ "default" → ir'.2 !! col = ir.2 !! col)
             ∧ (ir'.2 = ir.2 ∨ at_col ir'.2 "default" = CStr "")
             ∧ Py.contains "pulldata(" (str (at_col ir'.2 "default")) = false
             ∧ Py.contains "${" (str (at_col ir'.2 "default")) = false)
          (rows survey_with_expressions)
          (rows (clean_default_values survey_with_expressions)).
Proof.
  apply clean_default_values_cleans. vm_compute. do 4 right. left.
Defined.

(** ** Label/Hint Fallback Generator: a second run *)

Lemma at_col_fallback df c p n seen r :
  at_col (fallback df c p n seen r) c
  = if has_column df c && is_empty (at_col seen c)
    then CStr (p +:+ str n)
    else at_col r c.
Proof.
  unfold fallback. destruct (has_column df c && is_empty (at_col seen c));
    [apply at_col_insert | done].
Qed.

Lemma at_col_fallback_ne df c p n seen r c' :
  c ≠ c' → at_col (fallback df c p n seen r) c' = at_col r c'.
Proof.
  intros Hne. unfold fallback.
  destruct (has_column df c && is_empty (at_col seen c)); [|done].
  by apply at_col_insert_ne.
Qed.

Lemma fallback_skip df c p n seen r :
  has_column df c && is_empty (at_col seen c) = false →
  fallback df c p n seen r = r.
Proof. unfold fallback. by intros ->. Qed.

Lemma apply_fallbacks_row_idemp df r :
  apply_fallbacks_row df (apply_fallbacks_row df r) = apply_fallbacks_row df r.
Proof.
  unfold apply_fallbacks_row at 2.
  destruct (is_empty (at_col r "name")) eqn:He.
  { unfold apply_fallbacks_row. by rewrite He. }
  cbv zeta. set (n := at_col r "name") in *.
  set (r' := fallback df "hint::Arabic" _ n r _).
  assert (at_col r' "name" = n) as Hname.
  { unfold r'. by rewrite !at_col_fallback_ne by done. }
  assert (∀ c, c ∈ canonical_columns →
               has_column df c && is_empty (at_col r' c) = false) as Htest.
  { intros c Hin. unfold canonical_columns in Hin.
    repeat (apply elem_of_cons in Hin as [->|Hin]);
      [..|by apply elem_of_nil in Hin];
      unfold r';
      repeat first [ rewrite at_col_fallback_ne by done
                   | rewrite at_col_fallback ];
      (destruct (has_column df _) eqn:Hc; [|done]); cbn [andb];
      (destruct (is_empty (at_col r _)) eqn:Hb;
       [by rewrite fallback_text_not_empty | by rewrite Hb]). }
  unfold apply_fallbacks_row. fold n. rewrite Hname, !He. fold r'.
  rewrite !fallback_skip; first done;
    apply Htest; unfold canonical_columns; repeat constructor.
Qed.

(** The Label/Hint Fallback Generator, applied to its own output, returns
    that output. *)
Theorem apply_fallbacks_idempotent df :
  apply_fallbacks (apply_fallbacks df) = apply_fallbacks df.
Proof.
  unfold apply_fallbacks at 2. destruct (has_column df "name") eqn:E.
  - unfold apply_fallbacks.
    rewrite (has_column_columns df (iterrows (apply_fallbacks_row df) df))
      by done.
    rewrite E. apply (iterrows_idemp apply_fallbacks_row).
    + intros df' r H. unfold apply_fallbacks_row, fallback.
      by rewrite !(has_column_columns _ _ _ H).
    + apply apply_fallbacks_row_idemp.
  - unfold apply_fallbacks. by rewrite E.
Qed.

(** ** Field Name Normalizer: the frame *)

Lemma rows_set_values col (rs : list (Z * row)) (vs : list cell) :
  length vs = length rs →
  (zip_with (λ (ir : Z * row) v, (ir.1, <[col := v]> ir.2)) rs vs).*1 = rs.*1
  ∧ (λ ir : Z * row, at_col ir.2 col)
      <$> zip_with (λ (ir : Z * row) v, (ir.1, <[col := v]> ir.2)) rs vs
    = vs
  ∧ Forall2 (λ ir ir' : Z * row,
               ∀ c, c ≠ col → ir'.2 !! c = ir.2 !! c)
            rs (zip_with (λ (ir : Z * row) v, (ir.1, <[col := v]> ir.2)) rs vs).
Proof.
  revert vs. induction rs as [|[i r] rs IH]; intros [|v vs] Hlen; try done.
  injection Hlen as Hlen. destruct (IH vs Hlen) as (IH1 & IH2 & IH3).
  cbn [zip_with fmap list_fmap fst snd]. repeat split.
  - by f_equal.
  - f_equal; [apply at_col_insert | done].
  - constructor; [|done]. intros c Hc. cbn. by rewrite lookup_insert_ne.
Qed.

Lemma length_unique_names names : length (unique_names names) = length names.
Proof. rewrite unique_names_imap. apply length_imap. Qed.

(** On a survey with the name column, the Field Name Normalizer returns a
    survey with the same columns and row labels, in which the name column
    holds the names it has built, one per row, and every other cell is the
    former one.  On a survey without the column it raises [KeyError]. *)
Theorem ensure_unique_names_frame df name_col :
  (name_col ∈ columns df →
   ∃ out, ensure_unique_names df name_col = Ok out
          ∧ columns out = columns df
          ∧ index out = index df
          ∧ column_values name_col out
            = unique_names (column_values name_col df)
          ∧ Forall2 (λ ir ir' : Z * row,
                       ∀ col, col ≠ name_col → ir'.2 !! col = ir.2 !! col)
                    (rows df) (rows out))
  ∧ (name_col ∉ columns df →
     ensure_unique_names df name_col = Raise (KeyError name_col)).
Proof.
  unfold ensure_unique_names, has_column. split; intros Hcol.
  - rewrite bool_decide_eq_true_2 by done. eexists. split; [done|].
    unfold set_values, index, column_values. cbn [columns rows].
    destruct (rows_set_values name_col (rows df)
                (unique_names ((λ ir : Z * row, at_col ir.2 name_col)
                                 <$> rows df))) as (H1 & H2 & H3).
    { by rewrite length_unique_names, length_fmap. }
    repeat split; try done. by apply add_column_elem.
  - by rewrite bool_decide_eq_false_2.
Qed.

(** ** Settings Fixer: what every result has *)

Lemma fix_settings_sheet_as_rows settings_df form_name :
  ∃ df, rows df ≠ []
        ∧ fix_settings_sheet settings_df form_name
          = fix_settings_rows form_name df
        ∧ (∀ df0, settings_df = Some df0 → rows df0 ≠ [] → df = df0).
Proof.
  destruct settings_df as [df|].
  - destruct (decide (rows df = [])) as [He|Hne].
    + exists (Table [] [(0, ∅)]). split; [done|]. split.
      * unfold fix_settings_sheet.
        rewrite bool_decide_eq_true_2 by (by rewrite He).
        apply fix_settings_sheet_fresh.
      * by intros df0 [= <-] ?.
    + exists df. split; [done|]. split; [by apply fix_settings_sheet_rows|].
      by intros df0 [= <-] _.
  - exists (Table [] [(0, ∅)]). split; [done|].
    split; [apply fix_settings_sheet_fresh | done].
Qed.

Lemma iloc0_ensure_field col v df :
  rows df ≠ [] →
  iloc0 col (ensure_field col v df)
  = if negb (has_column df col) || is_empty (iloc0 col df)
    then v else iloc0 col df.
Proof.
  intros Hne. unfold ensure_field.
  destruct (negb (has_column df col) || is_empty (iloc0 col df)); [|done].
  by apply iloc0_set_column.
Qed.

Lemma iloc0_ensure_field_ne c col v df :
  c ≠ col → iloc0 col (ensure_field c v df) = iloc0 col df.
Proof.
  intros Hne. unfold ensure_field. destruct (_ || _); [|done].
  by apply iloc0_set_column_ne.
Qed.

Lemma elem_of_columns_ensure_field c v df col :
  col ∈ columns (ensure_field c v df) ↔ col ∈ columns df ∨ col = c.
Proof.
  unfold ensure_field.
  destruct (negb (has_column df c) || is_empty (iloc0 c df)) eqn:E.
  - rewrite columns_set_column. apply elem_of_add_column.
  - apply orb_false_elim in E as [E _]. apply negb_false_iff in E.
    apply bool_decide_eq_true in E. split; [by left|]. by intros [?| ->].
Qed.

(** Whatever the settings sheet and the form name: the Settings Fixer
    returns a sheet with at least one row and with the columns [form_title],
    [form_id] and [default_language]; the default language is [English] in
    every row; the title of the first row is blank only if the form name is
    the empty text, and the form id of the first row is blank only if
    the form name has no character of a name left in it. *)
Theorem fix_settings_sheet_fields settings_df form_name :
  let out := fix_settings_sheet settings_df form_name in
  rows out ≠ []
  ∧ Forall (λ col, col ∈ columns out)
           ["form_title"; "form_id"; "default_language"]
  ∧ Forall (λ ir : Z * row, at_col ir.2 "default_language" = CStr "English")
           (rows out)
  ∧ (is_empty (iloc0 "form_title" out) = true → form_name = "")
  ∧ (is_empty (iloc0 "form_id" out) = true
     → normalize_name (CStr form_name) = "").
Proof.
  cbv zeta.
  destruct (fix_settings_sheet_as_rows settings_df form_name)
    as (df & Hne & -> & _).
  pose proof (rows_ensure_field_nonempty "form_title" (CStr form_name) _ Hne)
    as Hne1.
  split; [by apply rows_fix_settings_rows_nonempty|].
  unfold fix_settings_rows. split; [|split; [|split]].
  - repeat (apply Forall_cons; split); [..|done];
      rewrite columns_set_column, elem_of_add_column,
        !elem_of_columns_ensure_field; tauto.
  - rewrite rows_set_column. apply Forall_forall.
    intros ir (ir0 & -> & _)%list_elem_of_fmap. apply at_col_insert.
  - rewrite iloc0_set_column_ne, iloc0_ensure_field_ne by done.
    rewrite iloc0_ensure_field by done.
    destruct (negb (has_column df "form_title")
              || is_empty (iloc0 "form_title" df)) eqn:E.
    + intros H%bool_decide_eq_true. done.
    + apply orb_false_elim in E as [_ E]. congruence.
  - rewrite iloc0_set_column_ne by done.
    rewrite iloc0_ensure_field by done.
    destruct (negb (has_column _ "form_id") || is_empty (iloc0 "form_id" _))
      eqn:E.
    + intros H%bool_decide_eq_true. done.
    + apply orb_false_elim in E as [_ E]. congruence.
Qed.

(** A sheet that has a row keeps its row labels and every cell outside the
    three columns; a title that is in the first row and not blank is kept
    in every row, and so is a form id. *)
Theorem fix_settings_sheet_keeps df form_name :
  rows df ≠ [] →
  let out := fix_settings_sheet (Some df) form_name in
  Forall2 (λ ir ir' : Z * row,
             ir'.1 = ir.1
             ∧ (∀ col, col ∉ ["form_title"; "form_id"; "default_language"] →
                       ir'.2 !! col = ir.2 !! col)
             ∧ ("form_title" ∈ columns df →
                is_empty (iloc0 "form_title" df) = false →
                ir'.2 !! "form_title" = ir.2 !! "form_title")
             ∧ ("form_id" ∈ columns df →
                is_empty (iloc0 "form_id" df) = false →
                ir'.2 !! "form_id" = ir.2 !! "form_id"))
          (rows df) (rows out).
Proof.
  intros Hne. cbv zeta. rewrite fix_settings_sheet_rows by done.
  unfold fix_settings_rows, ensure_field.
  destruct (negb (has_column df "form_title")
            || is_empty (iloc0 "form_title" df)) eqn:E1;
    [rewrite has_column_set_column_ne, iloc0_set_column_ne by done|];
    (destruct (negb (has_column df "form_id") || is_empty (iloc0 "form_id" df))
       eqn:E2);
    rewrite !rows_set_column, <- ?list_fmap_compose;
    apply Forall2_diag_fmap; intros [i r] _; unfold prod_map; cbn;
    (split; [done|]); (split; [|split]).
  all: try (intros col Hcol; rewrite !lookup_insert_ne; [done|..];
            intros <-; apply Hcol; repeat constructor).
  all: intros Hc He.
  all: first [ by rewrite (has_column_true _ _ Hc), He in E1
             | by rewrite (has_column_true _ _ Hc), He in E2
             | by rewrite !lookup_insert_ne by done ].
Qed.

Lemma fix_settings_sheet_keeps_witness :
  Forall2 (λ ir ir' : Z * row,
             ir'.1 = ir.1
             ∧ (∀ col, col ∉ ["form_title"; "form_id"; "default_language"] →
                       ir'.2 !! col = ir.2 !! col)
             ∧ ("form_title" ∈ columns settings_with_title →
                is_empty (iloc0 "form_title" settings_with_title) = false →
                ir'.2 !! "form_title" = ir.2 !! "form_title")
             ∧ ("form_id" ∈ columns settings_with_title →
                is_empty (iloc0 "form_id" settings_with_title) = false →
                ir'.2 !! "form_id" = ir.2 !! "form_id"))
          (rows settings_with_title)
          (rows (fix_settings_sheet (Some settings_with_title) "hh_2024")).
Proof.
  apply (fix_settings_sheet_keeps settings_with_title "hh_2024"). done.
Defined.

(** ** Group/Repeat Balance Validator: every survey *)

Lemma scan_row_lengths st x :
  length (missing_end_repeats (scan_row st x))
  = open_from "begin repeat" "end repeat" (length (missing_end_repeats st)) [x]
  ∧ length (missing_end_groups (scan_row st x))
    = open_from "begin group" "end group" (length (missing_end_groups st)) [x].
Proof.
  rewrite scan_row_typed. unfold open_from. cbn [foldl].
  destruct (typed "begin group" x) eqn:E1, (typed "end group" x) eqn:E2,
           (typed "begin repeat" x) eqn:E3, (typed "end repeat" x) eqn:E4;
    try (by pose proof (typed_exclusive _ _ _ E1 E2));
    try (by pose proof (typed_exclusive _ _ _ E1 E3));
    try (by pose proof (typed_exclusive _ _ _ E1 E4));
    try (by pose proof (typed_exclusive _ _ _ E2 E3));
    try (by pose proof (typed_exclusive _ _ _ E2 E4));
    try (by pose proof (typed_exclusive _ _ _ E3 E4));
    cbn [missing_end_repeats missing_end_groups];
    rewrite ?length_app, ?length_pop; cbn [length]; split; lia.
Qed.

(** The two stacks of the first pass hold as many labels as markers are
    left open. *)
Lemma scan_lengths rs st :
  length (missing_end_repeats (foldl scan_row st rs))
  = open_from "begin repeat" "end repeat" (length (missing_end_repeats st)) rs
  ∧ length (missing_end_groups (foldl scan_row st rs))
    = open_from "begin group" "end group" (length (missing_end_groups st)) rs.
Proof.
  revert st. induction rs as [|x rs IH]; intros st; [done|].
  cbn [foldl]. destruct (IH (scan_row st x)) as [-> ->].
  destruct (scan_row_lengths st x) as [-> ->]. done.
Qed.

Lemma open_from_app o c d rs1 rs2 :
  open_from o c d (rs1 ++ rs2) = open_from o c (open_from o c d rs1) rs2.
Proof. unfold open_from. by rewrite foldl_app. Qed.

Lemma typed_snd m (x y : Z * row) : x.2 = y.2 → typed m x = typed m y.
Proof. unfold typed. by intros ->. Qed.

Lemma open_from_rows o c d (rs rs' : list (Z * row)) :
  rs.*2 = rs'.*2 → open_from o c d rs = open_from o c d rs'.
Proof.
  revert d rs'. induction rs as [|x rs IH]; intros d [|y rs'] H; try done.
  injection H as Hxy H. unfold open_from. cbn [foldl].
  rewrite (typed_snd o x y Hxy), (typed_snd c x y Hxy). by apply IH.
Qed.

Lemma typed_closing_row cols marker m i :
  typed m (i, closing_row cols marker)
  = String.eqb (Py.strip marker) m && negb (String.eqb marker "").
Proof.
  unfold typed, closing_row. cbn [snd]. rewrite get_insert. cbn [is_empty str].
  rewrite andb_comm. f_equal. f_equal.
  case_bool_decide as H; [by subst|].
  symmetry. by apply String.eqb_neq.
Qed.

(** A run of [k] closing markers closes up to [k] open markers of their
    kind, and none of the other kind. *)
Lemma open_from_end_repeats d k i cols :
  open_from "begin repeat" "end repeat" d
    (replicate k (i, closing_row cols "end repeat")) = (d - k)%nat
  ∧ open_from "begin group" "end group" d
      (replicate k (i, closing_row cols "end repeat")) = d.
Proof.
  revert d. induction k as [|k IH]; intros d; [split; [cbn; lia | done]|].
  cbn [replicate]. unfold open_from in *. cbn [foldl].
  rewrite !typed_closing_row.
  change (String.eqb (Py.strip "end repeat") "begin repeat") with false.
  change (String.eqb (Py.strip "end repeat") "end repeat") with true.
  change (String.eqb (Py.strip "end repeat") "begin group") with false.
  change (String.eqb (Py.strip "end repeat") "end group") with false.
  cbn [andb negb String.eqb]. destruct (IH (pred d)) as [-> _].
  destruct (IH d) as [_ ->]. split; [lia | done].
Qed.

Lemma open_from_end_groups d k i cols :
  open_from "begin group" "end group" d
    (replicate k (i, closing_row cols "end group")) = (d - k)%nat
  ∧ open_from "begin repeat" "end repeat" d
      (replicate k (i, closing_row cols "end group")) = d.
Proof.
  revert d. induction k as [|k IH]; intros d; [split; [cbn; lia | done]|].
  cbn [replicate]. unfold open_from in *. cbn [foldl].
  rewrite !typed_closing_row.
  change (String.eqb (Py.strip "end group") "begin repeat") with false.
  change (String.eqb (Py.strip "end group") "end repeat") with false.
  change (String.eqb (Py.strip "end group") "begin group") with false.
  change (String.eqb (Py.strip "end group") "end group") with true.
  cbn [andb negb String.eqb]. destruct (IH (pred d)) as [-> _].
  destruct (IH d) as [_ ->]. split; [lia | done].
Qed.

Lemma close_all_seq last cols marker new_rows missing :
  close_all last cols marker new_rows missing
  = new_rows
    ++ ((λ i, (last + 1 + Z.of_nat i, closing_row cols marker))
          <$> seq (length new_rows) (length missing)).
Proof.
  unfold close_all. rewrite <- (length_reverse missing).
  generalize (reverse missing). intros l. revert new_rows.
  induction l as [|x l IH]; intros acc; [by rewrite app_nil_r|].
  cbn [foldl length seq]. rewrite IH, length_app, Nat.add_1_r.
  by rewrite <- app_assoc.
Qed.

Lemma seq_sorted a n : StronglySorted lt (seq a n).
Proof.
  revert a. induction n as [|n IH]; intros a; [constructor|].
  cbn. constructor; [apply IH|].
  apply Forall_forall. intros x Hx%elem_of_seq. lia.
Qed.

Lemma foldl_loc_set_fresh (rs news : list (Z * row)) :
  StronglySorted Z.lt (rs ++ news).*1 → foldl loc_set rs news = rs ++ news.
Proof.
  revert rs. induction news as [|x news IH]; intros rs Hs;
    [by rewrite app_nil_r|].
  cbn [foldl]. rewrite loc_set_fresh.
  - rewrite IH; rewrite <- app_assoc; done.
  - rewrite fmap_app, fmap_cons in Hs. intros Hin.
    pose proof (StronglySorted_app_1_elem_of _ _ _ _ x.1 Hs Hin) as H.
    specialize (H ltac:(left)). lia.
Qed.

Lemma reset_index_sorted (rs : list (Z * row)) :
  rs.*1 = Z.of_nat <$> seq 0 (length rs) → reset_index rs = rs.
Proof.
  intros H. apply list_eq. intros i. unfold reset_index.
  rewrite list_lookup_imap. destruct (rs !! i) as [[k r]|] eqn:E; [|done].
  cbn. f_equal. f_equal.
  apply (f_equal (λ l, l !! i)) in H.
  rewrite !list_lookup_fmap, E in H. cbn in H.
  apply lookup_lt_Some in E. rewrite lookup_seq_lt in H by done.
  cbn in H. by injection H.
Qed.

Lemma seq_labels_sorted n : StronglySorted Z.lt (Z.of_nat <$> seq 0 n).
Proof.
  apply (StronglySorted_fmap _ lt); [lia | apply seq_sorted].
Qed.

Lemma validate_group_repeat_logic_rows df :
  "type" ∈ columns df →
  increasing_index df →
  validate_group_repeat_logic df
  = Table (columns df)
      (reset_index
         (rows df
          ++ ((λ i, (List.last (index df) 0 + 1 + Z.of_nat i,
                     closing_row (columns df) "end repeat"))
                <$> seq 0 (open_after "begin repeat" "end repeat" (rows df)))
          ++ ((λ i, (List.last (index df) 0 + 1 + Z.of_nat i,
                     closing_row (columns df) "end group"))
                <$> seq (open_after "begin repeat" "end repeat" (rows df))
                      (open_after "begin group" "end group" (rows df))))).
Proof.
  intros Hcol Hidx. unfold validate_group_repeat_logic.
  rewrite (has_column_true _ _ Hcol). cbn [negb]. cbv zeta.
  destruct (scan_lengths (rows df) (Scan 0 0 [] [])) as [Hr Hg].
  cbn [missing_end_repeats missing_end_groups length] in Hr, Hg.
  fold (open_after "begin repeat" "end repeat" (rows df)) in Hr.
  fold (open_after "begin group" "end group" (rows df)) in Hg.
  rewrite !close_all_seq, Hr, Hg. cbn [length app]. rewrite length_fmap, length_seq.
  set (last := List.last (index df) 0).
  set (k := open_after "begin repeat" "end repeat" (rows df)).
  set (m := open_after "begin group" "end group" (rows df)).
  set (news := _ ++ _).
  assert (news.*1 = (λ i, last + 1 + Z.of_nat i) <$> seq 0 (k + m)) as Hnews.
  { unfold news. rewrite fmap_app, <- !list_fmap_compose, seq_app.
    by rewrite fmap_app. }
  assert (StronglySorted Z.lt (rows df ++ news).*1) as Hs.
  { rewrite fmap_app. apply StronglySorted_app_2.
    - intros a b Ha Hb. apply elem_of_increasing_le_last in Ha; [|done].
      rewrite Hnews in Hb. apply list_elem_of_fmap in Hb as (i & -> & _).
      unfold last, index. lia.
    - done.
    - rewrite Hnews. apply (StronglySorted_fmap _ lt); [lia | apply seq_sorted]. }
  rewrite foldl_loc_set_fresh by done.
  rewrite sort_index_sorted by (by apply increasing_labels_sorted).
  done.
Qed.

Lemma validate_group_repeat_logic_cells df :
  "type" ∈ columns df →
  increasing_index df →
  (rows (validate_group_repeat_logic df)).*2
  = (rows df
     ++ replicate (open_after "begin repeat" "end repeat" (rows df))
          (0, closing_row (columns df) "end repeat")
     ++ replicate (open_after "begin group" "end group" (rows df))
          (0, closing_row (columns df) "end group")).*2.
Proof.
  intros Hcol Hidx. rewrite validate_group_repeat_logic_rows by done.
  cbn [rows].
  set (k := open_after "begin repeat" "end repeat" (rows df)).
  set (m := open_after "begin group" "end group" (rows df)).
  rewrite reset_index_rows, !fmap_app, <- !list_fmap_compose.
  rewrite !fmap_replicate. f_equal. f_equal.
  - generalize 0%nat. induction k as [|k IH]; intros a; [done|].
    cbn. by rewrite IH.
  - generalize k. clear. induction m as [|m IH]; intros a; [done|].
    cbn. by rewrite IH.
Qed.

Lemma validate_group_repeat_logic_labels df :
  "type" ∈ columns df →
  increasing_index df →
  index (validate_group_repeat_logic df)
  = Z.of_nat <$> seq 0 (length (rows (validate_group_repeat_logic df))).
Proof.
  intros Hcol Hidx. rewrite validate_group_repeat_logic_rows by done.
  unfold index at 1. cbn [rows]. rewrite length_reset_index.
  apply reset_index_labels.
Qed.

Lemma validate_group_repeat_logic_balanced df :
  "type" ∈ columns df →
  increasing_index df →
  open_after "begin repeat" "end repeat"
    (rows (validate_group_repeat_logic df)) = 0%nat
  ∧ open_after "begin group" "end group"
      (rows (validate_group_repeat_logic df)) = 0%nat.
Proof.
  intros Hcol Hidx.
  pose proof (validate_group_repeat_logic_cells df Hcol Hidx) as Hrows.
  set (k := open_after "begin repeat" "end repeat" (rows df)) in *.
  set (m := open_after "begin group" "end group" (rows df)) in *.
  unfold open_after. rewrite !(open_from_rows _ _ _ _ _ Hrows), !open_from_app.
  split.
  - fold (open_after "begin repeat" "end repeat" (rows df)). fold k.
    destruct (open_from_end_repeats k k 0 (columns df)) as [-> _].
    destruct (open_from_end_groups (k - k) m 0 (columns df)) as [_ ->]. lia.
  - fold (open_after "begin group" "end group" (rows df)). fold m.
    destruct (open_from_end_repeats m k 0 (columns df)) as [_ ->].
    destruct (open_from_end_groups m m 0 (columns df)) as [-> _]. lia.
Qed.

(** On a survey with a type column and row labels that go up, the
    validator keeps the rows and adds, after them, one [end repeat] row for
    every repeat left open and then one [end group] row for every group left
    open, whatever the order in which they were opened; a closing marker with
    nothing to close is passed over.  In the result no repeat and no group is
    left open. *)
Theorem validate_group_repeat_logic_appends df :
  "type" ∈ columns df →
  increasing_index df →
  let out := validate_group_repeat_logic df in
  closings_appended df out
  ∧ open_after "begin repeat" "end repeat" (rows out) = 0%nat
  ∧ open_after "begin group" "end group" (rows out) = 0%nat.
Proof.
  intros Hcol Hidx. cbv zeta.
  split; [|by apply validate_group_repeat_logic_balanced].
  unfold closings_appended. split; [|split].
  - by rewrite validate_group_repeat_logic_rows.
  - rewrite validate_group_repeat_logic_cells by done.
    by rewrite !fmap_app, !fmap_replicate.
  - by apply validate_group_repeat_logic_labels.
Qed.

Lemma validate_group_repeat_logic_appends_witness :
  closings_appended survey_nested_open
    (validate_group_repeat_logic survey_nested_open)
  ∧ open_after "begin repeat" "end repeat"
      (rows (validate_group_repeat_logic survey_nested_open)) = 0%nat
  ∧ open_after "begin group" "end group"
      (rows (validate_group_repeat_logic survey_nested_open)) = 0%nat.
Proof.
  apply validate_group_repeat_logic_appends.
  - vm_compute. left.
  - unfold increasing_index. vm_compute. repeat constructor.
Defined.

(** The sample survey opens a repeat and then a group inside it; the
    validator closes the repeat first. *)
Lemma validate_group_repeat_logic_example :
  (λ ir : Z * row, at_col ir.2 "type")
    <$> rows (validate_group_repeat_logic survey_nested_open)
  = [CStr "begin repeat"; CStr "begin group"; CStr "text";
     CStr "end repeat"; CStr "end group"].
Proof. vm_compute. reflexivity. Qed.

(** On a survey with row labels that go up, the validator, applied to its
    own output, returns that output. *)
Theorem validate_group_repeat_logic_idempotent df :
  increasing_index df →
  validate_group_repeat_logic (validate_group_repeat_logic df)
  = validate_group_repeat_logic df.
Proof.
  intros Hidx. destruct (decide ("type" ∈ columns df)) as [Hcol|Hcol].
  2: { assert (validate_group_repeat_logic df = df) as H.
       { unfold validate_group_repeat_logic, has_column.
         by rewrite bool_decide_eq_false_2. }
       by rewrite !H. }
  destruct (validate_group_repeat_logic_balanced df Hcol Hidx) as [Hr Hg].
  pose proof (validate_group_repeat_logic_labels df Hcol Hidx) as Hlab.
  assert (columns (validate_group_repeat_logic df) = columns df) as Hcols
    by (by rewrite validate_group_repeat_logic_rows).
  set (out := validate_group_repeat_logic df) in *.
  assert ("type" ∈ columns out) as Hcol' by (by rewrite Hcols).
  assert (increasing_index out) as Hidx'.
  { unfold increasing_index. rewrite Hlab. apply seq_labels_sorted. }
  rewrite (validate_group_repeat_logic_rows out Hcol' Hidx').
  rewrite Hr, Hg. cbn [seq fmap list_fmap]. rewrite !app_nil_r.
  unfold index in Hlab. rewrite reset_index_sorted by done.
  by destruct out.
Qed.

Lemma validate_group_repeat_logic_idempotent_witness :
  validate_group_repeat_logic (validate_group_repeat_logic survey_nested_open)
  = validate_group_repeat_logic survey_nested_open.
Proof.
  apply validate_group_repeat_logic_idempotent.
  unfold increasing_index. vm_compute. repeat constructor.
Defined.

(** ** Cascading Select Fixer: a second run *)

Lemma lookup_pad cols (r : row) c :
  pd.pad cols r !! c
  = match r !! c with
    | Some v => Some v
    | None => if bool_decide (c ∈ cols) then Some CNaN else None
    end.
Proof.
  unfold pd.pad. revert c. induction cols as [|col cols IH]; intros c; cbn [foldr].
  - by destruct (r !! c).
  - destruct (foldr _ r cols !! col) as [v|] eqn:E.
    + rewrite IH. destruct (r !! c) eqn:Hr; [done|].
      destruct (decide (c = col)) as [->|Hne].
      * rewrite IH, Hr in E.
        rewrite (bool_decide_eq_true_2 (col ∈ col :: cols)) by left.
        by case_bool_decide.
      * rewrite (bool_decide_ext (c ∈ col :: cols) (c ∈ cols)); [done|].
        rewrite elem_of_cons. tauto.
    + destruct (decide (c = col)) as [->|Hne].
      * rewrite lookup_insert_eq. rewrite IH in E.
        rewrite (bool_decide_eq_true_2 (col ∈ col :: cols)) by left.
        by destruct (r !! col).
      * rewrite lookup_insert_ne, IH by done. destruct (r !! c); [done|].
        rewrite (bool_decide_ext (c ∈ col :: cols) (c ∈ cols)); [done|].
        rewrite elem_of_cons. tauto.
Qed.

Lemma pad_idemp cols (r : row) : pd.pad cols (pd.pad cols r) = pd.pad cols r.
Proof.
  apply map_eq. intros c. rewrite !lookup_pad.
  destruct (r !! c); [done|]. by case_bool_decide.
Qed.

Lemma reset_index_ext (rs rs' : list (Z * row)) :
  rs.*2 = rs'.*2 → reset_index rs = reset_index rs'.
Proof.
  intros H. apply list_eq. intros i. unfold reset_index.
  rewrite !list_lookup_imap.
  apply (f_equal (λ l, l !! i)) in H. rewrite !list_lookup_fmap in H.
  destruct (rs !! i) as [[? ?]|], (rs' !! i) as [[? ?]|]; cbn in *; congruence.
Qed.

Lemma foldl_add_column_elem cols new :
  Forall (λ c, c ∈ cols) new → foldl add_column cols new = cols.
Proof.
  induction new as [|c new IH]; [done|].
  intros [Hc Hnew]%Forall_cons. cbn [foldl].
  rewrite add_column_elem by done. by apply IH.
Qed.

Lemma foldl_add_column_idemp cols new :
  foldl add_column (foldl add_column cols new) new = foldl add_column cols new.
Proof.
  apply foldl_add_column_elem, Forall_forall. intros c Hc.
  apply elem_of_foldl_add_column. by right.
Qed.

Lemma fix_cascading_selects_seed :
  fix_cascading_selects (Some create_standard_location_choices)
  = Ok create_standard_location_choices.
Proof. vm_compute. reflexivity. Qed.

(** The Cascading Select Fixer, applied to a sheet it has returned, returns
    that sheet. *)
Theorem fix_cascading_selects_idempotent choices_df out :
  fix_cascading_selects choices_df = Ok out →
  fix_cascading_selects (Some out) = Ok out.
Proof.
  assert (∀ df, rows df ≠ [] → fix_cascading_selects (Some df) = Ok out →
                fix_cascading_selects (Some out) = Ok out) as Hrows.
  2: { destruct choices_df as [df|].
       - destruct (decide (rows df = [])) as [He|Hne]; [|by apply Hrows].
         unfold fix_cascading_selects at 1.
         rewrite bool_decide_eq_true_2 by (by rewrite He).
         intros [= <-]. apply fix_cascading_selects_seed.
       - intros [= <-]. apply fix_cascading_selects_seed. }
  intros df Hne. unfold fix_cascading_selects at 1.
  rewrite bool_decide_eq_false_2 by (by destruct (rows df)).
  destruct (has_column df "list_name") eqn:Hcol; [|done].
  intros [= <-]. unfold fix_cascading_selects, pd.concat.
  cbn [rows columns].
  set (seed := create_standard_location_choices).
  set (kept := filter _ (rows df)).
  set (cols := foldl add_column (columns df) (columns seed)).
  destruct create_standard_location_choices_hierarchy as (Hlen & Hseed & _).
  fold seed in Hlen, Hseed.
  rewrite bool_decide_eq_false_2.
  2: { rewrite length_reset_index, length_fmap, length_app, Hlen. lia. }
  assert (has_column (Table cols (reset_index (prod_map id (pd.pad cols)
                                                <$> kept ++ rows seed)))
            "list_name" = true) as ->.
  { apply has_column_true. cbn [columns]. unfold cols.
    apply elem_of_foldl_add_column. right. vm_compute. left. }
  assert (foldl add_column cols (columns seed) = cols) as ->
    by apply foldl_add_column_idemp.
  assert (Forall (λ ir : Z * row, reserved ir.2 = false) kept) as Hkept.
  { apply Forall_forall. intros ir Hin. unfold kept in Hin.
    by apply list_elem_of_filter in Hin as [H _]. }
  clearbody cols kept. clearbody seed.
  do 2 f_equal. apply reset_index_ext.
  rewrite !snd_prod_map_fmap, !fmap_app.
  rewrite <- (filter_fmap (λ r : row, reserved r = false) _ snd) by done.
  rewrite reset_index_rows, fmap_app, !snd_prod_map_fmap, <- fmap_app.
  rewrite filter_app.
  rewrite !(filter_fmap _ (λ r, reserved r = false))
    by (intros r; by rewrite reserved_pad).
  rewrite (filter_all_false _ (rows seed).*2).
  2: { apply Forall_fmap. eapply Forall_impl; [exact Hseed|].
       intros ir H1 H2. unfold compose in H2. congruence. }
  rewrite filter_all_true by (by apply Forall_fmap).
  rewrite fmap_nil, app_nil_r, fmap_app, <- list_fmap_compose. f_equal.
  apply list_fmap_ext. intros _ r _. cbn. apply pad_idemp.
Qed.

Lemma fix_cascading_selects_idempotent_witness :
  fix_cascading_selects (Some create_standard_location_choices)
  = Ok create_standard_location_choices.
Proof.
  apply (fix_cascading_selects_idempotent None). reflexivity.
Defined.

(** ** The conversion of the survey sheet *)

(** *** Rows of the validator and of the pruner *)

Lemma elem_of_loc_set rs new x : x ∈ loc_set rs new → x ∈ rs ∨ x = new.
Proof.
  unfold loc_set. case_bool_decide.
  - intros (y & -> & Hy)%list_elem_of_fmap. case_bool_decide; [by right|by left].
  - intros [?|?%list_elem_of_singleton]%elem_of_app; [by left|by right].
Qed.

Lemma elem_of_foldl_loc_set news rs x :
  x ∈ foldl loc_set rs news → x ∈ rs ∨ x ∈ news.
Proof.
  revert rs. induction news as [|new news IH]; intros rs; cbn [foldl].
  - by left.
  - intros [[?| ->]%elem_of_loc_set|?]%IH.
    + by left.
    + right. left.
    + right. by right.
Qed.

Lemma elem_of_insert_by_label x y l :
  x ∈ insert_by_label y l ↔ x = y ∨ x ∈ l.
Proof.
  induction l as [|z l IH]; cbn [insert_by_label].
  - rewrite list_elem_of_singleton, elem_of_nil. tauto.
  - case_bool_decide; rewrite !elem_of_cons, ?IH; tauto.
Qed.

Lemma elem_of_sort_index x rs : x ∈ sort_index rs ↔ x ∈ rs.
Proof.
  unfold sort_index. induction rs as [|y rs IH]; [done|].
  cbn [foldr]. rewrite elem_of_insert_by_label, elem_of_cons, IH. tauto.
Qed.

(** Every row of the validator's result is a row of its input or one of
    the two closing rows, also when row labels collide. *)
Lemma validate_group_repeat_logic_row df r :
  r ∈ (rows (validate_group_repeat_logic df)).*2 →
  r ∈ (rows df).*2
  ∨ r = closing_row (columns df) "end repeat"
  ∨ r = closing_row (columns df) "end group".
Proof.
  unfold validate_group_repeat_logic.
  destruct (has_column df "type"); cbn [negb]; [|by left].
  cbv zeta. cbn [rows]. rewrite reset_index_rows, !close_all_seq.
  intros ([i r'] & -> & Hin)%list_elem_of_fmap. cbn [snd].
  apply elem_of_sort_index, elem_of_foldl_loc_set in Hin as [Hin|Hin].
  - left. by apply (list_elem_of_fmap_2 snd) in Hin.
  - right. cbn [app] in Hin.
    apply elem_of_app in Hin as [Hin|Hin];
      apply list_elem_of_fmap in Hin as (k & [= _ ->] & _); [by left|by right].
Qed.

Lemma lookup_foldr_delete_elem (r : row) cols col :
  col ∈ cols → foldr delete r cols !! col = None.
Proof.
  induction cols as [|c cols IH]; [by intros ?%elem_of_nil|].
  intros Hin. cbn. destruct (decide (c = col)) as [->|Hne].
  - apply lookup_delete_eq.
  - rewrite lookup_delete_ne by done. apply IH.
    by apply elem_of_cons in Hin as [?|?].
Qed.

(** A cell of the pruner's result is the former cell, or it is missing
    because its column was dropped: a column of missing cells, or an unused
    one. *)
Lemma remove_redundant_columns_row df ir' :
  ir' ∈ rows (remove_redundant_columns df) →
  ∃ ir, ir ∈ rows df
        ∧ ∀ col, at_col ir'.2 col = at_col ir.2 col
                 ∨ at_col ir'.2 col = CNaN
                   ∧ (pd.isna (at_col ir.2 col) = true
                      ∨ col ∈ unused_columns).
Proof.
  rewrite rows_remove_redundant.
  intros ([i r] & -> & Hin)%list_elem_of_fmap. exists (i, r). split; [done|].
  intros col. unfold prod_map. cbn [fst snd].
  set (A := filter (λ col, all_na df col = true) (columns df)).
  set (B := filter _ unused_columns).
  destruct (decide (col ∈ B)) as [HB|HB].
  { right. split.
    - unfold at_col. by rewrite lookup_foldr_delete_elem.
    - right. by apply list_elem_of_filter in HB as [_ ?]. }
  rewrite at_col_foldr_delete by done.
  destruct (decide (col ∈ A)) as [HA|HA].
  - right. split.
    + unfold at_col. by rewrite lookup_foldr_delete_elem.
    + left. apply list_elem_of_filter in HA as [HA _].
      apply all_na_Forall in HA. rewrite Forall_forall in HA.
      by apply (HA (i, r)).
  - left. by apply at_col_foldr_delete.
Qed.

Lemma isna_is_empty c : pd.isna c = true → is_empty c = true.
Proof. by destruct c. Qed.

(** *** The three properties of a row, stage by stage *)

Lemma type_converted_ext (r r' : row) :
  at_col r' "type" = at_col r "type" → type_converted r → type_converted r'.
Proof. unfold type_converted. by intros ->. Qed.

Lemma labels_filled_ext (r r' : row) :
  at_col r' "name" = at_col r "name" →
  (∀ col, col ∈ canonical_columns → at_col r' col = at_col r col) →
  labels_filled r → labels_filled r'.
Proof.
  unfold labels_filled. intros Hn Hc H Hname. rewrite Hn in Hname.
  specialize (H Hname). rewrite Forall_forall in H. apply Forall_forall.
  intros col Hin. rewrite Hc by done. by apply H.
Qed.

Lemma type_converted_text (r : row) :
  at_col r "type" = CStr "text" → type_converted r.
Proof. intros H. right. by rewrite H. Qed.

Lemma type_converted_closing_row cols marker :
  marker ∈ ["end repeat"; "end group"] →
  type_converted (closing_row cols marker).
Proof.
  intros H. right. rewrite closing_row_type.
  repeat (apply elem_of_cons in H as [->|H]); [done..|by apply elem_of_nil in H].
Qed.

Lemma name_closing_row cols marker :
  "name" ∈ cols → at_col (closing_row cols marker) "name" = CStr "".
Proof.
  intros H. apply at_col_Some. by apply closing_row_other.
Qed.

Lemma canonical_not_type_name col :
  col ∈ canonical_columns →
  col ≠ "type" ∧ col ≠ "name" ∧ col ≠ "calculation" ∧ col ≠ "default"
  ∧ col ∉ unused_columns.
Proof.
  unfold canonical_columns. intros H.
  repeat (apply elem_of_cons in H as [->|H]); [..|by apply elem_of_nil in H];
    repeat split; try done;
    unfold unused_columns; rewrite !elem_of_cons, elem_of_nil;
    intuition congruence.
Qed.

Lemma fix_field_types_type_converted df :
  "type" ∈ columns df →
  Forall (λ ir : Z * row, type_converted ir.2) (rows (fix_field_types df)).
Proof.
  intros Hcol. unfold fix_field_types. rewrite rows_iterrows.
  apply Forall_fmap, Forall_forall. intros [i r] _. cbn.
  by apply fix_type_vocabulary.
Qed.

Lemma apply_fallbacks_labels_filled df :
  "name" ∈ columns df →
  Forall (λ col, col ∈ columns df) canonical_columns →
  Forall (λ ir : Z * row, type_converted ir.2) (rows df) →
  Forall (λ ir : Z * row, type_converted ir.2 ∧ labels_filled ir.2)
         (rows (apply_fallbacks df)).
Proof.
  intros Hname Hcols Ht. unfold apply_fallbacks.
  rewrite (has_column_true _ _ Hname), rows_iterrows.
  apply Forall_fmap, Forall_forall. intros [i r] Hin.
  rewrite Forall_forall in Ht. specialize (Ht _ Hin).
  destruct (apply_fallbacks_row_applied df i r Hname Hcols) as [_ H].
  cbn [fst snd compose prod_map] in *.
  destruct (is_empty (at_col r "name")) eqn:He.
  - rewrite H. split; [done|]. unfold labels_filled. congruence.
  - destruct H as [Hfill Hother]. split.
    + apply (type_converted_ext r); [|done]. unfold at_col.
      rewrite Hother; [done|]. intros Hc.
      by apply canonical_not_type_name in Hc as (? & _).
    + intros _. apply Forall_forall. intros col Hc.
      rewrite Forall_forall in Hfill.
      unfold canonical_columns in Hc.
      repeat (apply elem_of_cons in Hc as [->|Hc]);
        [..|by apply elem_of_nil in Hc].
      * apply (Hfill ("label::English", "Input for ")). repeat constructor.
      * apply (Hfill ("label::Arabic", "إدخال لـ ")). repeat constructor.
      * apply (Hfill ("hint::English", "Hint for ")). repeat constructor.
      * apply (Hfill ("hint::Arabic", "تلميح لـ ")). repeat constructor.
Qed.

Lemma clean_calculation_fields_keeps df :
  Forall (λ ir : Z * row, type_converted ir.2 ∧ labels_filled ir.2) (rows df) →
  Forall (λ ir : Z * row, type_converted ir.2 ∧ labels_filled ir.2)
         (rows (clean_calculation_fields df)).
Proof.
  intros H. unfold clean_calculation_fields. rewrite rows_iterrows.
  apply Forall_fmap, Forall_forall. intros [i r] Hin.
  rewrite Forall_forall in H. destruct (H _ Hin) as [Ht Hl].
  cbn [fst snd compose prod_map] in *.
  destruct (clean_calculation_row_cases df r) as [->| ->]; [done|].
  split.
  - apply type_converted_text.
    destruct (has_column df "calculation");
      by rewrite ?at_col_insert_ne, at_col_insert by done.
  - apply (labels_filled_ext r); [| |done].
    + destruct (has_column df "calculation");
        by rewrite !at_col_insert_ne by done.
    + intros col (? & ? & ? & ? & _)%canonical_not_type_name.
      destruct (has_column df "calculation");
        by rewrite !at_col_insert_ne by done.
Qed.

Lemma clean_default_values_keeps df :
  Forall (λ ir : Z * row, type_converted ir.2 ∧ labels_filled ir.2) (rows df) →
  Forall (λ ir : Z * row, type_converted ir.2 ∧ labels_filled ir.2)
         (rows (clean_default_values df)).
Proof.
  intros H. unfold clean_default_values.
  destruct (has_column df "default"); [|done]. rewrite rows_iterrows.
  apply Forall_fmap, Forall_forall. intros [i r] Hin.
  rewrite Forall_forall in H. destruct (H _ Hin) as [Ht Hl].
  cbn [fst snd compose prod_map] in *.
  destruct (clean_default_row_cases r) as [->| ->]; [done|].
  split.
  - apply (type_converted_ext r); [|done]. by apply at_col_insert_ne.
  - apply (labels_filled_ext r); [| |done].
    + by apply at_col_insert_ne.
    + intros col (? & ? & ? & ? & _)%canonical_not_type_name.
      by apply at_col_insert_ne.
Qed.

Lemma unique_name_blank earlier name :
  is_empty (unique_name earlier name) = false → is_empty name = false.
Proof.
  unfold unique_name. destruct (is_empty name) eqn:E; [|done]. congruence.
Qed.

Lemma set_unique_names_converted (rs : list (Z * row)) :
  Forall (λ ir : Z * row, type_converted ir.2 ∧ labels_filled ir.2) rs →
  Forall (λ ir : Z * row, converted_row ir.2)
         (zip_with (λ (ir : Z * row) v, (ir.1, <["name" := v]> ir.2)) rs
            (unique_names ((λ ir : Z * row, at_col ir.2 "name") <$> rs))).
Proof.
  intros H. apply Forall_lookup. intros i [k r'] Hi.
  apply lookup_zip_with_Some in Hi as ([j r] & v & [= -> ->] & Hr & Hv).
  rewrite Forall_lookup in H. destruct (H _ _ Hr) as [Ht Hl]. cbn [snd] in *.
  pose proof (unique_names_normalized
                ((λ ir : Z * row, at_col ir.2 "name") <$> rs)) as Hn.
  rewrite Forall_lookup in Hn. specialize (Hn _ _ Hv).
  rewrite unique_names_imap, list_lookup_imap, list_lookup_fmap, Hr in Hv.
  cbn in Hv. injection Hv as <-.
  split; [|split].
  - apply (type_converted_ext r); [|done]. by apply at_col_insert_ne.
  - by rewrite at_col_insert.
  - intros Hname. rewrite at_col_insert in Hname.
    apply unique_name_blank in Hname. specialize (Hl Hname).
    rewrite Forall_forall in Hl. apply Forall_forall. intros col Hc.
    apply canonical_not_type_name in Hc as Hne. destruct Hne as (_ & ? & _).
    rewrite at_col_insert_ne by done. by apply Hl.
Qed.

Lemma validate_group_repeat_logic_converted df :
  "name" ∈ columns df →
  Forall (λ ir : Z * row, converted_row ir.2) (rows df) →
  Forall (λ ir : Z * row, converted_row ir.2)
         (rows (validate_group_repeat_logic df)).
Proof.
  intros Hname H. apply Forall_forall. intros ir Hin.
  apply (list_elem_of_fmap_2 snd) in Hin.
  apply validate_group_repeat_logic_row in Hin as [Hin|Hin].
  - apply list_elem_of_fmap in Hin as (ir0 & -> & Hin).
    rewrite Forall_forall in H. by apply H.
  - assert (∃ marker, marker ∈ ["end repeat"; "end group"]
                      ∧ ir.2 = closing_row (columns df) marker)
      as (marker & Hm & ->).
    { destruct Hin as [->| ->]; eexists; (split; [|done]); repeat constructor. }
    split; [by apply type_converted_closing_row|].
    split.
    + left. by rewrite name_closing_row.
    + intros Hn. by rewrite name_closing_row in Hn.
Qed.

Lemma remove_redundant_columns_converted df :
  Forall (λ ir : Z * row, converted_row ir.2) (rows df) →
  Forall (λ ir : Z * row, converted_row ir.2)
         (rows (remove_redundant_columns df)).
Proof.
  intros H. apply Forall_forall. intros ir' Hin.
  rewrite Forall_forall in H.
  destruct (remove_redundant_columns_row df ir' Hin) as (ir & Hir & Hcell).
  destruct (H _ Hir) as (Ht & Hn & Hl). split; [|split].
  - destruct (Hcell "type") as [Hc|[Hc _]].
    + by apply (type_converted_ext ir.2).
    + left. by rewrite Hc.
  - destruct (Hcell "name") as [Hc|[Hc _]]; rewrite Hc; [done|by left].
  - intros Hname. destruct (Hcell "name") as [Hc|[Hc _]];
      rewrite Hc in Hname; [|done].
    specialize (Hl Hname). rewrite Forall_forall in Hl.
    apply Forall_forall. intros col Hcol.
    destruct (Hcell col) as [Hc'|[_ [Hna|Hun]]].
    + rewrite Hc'. by apply Hl.
    + apply isna_is_empty in Hna. by rewrite (Hl col Hcol) in Hna.
    + by apply canonical_not_type_name in Hcol as (_ & _ & _ & _ & ?).
Qed.

Lemma columns_iterrows body df : columns (iterrows body df) = columns df.
Proof. done. Qed.

Lemma columns_apply_fallbacks df : columns (apply_fallbacks df) = columns df.
Proof. unfold apply_fallbacks. by destruct (has_column df "name"). Qed.

Lemma columns_clean_default_values df :
  columns (clean_default_values df) = columns df.
Proof. unfold clean_default_values. by destruct (has_column df "default"). Qed.

(** The columns of the sheet that reaches the Field Name Normalizer. *)
Lemma columns_before_names df :
  columns (clean_default_values
             (clean_calculation_fields
                (apply_fallbacks
                   (fix_field_types (normalize_language_columns df)))))
  = columns (normalize_language_columns df).
Proof.
  rewrite columns_clean_default_values. unfold clean_calculation_fields.
  rewrite columns_iterrows, columns_apply_fallbacks. done.
Qed.

Lemma elem_of_columns_normalize_kept df col :
  col ∈ ["name"; "type"] →
  col ∈ columns (normalize_language_columns df) ↔ col ∈ columns df.
Proof.
  intros H. rewrite elem_of_columns_normalize.
  repeat (apply elem_of_cons in H as [->|H]); [..|by apply elem_of_nil in H];
    (split; [intros [[?|Hc] _]; [done|] | intros ?; split; [by left|done]]);
    unfold canonical_columns in Hc;
    repeat (apply elem_of_cons in Hc as [?|Hc]); try done;
    by apply elem_of_nil in Hc.
Qed.

(** A survey with a name column and a type column is converted, and every
    row of the result has a type that is blank or, once stripped, in the
    vocabulary of types; a name that is blank or made of characters in
    [a-z0-9_]; and, when its name is not blank, a label and a hint in both
    languages that are not blank. *)
Theorem final_survey_df_converted survey_df :
  "name" ∈ columns survey_df →
  "type" ∈ columns survey_df →
  ∃ out, final_survey_df survey_df = Ok out
         ∧ Forall (λ ir : Z * row, converted_row ir.2) (rows out).
Proof.
  intros Hname Htype. unfold final_survey_df. cbv zeta.
  set (normalized := normalize_language_columns survey_df).
  assert ("name" ∈ columns normalized) as Hname'.
  { apply elem_of_columns_normalize_kept; [repeat constructor | done]. }
  assert ("type" ∈ columns normalized) as Htype'.
  { apply elem_of_columns_normalize_kept; [repeat constructor | done]. }
  assert (Forall (λ col, col ∈ columns normalized) canonical_columns) as Hcols.
  { apply Forall_forall. intros col Hc. apply elem_of_columns_normalize.
    split; [by right | by apply to_drop_canonical]. }
  set (defaults := clean_default_values _).
  assert (columns defaults = columns normalized) as Hcd
    by apply columns_before_names.
  assert (Forall (λ ir : Z * row, type_converted ir.2 ∧ labels_filled ir.2)
                 (rows defaults)) as Hrows.
  { apply clean_default_values_keeps, clean_calculation_fields_keeps.
    apply apply_fallbacks_labels_filled; [done..|].
    by apply fix_field_types_type_converted. }
  unfold ensure_unique_names.
  rewrite (has_column_true defaults "name") by (by rewrite Hcd).
  eexists. split; [done|].
  apply remove_redundant_columns_converted.
  apply validate_group_repeat_logic_converted.
  - cbn [columns set_values]. apply elem_of_add_column. by right.
  - cbn [rows set_values]. by apply set_unique_names_converted.
Qed.

Lemma final_survey_df_converted_witness :
  ∃ out, final_survey_df survey_with_expressions = Ok out
         ∧ Forall (λ ir : Z * row, converted_row ir.2) (rows out).
Proof.
  apply final_survey_df_converted; vm_compute; repeat constructor.
Defined.

(** The conversion of a survey stops with [KeyError] exactly when the survey
    has no name column. *)
Theorem final_survey_df_raises survey_df :
  final_survey_df survey_df = Raise (KeyError "name")
  ↔ "name" ∉ columns survey_df.
Proof.
  unfold final_survey_df. cbv zeta. unfold ensure_unique_names, has_column.
  rewrite columns_before_names.
  rewrite (bool_decide_ext _ ("name" ∈ columns survey_df))
    by (apply elem_of_columns_normalize_kept; repeat constructor).
  case_bool_decide; split; done.
Qed.

(** ** The sheets prepared for the editor *)

Lemma astype_str_rows df cols :
  Forall (λ c, c ∈ columns df) cols →
  foldl astype_str df cols
  = Table (columns df)
      (prod_map id
         (λ r : row, foldl (λ r col, <[col := CStr (str (at_col r col))]> r)
                       r cols)
         <$> rows df).
Proof.
  revert df. induction cols as [|col cols IH]; intros df Hcols; cbn [foldl].
  - destruct df as [cs rs]. cbn. f_equal. symmetry. by apply prod_map_id_fmap.
  - apply Forall_cons in Hcols as [Hcol Hcols].
    assert (columns (astype_str df col) = columns df) as Hc
      by (by apply add_column_elem).
    rewrite IH by (by rewrite Hc). rewrite Hc. f_equal.
    unfold astype_str, assign. cbn [rows].
    rewrite <- list_fmap_compose. apply list_fmap_ext. by intros _ [i r] _.
Qed.

Lemma lookup_foldl_astype (r : row) cols c :
  foldl (λ r col, <[col := CStr (str (at_col r col))]> r) r cols !! c
  = if bool_decide (c ∈ cols) then Some (CStr (str (at_col r c))) else r !! c.
Proof.
  revert r. induction cols as [|col cols IH]; intros r; [done|].
  cbn [foldl]. rewrite IH. destruct (decide (c = col)) as [->|Hne].
  - rewrite at_col_insert, lookup_insert_eq. cbn [str].
    rewrite (bool_decide_eq_true_2 (col ∈ col :: cols)) by left.
    by case_bool_decide.
  - rewrite at_col_insert_ne, lookup_insert_ne by done.
    rewrite (bool_decide_ext (c ∈ col :: cols) (c ∈ cols)); [done|].
    rewrite elem_of_cons. tauto.
Qed.

Lemma foldl_astype_fmap (r : row) cols :
  dom r = list_to_set cols →
  foldl (λ r col, <[col := CStr (str (at_col r col))]> r) r cols
  = (λ c, CStr (str c)) <$> r.
Proof.
  intros Hdom. apply map_eq. intros c.
  rewrite lookup_foldl_astype, lookup_fmap. case_bool_decide as Hc.
  - assert (c ∈ dom r) as [v Hv]%elem_of_dom
      by (rewrite Hdom; by apply elem_of_list_to_set).
    unfold at_col. by rewrite Hv.
  - assert (c ∉ dom r) as Hv%not_elem_of_dom
      by (rewrite Hdom; by rewrite elem_of_list_to_set).
    by rewrite Hv.
Qed.

Lemma safe_df_for_editor_fmap df :
  well_formed df →
  safe_df_for_editor (Some df)
  = Some (Table (columns df) (prod_map id (λ r : row, editor_text <$> r) <$> rows df)).
Proof.
  intros Hwf. unfold safe_df_for_editor. cbv zeta. f_equal.
  rewrite astype_str_rows by (by apply Forall_forall).
  unfold fillna. cbn [columns rows]. f_equal.
  rewrite <- list_fmap_compose. apply list_fmap_ext.
  intros k [i r] Hk. unfold prod_map. cbn [fst snd compose id]. f_equal.
  rewrite foldl_astype_fmap.
  - rewrite <- map_fmap_compose. apply map_fmap_ext. intros _ c _.
    unfold editor_text. cbn. by destruct (pd.isna c).
  - rewrite dom_fmap_L. unfold well_formed in Hwf.
    rewrite Forall_forall in Hwf.
    apply (Hwf (i, r)). by apply list_elem_of_lookup_2 in Hk.
Qed.

Lemma pretty_N_go_nonempty x s : s ≠ "" → pretty_N_go x s ≠ "".
Proof.
  revert s. induction (N.lt_wf_0 x) as [x _ IH]. intros s Hs.
  destruct (decide (x = 0)%N) as [->|Hx]; [by rewrite pretty_N_go_0|].
  rewrite pretty_N_go_step by lia. apply IH; [|done].
  apply N.div_lt; lia.
Qed.

Lemma pretty_N_nonempty (x : N) : pretty x ≠ "".
Proof.
  unfold pretty, pretty_N. case_decide; [done|].
  rewrite pretty_N_go_step by lia. by apply pretty_N_go_nonempty.
Qed.

Lemma pretty_Z_nonempty (n : Z) : pretty n ≠ "".
Proof.
  destruct n as [|p|p]; [done| |].
  - apply (pretty_N_nonempty (N.pos p)).
  - unfold pretty, pretty_Z. intros H.
    change ("-" +:+ pretty p) with (String "-" (pretty p)) in H. done.
Qed.

Lemma is_empty_editor_text c : is_empty (editor_text c) = is_empty c.
Proof.
  destruct c as [| |s|n]; try done. cbn.
  apply bool_decide_eq_false. apply pretty_Z_nonempty.
Qed.

Lemma editor_text_idemp c : editor_text (editor_text c) = editor_text c.
Proof. done. Qed.

Lemma well_formed_editor df :
  well_formed df →
  well_formed (Table (columns df) (prod_map id (λ r : row, editor_text <$> r) <$> rows df)).
Proof.
  unfold well_formed. cbn [columns rows]. intros H.
  apply Forall_fmap. eapply Forall_impl; [exact H|].
  intros [i r] Hr. cbn in *. by rewrite dom_fmap_L.
Qed.

(** On a sheet in which every row has a cell in each column,
    [safe_df_for_editor] keeps the columns and the row labels and turns
    every cell into a text: the empty text for a missing value, [str] of the
    value otherwise.  A cell is blank afterwards exactly when it was blank
    before, and a second pass changes nothing. *)
Theorem safe_df_for_editor_texts df :
  well_formed df →
  ∃ out, safe_df_for_editor (Some df) = Some out
         ∧ columns out = columns df
         ∧ Forall2 (λ ir ir' : Z * row,
                      ir'.1 = ir.1
                      ∧ ir'.2 = editor_text <$> ir.2
                      ∧ ∀ col, is_empty (at_col ir'.2 col)
                               = is_empty (at_col ir.2 col))
                   (rows df) (rows out)
         ∧ safe_df_for_editor (Some out) = Some out.
Proof.
  intros Hwf. rewrite (safe_df_for_editor_fmap df Hwf). eexists.
  split; [done|]. split; [done|]. split.
  - cbn [rows]. apply Forall2_diag_fmap. intros [i r] _.
    unfold prod_map. cbn [fst snd id]. repeat split.
    intros col. unfold at_col. rewrite lookup_fmap.
    destruct (r !! col) as [c|]; [|done]. cbn. apply is_empty_editor_text.
  - rewrite safe_df_for_editor_fmap by (by apply well_formed_editor).
    cbn [columns rows]. do 2 f_equal. rewrite <- list_fmap_compose.
    apply list_fmap_ext. intros _ [i r] _. unfold prod_map. cbn. f_equal.
    rewrite <- map_fmap_compose. apply map_fmap_ext. by intros _ c _.
Qed.

Lemma safe_df_for_editor_texts_witness :
  ∃ out, safe_df_for_editor (Some survey_with_missing_cells) = Some out
         ∧ columns out = columns survey_with_missing_cells
         ∧ Forall2 (λ ir ir' : Z * row,
                      ir'.1 = ir.1
                      ∧ ir'.2 = editor_text <$> ir.2
                      ∧ ∀ col, is_empty (at_col ir'.2 col)
                               = is_empty (at_col ir.2 col))
                   (rows survey_with_missing_cells) (rows out)
         ∧ safe_df_for_editor (Some out) = Some out.
Proof.
  apply safe_df_for_editor_texts.
  unfold well_formed, survey_with_missing_cells. cbn [rows columns].
  repeat (apply Forall_cons_2); [..|apply Forall_nil_2];
    (eapply bool_decide_unpack; vm_compute; exact I).
Defined.

(** After [safe_df_for_editor] no cell is a missing value, so on a sheet
    with at least one row the Redundant Column Pruner drops the four
    unused columns and nothing else: a column of blank cells stays.  On a
    sheet with no row the pruner drops every column. *)
Theorem remove_redundant_columns_after_editor df out :
  well_formed df →
  safe_df_for_editor (Some df) = Some out →
  ∀ col, col ∈ columns (remove_redundant_columns out)
         ↔ rows df ≠ [] ∧ col ∈ columns df ∧ col ∉ unused_columns.
Proof.
  intros Hwf. rewrite (safe_df_for_editor_fmap df Hwf). intros [= <-] col.
  rewrite elem_of_columns_remove_redundant. cbn [columns].
  assert (col ∈ columns df →
          all_na (Table (columns df)
                    (prod_map id (λ r : row, editor_text <$> r) <$> rows df)) col
          = bool_decide (rows df = [])) as Hna.
  { intros Hcol. unfold all_na. cbn [rows].
    destruct (rows df) as [|[i r] rs] eqn:Hr; [done|].
    rewrite bool_decide_eq_false_2 by done. cbn [fmap list_fmap forallb].
    unfold prod_map at 1. cbn [fst snd].
    assert (col ∈ dom r) as [v Hv]%elem_of_dom.
    { unfold well_formed in Hwf. rewrite Hr in Hwf.
      apply Forall_cons in Hwf as [Hd _]. cbn in Hd. rewrite Hd.
      by apply elem_of_list_to_set. }
    unfold at_col at 1. by rewrite lookup_fmap, Hv. }
  split.
  - intros (Hcol & Hn & Hu). rewrite (Hna Hcol) in Hn.
    apply bool_decide_eq_false in Hn. done.
  - intros (Hne & Hcol & Hu). rewrite (Hna Hcol).
    by rewrite bool_decide_eq_false_2.
Qed.

Lemma remove_redundant_columns_after_editor_witness :
  "appearance"
    ∈ columns
        (remove_redundant_columns
           (Table (columns survey_with_missing_cells)
              (prod_map id (λ r : row, editor_text <$> r)
                 <$> rows survey_with_missing_cells)))
  ↔ rows survey_with_missing_cells ≠ []
    ∧ "appearance" ∈ columns survey_with_missing_cells
    ∧ "appearance" ∉ unused_columns.
Proof.
  apply (remove_redundant_columns_after_editor survey_with_missing_cells).
  - unfold well_formed, survey_with_missing_cells. cbn [rows columns].
    repeat (apply Forall_cons_2); [..|apply Forall_nil_2];
      (eapply bool_decide_unpack; vm_compute; exact I).
  - vm_compute. reflexivity.
Defined.

(** On the sample survey: the column [appearance], missing in every row,
    is dropped by the pruner, and stays when the sheet went through
    [safe_df_for_editor] first. *)
Lemma remove_redundant_columns_after_editor_example :
  columns (remove_redundant_columns survey_with_missing_cells)
  = ["type"; "name"]
  ∧ (∀ out, safe_df_for_editor (Some survey_with_missing_cells) = Some out →
            columns (remove_redundant_columns out)
            = ["type"; "name"; "appearance"]).
Proof.
  split; [by vm_compute|]. intros out [= <-]. by vm_compute.
Qed.

(** ** Language Column Normalizer: the cells *)

Lemma rows_create_if_missing target df :
  rows (create_if_missing target df)
  = prod_map id (λ r : row, if has_column df target then r
                            else <[target := CStr ""]> r) <$> rows df.
Proof.
  unfold create_if_missing. destruct (has_column df target).
  - symmetry. by apply prod_map_id_fmap.
  - done.
Qed.

Lemma has_column_create_if_missing_ne target col df :
  target ≠ col →
  has_column (create_if_missing target df) col = has_column df col.
Proof.
  intros Hne. unfold has_column. rewrite columns_create_if_missing.
  apply bool_decide_ext. rewrite elem_of_add_column. intuition congruence.
Qed.

Lemma rows_created df :
  rows (create_if_missing "hint::Arabic"
          (create_if_missing "hint::English"
             (create_if_missing "label::Arabic"
                (create_if_missing "label::English" df))))
  = prod_map id (created_row df) <$> rows df.
Proof.
  rewrite !rows_create_if_missing, <- !list_fmap_compose.
  rewrite !has_column_create_if_missing_ne by done.
  apply list_fmap_ext. by intros _ [i r] _.
Qed.

Lemma lookup_created_row df r col :
  created_row df r !! col
  = if bool_decide (col ∈ canonical_columns) && negb (has_column df col)
    then Some (CStr "") else r !! col.
Proof.
  unfold created_row, canonical_columns. cbn [foldl].
  destruct (decide (col ∈ ["label::English"; "label::Arabic";
                           "hint::English"; "hint::Arabic"])) as [Hc|Hc].
  - rewrite bool_decide_eq_true_2 by done. cbn [andb].
    repeat (apply elem_of_cons in Hc as [->|Hc]);
      [..|by apply elem_of_nil in Hc];
      destruct (has_column df "label::English"),
               (has_column df "label::Arabic"),
               (has_column df "hint::English"),
               (has_column df "hint::Arabic"); cbn [negb];
      by repeat first [ rewrite lookup_insert_eq
                      | rewrite lookup_insert_ne by done ].
  - rewrite bool_decide_eq_false_2 by done. cbn [andb].
    rewrite !elem_of_cons, elem_of_nil in Hc.
    destruct (has_column df "label::English"),
             (has_column df "label::Arabic"),
             (has_column df "hint::English"),
             (has_column df "hint::Arabic");
      rewrite ?lookup_insert_ne by (intros <-; tauto); done.
Qed.

Lemma at_col_created_row df r target :
  target ∈ canonical_columns →
  at_col (created_row df r) target = initial_cell df target r.
Proof.
  intros Hc. unfold at_col, initial_cell. rewrite lookup_created_row.
  rewrite bool_decide_eq_true_2 by done. cbn [andb].
  by destruct (has_column df target).
Qed.

Lemma at_col_created_row_other df r col :
  col ∉ canonical_columns → at_col (created_row df r) col = at_col r col.
Proof.
  intros Hc. unfold at_col. rewrite lookup_created_row.
  by rewrite bool_decide_eq_false_2 by done.
Qed.

Lemma lookup_map_row_other r col c :
  c ∉ canonical_columns → map_row r col !! c = r !! c.
Proof.
  intros Hc. unfold map_row. destruct (target_of col) as [t|] eqn:Ht; [|done].
  rewrite lookup_insert_ne; [done|]. intros <-.
  by apply target_of_canonical in Ht.
Qed.

Lemma lookup_foldl_map_row_other r cols c :
  c ∉ canonical_columns → foldl map_row r cols !! c = r !! c.
Proof.
  intros Hc. revert r. induction cols as [|col cols IH]; intros r; [done|].
  cbn [foldl]. rewrite IH. by apply lookup_map_row_other.
Qed.

(** One turn of the loop, seen from the cell of [target]. *)
Lemma at_col_map_row r col target :
  at_col (map_row r col) target
  = if decide (target_of col = Some target)
    then (if is_empty (at_col r target) && negb (is_empty (at_col r col))
          then at_col r col else at_col r target)
    else at_col r target.
Proof.
  unfold map_row. destruct (target_of col) as [t|] eqn:Ht.
  - case_decide as Hd.
    + injection Hd as ->. by rewrite at_col_insert.
    + rewrite at_col_insert_ne; [done|]. congruence.
  - by rewrite decide_False.
Qed.

Lemma foldl_pointwise {A B} (f g : A → B → A) (a : A) (l : list B) :
  (∀ a b, f a b = g a b) → foldl f a l = foldl g a l.
Proof.
  intros H. revert a. induction l as [|b l IH]; intros a; [done|].
  cbn [foldl]. by rewrite H, IH.
Qed.

Lemma at_col_foldl_map_row r cols target :
  at_col (foldl map_row r cols) target
  = foldl (λ v col,
             if decide (target_of col = Some target)
             then (if is_empty v && negb (is_empty (at_col r col))
                   then at_col r col else v)
             else v)
          (at_col r target) cols.
Proof.
  revert r. induction cols as [|col cols IH]; intros r; [done|].
  cbn [foldl]. rewrite IH, at_col_map_row.
  apply foldl_pointwise. intros v c. case_decide as Hd; [|done].
  apply target_of_not_canonical in Hd.
  unfold at_col. by rewrite lookup_map_row_other.
Qed.

(** The loop keeps a cell that is not blank, and fills a blank cell with
    the first alias cell that is not blank. *)
Lemma foldl_first_filled r target cols v :
  foldl (λ v col,
           if decide (target_of col = Some target)
           then (if is_empty v && negb (is_empty (at_col r col))
                 then at_col r col else v)
           else v) v cols
  = if is_empty v
    then default v (first_filled (alias_cells target cols r))
    else v.
Proof.
  unfold first_filled, alias_cells.
  revert v. induction cols as [|col cols IH]; intros v.
  - cbn. by destruct (is_empty v).
  - cbn [foldl]. rewrite IH. case_decide as Hd.
    + rewrite filter_cons_True by done. cbn [fmap list_fmap].
      destruct (is_empty v) eqn:Ev; cbn [andb].
      * destruct (is_empty (at_col r col)) eqn:Ec; cbn [negb].
        -- rewrite Ev. rewrite (filter_cons_False _ (at_col r col)); [done|].
           by rewrite Ec.
        -- rewrite Ec. by rewrite filter_cons_True.
      * by rewrite Ev.
    + by rewrite filter_cons_False.
Qed.

(** The cells of the Language Column Normalizer's result, row by row: the
    row labels are kept; each of the four standardized columns holds the cell
    it had if that was not blank, and else the first cell that is not blank
    among the columns merged into it, in column order; a column that is dropped
    has no cell; every other cell is the former one. *)
Theorem normalize_language_columns_cells df :
  Forall2 (λ ir ir' : Z * row,
             ir'.1 = ir.1
             ∧ (∀ target, target ∈ canonical_columns →
                          at_col ir'.2 target
                          = standardized_cell df target ir.2)
             ∧ (∀ col, col ∉ canonical_columns →
                       ir'.2 !! col
                       = if bool_decide (col ∈ columns df ∧ to_drop col = true)
                         then None else ir.2 !! col))
          (rows df) (rows (normalize_language_columns df)).
Proof.
  rewrite normalize_language_columns_unfold. cbv zeta.
  rewrite rows_drop_columns. cbn [rows]. rewrite rows_created.
  rewrite <- !list_fmap_compose. apply Forall2_diag_fmap.
  intros [i r] _. unfold prod_map. cbn [fst snd compose id].
  split; [done|]. split.
  - intros target Ht. rewrite at_col_foldr_delete.
    2: { rewrite list_elem_of_filter. intros [Hd _].
         by rewrite (to_drop_canonical _ Ht) in Hd. }
    rewrite at_col_foldl_map_row, at_col_created_row by done.
    rewrite (foldl_pointwise _ (λ v col,
               if decide (target_of col = Some target)
               then (if is_empty v && negb (is_empty (at_col r col))
                     then at_col r col else v)
               else v)).
    + apply foldl_first_filled.
    + intros v col. case_decide as Hd; [|done].
      apply target_of_not_canonical in Hd.
      by rewrite at_col_created_row_other.
  - intros col Hc. case_bool_decide as Hd.
    + apply lookup_foldr_delete_elem. apply list_elem_of_filter. tauto.
    + rewrite lookup_foldr_delete.
      2: { rewrite list_elem_of_filter. tauto. }
      rewrite lookup_foldl_map_row_other, lookup_created_row by done.
      by rewrite bool_decide_eq_false_2 by done.
Qed.

(** On the sample survey: [label:English] comes before [label] and wins;
    a blank alias is passed over; a label that is there is kept. *)
Lemma normalize_language_columns_cells_example :
  (λ ir : Z * row, at_col ir.2 "label::English")
    <$> rows (normalize_language_columns survey_with_two_aliases)
  = [CStr "first"; CStr "second"; CStr "own"].
Proof. vm_compute. reflexivity. Qed.

(** ** The conversion of the choices sheet *)

Lemma seed_columns_kept :
  Forall (λ col, col ∈ columns create_standard_location_choices
                 ∧ all_na create_standard_location_choices col = false
                 ∧ (col ∉ unused_columns))
         seed_columns.
Proof. eapply bool_decide_unpack. vm_compute. exact I. Qed.

Lemma length_rows_normalize_language_columns df :
  length (rows (normalize_language_columns df)) = length (rows df).
Proof.
  rewrite normalize_language_columns_unfold. cbv zeta.
  rewrite rows_drop_columns. cbn [rows].
  by rewrite rows_created, !length_fmap.
Qed.

Lemma rows_normalize_language_columns_nil df :
  rows (normalize_language_columns df) = [] ↔ rows df = [].
Proof.
  pose proof (length_rows_normalize_language_columns df) as H.
  split; intros He; rewrite He in H.
  - by destruct (rows df).
  - by destruct (rows (normalize_language_columns df)).
Qed.

(** The pruner leaves the cells of a column it keeps. *)
Lemma remove_redundant_columns_kept_cells df cols :
  Forall (λ col, all_na df col = false ∧ col ∉ unused_columns) cols →
  Forall (λ col, col ∈ columns df → col ∈ columns (remove_redundant_columns df))
         cols
  ∧ ∃ del : row → row,
      (rows (remove_redundant_columns df)).*2 = del <$> (rows df).*2
      ∧ ∀ r col, col ∈ cols → at_col (del r) col = at_col r col.
Proof.
  intros Hcols. rewrite Forall_forall in Hcols. split.
  - apply Forall_forall. intros col Hc Hin.
    apply elem_of_columns_remove_redundant. destruct (Hcols col Hc). tauto.
  - eexists. split.
    + rewrite rows_remove_redundant, snd_prod_map_fmap. done.
    + intros r col Hc. destruct (Hcols col Hc) as [Hna Hun]. cbn beta.
      rewrite !at_col_foldr_delete; [done| |].
      * rewrite list_elem_of_filter. intros [H _]. congruence.
      * rewrite list_elem_of_filter. tauto.
Qed.

Lemma all_na_concat_seed df col :
  all_na create_standard_location_choices col = false →
  all_na (pd.concat df create_standard_location_choices) col = false.
Proof.
  intros Hseed. destruct (all_na (pd.concat _ _) col) eqn:E; [|done].
  rewrite <- Hseed. symmetry. apply all_na_Forall in E. apply all_na_Forall.
  unfold pd.concat in E. cbn [rows] in E.
  set (seed := create_standard_location_choices) in *. clearbody seed.
  set (cols := foldl add_column _ _) in E. clearbody cols.
  apply Forall_forall. intros ir Hir.
  assert (pd.pad cols ir.2
          ∈ (reset_index (prod_map id (pd.pad cols) <$> rows df ++ rows seed)).*2)
    as Hin.
  { rewrite reset_index_rows, snd_prod_map_fmap, !fmap_app.
    apply elem_of_app. right.
    apply list_elem_of_fmap_2. by apply (list_elem_of_fmap_2 snd). }
  apply list_elem_of_fmap in Hin as (ir' & Heq & Hin).
  rewrite Forall_forall in E. specialize (E _ Hin).
  cbn beta in E. by rewrite <- Heq, at_col_pad in E.
Qed.

(** The result of the Cascading Select Fixer has the columns of the seed,
    none of them empty, and its rows of the reserved lists are the rows of
    the seed, completed with missing cells in the other columns. *)
Lemma fix_cascading_selects_reserved choices_df out :
  fix_cascading_selects choices_df = Ok out →
  Forall (λ col, col ∈ columns out ∧ all_na out col = false
                 ∧ (col ∉ unused_columns)) seed_columns
  ∧ ∃ g : row → row,
      (∀ r col, at_col (g r) col = at_col r col)
      ∧ filter (λ r, reserved r = true) (rows out).*2
        = g <$> (rows create_standard_location_choices).*2.
Proof.
  pose proof seed_columns_kept as Hseed.
  destruct create_standard_location_choices_hierarchy as (_ & Hres & _).
  assert (Forall (λ col, col ∈ columns create_standard_location_choices
                         ∧ all_na create_standard_location_choices col = false
                         ∧ (col ∉ unused_columns)) seed_columns
          ∧ ∃ g : row → row,
              (∀ r col, at_col (g r) col = at_col r col)
              ∧ filter (λ r, reserved r = true)
                       (rows create_standard_location_choices).*2
                = g <$> (rows create_standard_location_choices).*2) as Hfresh.
  { split; [done|]. exists id. split; [done|].
    rewrite list_fmap_id. by apply filter_all_true, Forall_fmap. }
  unfold fix_cascading_selects at 1.
  destruct choices_df as [df|]; [|by intros [= <-]].
  case_bool_decide as He; [by intros [= <-]|].
  clear Hfresh. destruct (has_column df "list_name"); [|done].
  intros [= <-]. set (kept := filter _ (rows df)).
  assert (Forall (λ ir : Z * row, reserved ir.2 = false) kept) as Hkept.
  { apply Forall_forall. intros ir Hin. unfold kept in Hin.
    by apply list_elem_of_filter in Hin as [H _]. }
  split.
  - eapply Forall_impl; [exact Hseed|]. intros col (Hc & Hna & Hun).
    split; [|split; [|done]].
    + unfold pd.concat. cbn [columns]. apply elem_of_foldl_add_column.
      by right.
    + by apply (all_na_concat_seed (Table (columns df) kept)).
  - unfold pd.concat. cbn [rows columns].
    set (seed := create_standard_location_choices) in *.
    set (cols := foldl add_column _ _). clearbody cols kept. clearbody seed.
    exists (pd.pad cols). split; [intros r col; apply at_col_pad|].
    rewrite reset_index_rows, snd_prod_map_fmap.
    rewrite (filter_fmap _ (λ r, reserved r = true))
      by (intros r; by rewrite reserved_pad).
    f_equal. rewrite fmap_app, filter_app.
    rewrite (filter_all_false _ kept.*2).
    + by apply filter_all_true, Forall_fmap.
    + apply Forall_fmap. eapply Forall_impl; [exact Hkept|].
      intros ir H1 H2. unfold compose in H2. congruence.
Qed.

(** The conversion of a choices sheet that has no row, or has the
    [list_name] column, gives a sheet that has the six columns of the seed
    and in which the rows of the three location lists are the nine rows of
    the seed, cell by cell in these columns: three governorates, three
    districts each under one of the governorates, three subdistricts each
    under one of the districts. *)
Theorem final_choices_df_seeded choices_df :
  rows choices_df = [] ∨ "list_name" ∈ columns choices_df →
  ∃ out, final_choices_df choices_df = Ok out
         ∧ Forall (λ col, col ∈ columns out) seed_columns
         ∧ seed_set out
         ∧ seed_hierarchy out.
Proof.
  intros Hdf. unfold final_choices_df. cbv zeta.
  set (normalized := normalize_language_columns choices_df).
  assert (∃ out1, fix_cascading_selects (Some normalized) = Ok out1)
    as [out1 Hout1].
  { unfold fix_cascading_selects. case_bool_decide as He; [by eexists|].
    assert ("list_name" ∈ columns normalized) as Hcol.
    { destruct Hdf as [Hnil|Hcol].
      - apply rows_normalize_language_columns_nil in Hnil.
        fold normalized in Hnil. by rewrite Hnil in He.
      - apply elem_of_columns_normalize. split; [by left|done]. }
    rewrite (has_column_true _ _ Hcol). by eexists. }
  rewrite Hout1. eexists. split; [done|].
  destruct (fix_cascading_selects_reserved _ _ Hout1)
    as (Hcols1 & g & Hg & Hres).
  clear Hout1. clearbody normalized.
  assert (Forall (λ col, all_na out1 col = false ∧ col ∉ unused_columns)
                 seed_columns) as Hkeep.
  { eapply Forall_impl; [exact Hcols1|]. tauto. }
  destruct (remove_redundant_columns_kept_cells _ _ Hkeep)
    as (Hcols & del & Hrows & Hdel).
  split.
  - apply Forall_forall. intros col Hc.
    rewrite Forall_forall in Hcols, Hcols1.
    apply Hcols; [done|]. by apply Hcols1.
  - apply (seed_rows_transfer (del ∘ g)).
    + intros r col Hc. unfold compose. by rewrite Hdel, Hg.
    + rewrite Hrows, list_fmap_compose, <- Hres.
      apply filter_fmap. intros r. unfold reserved.
      rewrite Hdel; [done|]. unfold seed_columns. left.
Qed.

Lemma final_choices_df_seeded_witness :
  ∃ out, final_choices_df choices_with_governorate = Ok out
         ∧ Forall (λ col, col ∈ columns out) seed_columns
         ∧ seed_set out
         ∧ seed_hierarchy out.
Proof.
  apply final_choices_df_seeded. right. vm_compute. left.
Defined.

(** The conversion of the choices sheet stops with [KeyError] exactly when
    the sheet has a row and no [list_name] column. *)
Theorem final_choices_df_raises choices_df :
  final_choices_df choices_df = Raise (KeyError "list_name")
  ↔ rows choices_df ≠ [] ∧ "list_name" ∉ columns choices_df.
Proof.
  unfold final_choices_df. cbv zeta. unfold fix_cascading_selects.
  set (normalized := normalize_language_columns choices_df).
  assert (rows normalized = [] ↔ rows choices_df = []) as Hrows
    by apply rows_normalize_language_columns_nil.
  assert ("list_name" ∈ columns normalized ↔ "list_name" ∈ columns choices_df)
    as Hcol.
  { unfold normalized. rewrite elem_of_columns_normalize. split.
    - intros [[?|Hc] _]; [done|]. unfold canonical_columns in Hc.
      repeat (apply elem_of_cons in Hc as [?|Hc]); try done.
      by apply elem_of_nil in Hc.
    - intros ?. split; [by left|done]. }
  case_bool_decide as He.
  - split; [done|]. intros [Hne _]. destruct Hne. apply Hrows.
    by destruct (rows normalized).
  - unfold has_column. case_bool_decide as Hc.
    + split; [done|]. intros [_ Hn]. destruct Hn. by apply Hcol.
    + split; [|done]. intros _. split.
      * intros Hnil. apply He. apply Hrows in Hnil. by rewrite Hnil.
      * intros H. apply Hc. by apply Hcol.
Qed.
